(** * Video task orchestration: a shallow embedding of [src/lib/video-generation.ts]

    The development follows the source file top to bottom: the data the
    orchestrator reads and writes, the JavaScript values and built-ins it
    relies on, the effects it performs (store writes, HTTP attempts, timers,
    file system), then [pickVideoApiKey], [updateVideoTask], [fetchJson],
    [downloadVideo], [processVideoTask] and [generateVideos]; then the two
    callers: the route handler that runs a batch, and the computations of
    the task board over the task records.

    Strings are sequences of characters ([string]); the literals keep the
    source's text.  JSON numbers are integers ([Z]). *)

From Stdlib Require Import String Ascii List ZArith Lia Bool.
From Stdlib Require Import Decimal DecimalString Sorted Permutation.
Import ListNotations.

Local Open Scope string_scope.
Local Open Scope Z_scope.

(* ================================================================== *)
(** ** Data model *)

(** Modelled from the spec: the [VideoTask] declaration of [lib/types.ts],
    which is not among the sources.  The fields are those of section 3 of
    the specification; a field the source reads with [??], [?.] or a
    truthiness test is optional. *)
Record VideoTask := mkVideoTask {
  number : string;
  prompt : string;
  imageUrls : option (list string);
  aspectRatio : option string;
  watermark : option string;
  callbackUrl : option string;
  seeds : option string;
  enableFallback : option bool;
  enableTranslation : option bool;
  status : string;
  progress : option Z;
  errorMsg : option string;
  localPath : option string;
  remoteUrl : option string;
  actualFilename : option string;
  updatedAt : string
}.

(** [Partial<VideoTask>]: every field of [VideoTask] may be present or not. *)
Record Patch := mkPatch {
  p_number : option string;
  p_prompt : option string;
  p_imageUrls : option (option (list string));
  p_aspectRatio : option (option string);
  p_watermark : option (option string);
  p_callbackUrl : option (option string);
  p_seeds : option (option string);
  p_enableFallback : option (option bool);
  p_enableTranslation : option (option bool);
  p_status : option string;
  p_progress : option (option Z);
  p_errorMsg : option (option string);
  p_localPath : option (option string);
  p_remoteUrl : option (option string);
  p_actualFilename : option (option string);
  p_updatedAt : option string
}.

(** The object literal [{}]. *)
Definition no_fields : Patch :=
  mkPatch None None None None None None None None
          None None None None None None None None.

(** Object literals are written field by field on top of [{}]. *)
Definition with_status (s : string) (p : Patch) : Patch :=
  mkPatch (p_number p) (p_prompt p) (p_imageUrls p) (p_aspectRatio p)
          (p_watermark p) (p_callbackUrl p) (p_seeds p) (p_enableFallback p)
          (p_enableTranslation p) (Some s) (p_progress p) (p_errorMsg p)
          (p_localPath p) (p_remoteUrl p) (p_actualFilename p) (p_updatedAt p).

Definition with_progress (n : Z) (p : Patch) : Patch :=
  mkPatch (p_number p) (p_prompt p) (p_imageUrls p) (p_aspectRatio p)
          (p_watermark p) (p_callbackUrl p) (p_seeds p) (p_enableFallback p)
          (p_enableTranslation p) (p_status p) (Some (Some n)) (p_errorMsg p)
          (p_localPath p) (p_remoteUrl p) (p_actualFilename p) (p_updatedAt p).

Definition with_errorMsg (m : string) (p : Patch) : Patch :=
  mkPatch (p_number p) (p_prompt p) (p_imageUrls p) (p_aspectRatio p)
          (p_watermark p) (p_callbackUrl p) (p_seeds p) (p_enableFallback p)
          (p_enableTranslation p) (p_status p) (p_progress p) (Some (Some m))
          (p_localPath p) (p_remoteUrl p) (p_actualFilename p) (p_updatedAt p).

Definition with_localPath (m : string) (p : Patch) : Patch :=
  mkPatch (p_number p) (p_prompt p) (p_imageUrls p) (p_aspectRatio p)
          (p_watermark p) (p_callbackUrl p) (p_seeds p) (p_enableFallback p)
          (p_enableTranslation p) (p_status p) (p_progress p) (p_errorMsg p)
          (Some (Some m)) (p_remoteUrl p) (p_actualFilename p) (p_updatedAt p).

Definition with_remoteUrl (m : string) (p : Patch) : Patch :=
  mkPatch (p_number p) (p_prompt p) (p_imageUrls p) (p_aspectRatio p)
          (p_watermark p) (p_callbackUrl p) (p_seeds p) (p_enableFallback p)
          (p_enableTranslation p) (p_status p) (p_progress p) (p_errorMsg p)
          (p_localPath p) (Some (Some m)) (p_actualFilename p) (p_updatedAt p).

Definition with_actualFilename (m : string) (p : Patch) : Patch :=
  mkPatch (p_number p) (p_prompt p) (p_imageUrls p) (p_aspectRatio p)
          (p_watermark p) (p_callbackUrl p) (p_seeds p) (p_enableFallback p)
          (p_enableTranslation p) (p_status p) (p_progress p) (p_errorMsg p)
          (p_localPath p) (p_remoteUrl p) (Some (Some m)) (p_updatedAt p).

(** Modelled from the spec: the configuration bundle [AppData] of
    [lib/types.ts] (section 3: [apiSettings.threadCount],
    [videoSettings.apiKey] / [savePath], a [keyLibrary] of named credentials
    with platform and secret, and the task collection).  [keyLibrary] is
    kept as the list of its properties in the order [Object.values]
    enumerates them. *)
Record ApiSettings := mkApiSettings {
  threadCount : option Z
}.

Record VideoSettings := mkVideoSettings {
  vs_apiKey : option string;
  savePath : string
}.

Record KeyEntry := mkKeyEntry {
  k_name : string;
  k_platform : option string;
  k_apiKey : string
}.

Record AppData := mkAppData {
  apiSettings : ApiSettings;
  videoSettings : VideoSettings;
  keyLibrary : list (string * KeyEntry);
  videoTasks : list VideoTask
}.

(* ================================================================== *)
(** ** JavaScript values *)

(** A parsed JSON document, as axios hands it to the caller.  An object is
    the list of its own properties. *)
#[local] Unset Elimination Schemes.
Inductive JSON : Type :=
| JNull
| JBool (b : bool)
| JNum (n : Z)
| JStr (s : string)
| JArr (items : list JSON)
| JObj (props : list (string * JSON)).
#[local] Set Elimination Schemes.

(** A thrown value.  Everything the source throws or catches is an [Error];
    an axios error also carries [code] and, when the server answered,
    [response] (status and body). *)
Record Exn := mkExn {
  isAxiosError : bool;
  ename : string;
  message : string;
  code : option string;
  response : option (Z * JSON)
}.

(** [new Error(msg)] *)
Definition Error (msg : string) : Exn := mkExn false "Error" msg None None.

(** [String(error)] for an [Error] object ([Error.prototype.toString]). *)
Definition String_of_error (e : Exn) : string :=
  if String.eqb (ename e) "" then message e
  else if String.eqb (message e) "" then ename e
  else ename e ++ ": " ++ message e.

(** Template-literal rendering of an integer. *)
Definition dec (n : Z) : string := NilZero.string_of_int (Z.to_int n).

Fixpoint lookup (key : string) (props : list (string * JSON)) : option JSON :=
  match props with
  | [] => None
  | (k, v) :: rest => if String.eqb k key then Some v else lookup key rest
  end.

(** [v.key] and [v?.key]: a property read.  [None] is [undefined]; the
    source never reads a property of [null] or [undefined] without [?.]
    except where a previous test has excluded them. *)
Definition prop (v : option JSON) (key : string) : option JSON :=
  match v with
  | Some (JObj props) => lookup key props
  | Some (JArr items) =>
      if String.eqb key "length" then Some (JNum (Z.of_nat (List.length items)))
      else if String.eqb key "0" then hd_error items
      else None
  | Some (JStr s) =>
      if String.eqb key "length" then Some (JNum (Z.of_nat (String.length s)))
      else if String.eqb key "0" then
             match s with
             | EmptyString => None
             | String c _ => Some (JStr (String c EmptyString))
             end
      else None
  | _ => None
  end.

(** Truthiness of a value ([!v], [if (v)], [a || b]). *)
Definition truthy (v : option JSON) : bool :=
  match v with
  | None | Some JNull => false
  | Some (JBool b) => b
  | Some (JNum n) => negb (n =? 0)
  | Some (JStr s) => negb (String.eqb s "")
  | Some (JArr _) | Some (JObj _) => true
  end.

(** [v === n] for a number literal [n]. *)
Definition strict_eq_num (v : option JSON) (n : Z) : bool :=
  match v with
  | Some (JNum m) => m =? n
  | _ => false
  end.

(** [a ?? b] *)
Definition nullish_or (a : option JSON) (b : JSON) : JSON :=
  match a with
  | None | Some JNull => b
  | Some v => v
  end.

(** [s.slice(0, n)] *)
Definition slice0 (n : nat) (s : string) : string := String.substring 0 n s.

(** [s.endsWith(suffix)] *)
Definition endsWith (s suffix : string) : bool :=
  let ls := String.length s in
  let lx := String.length suffix in
  (Nat.leb lx ls && String.eqb (String.substring (ls - lx) lx s) suffix)%bool.

(** The built-ins of the JavaScript runtime and of Node's [path] and [URL]
    that the source calls.  They are pure functions of their arguments; the
    development is parametric in them. *)
Record Runtime := mkRuntime {
  rt_trim : string -> string;
  rt_toLowerCase : string -> string;
  rt_JSON_stringify : JSON -> string;
  rt_String : option JSON -> string;
  rt_encodeURIComponent : string -> string;
  rt_parseInt : string -> option Z;
  rt_toISOString : Z -> string;
  rt_cwd : string;
  rt_isAbsolute : string -> bool;
  rt_join : list string -> string;
  rt_basename : string -> string;
  rt_relative : string -> string -> string;
  rt_posix_join : list string -> string;
  rt_URL_pathname : string -> Exn + string
}.

(** String coercion of a value that is expected to be a string. *)
Definition js_String (rt : Runtime) (v : option JSON) : string :=
  match v with
  | Some (JStr s) => s
  | _ => rt_String rt v
  end.

(* ================================================================== *)
(** ** The store mutation of [updateVideoTask] *)

(** One source of [Object.assign]: a present property overwrites. *)
Definition assign {T : Type} (old : T) (new : option T) : T :=
  match new with
  | Some v => v
  | None => old
  end.

(** [Object.assign(task, patch, { updatedAt: now })] *)
Definition Object_assign (task : VideoTask) (patch : Patch) (now : string)
  : VideoTask :=
  mkVideoTask
    (assign (number task) (p_number patch))
    (assign (prompt task) (p_prompt patch))
    (assign (imageUrls task) (p_imageUrls patch))
    (assign (aspectRatio task) (p_aspectRatio patch))
    (assign (watermark task) (p_watermark patch))
    (assign (callbackUrl task) (p_callbackUrl patch))
    (assign (seeds task) (p_seeds patch))
    (assign (enableFallback task) (p_enableFallback patch))
    (assign (enableTranslation task) (p_enableTranslation patch))
    (assign (status task) (p_status patch))
    (assign (progress task) (p_progress patch))
    (assign (errorMsg task) (p_errorMsg patch))
    (assign (localPath task) (p_localPath patch))
    (assign (remoteUrl task) (p_remoteUrl patch))
    (assign (actualFilename task) (p_actualFilename patch))
    now.

(** [find] returns a reference to the first element that satisfies the
    test and [Object.assign] mutates that object in place: in the list, the
    first match is replaced and nothing else moves. *)
Fixpoint mutate_first (test : VideoTask -> bool) (f : VideoTask -> VideoTask)
  (tasks : list VideoTask) : list VideoTask :=
  match tasks with
  | [] => []
  | item :: rest =>
      if test item then f item :: rest
      else item :: mutate_first test f rest
  end.

(** The callback [updateVideoTask] passes to [updateAppData]. *)
Definition updateVideoTask_mutator (now : string) (num : string)
  (patch : Patch) (data : AppData) : AppData :=
  match find (fun item => String.eqb (number item) num) (videoTasks data) with
  | Some _ =>
      mkAppData (apiSettings data) (videoSettings data) (keyLibrary data)
        (mutate_first (fun item => String.eqb (number item) num)
           (fun task => Object_assign task patch now) (videoTasks data))
  | None => data
  end.

(* ================================================================== *)
(** ** Effects *)

(** What one axios transport attempt yields before [validateStatus] is
    applied: the server answered, axios failed with an [AxiosError] (a
    network failure, a timeout, a reset), or something else was thrown. *)
Inductive Transport : Type :=
| Responded (http_status : Z) (data : JSON)
| AxiosFailure (err_code : option string) (err_response : option (Z * JSON))
    (err_message : string)
| Crashed (e : Exn).

(** The configuration object handed to [axios]. *)
Record Request := mkRequest {
  r_url : string;
  r_method : string;
  r_headers : list (string * string);
  r_data : option JSON;
  r_timeout : Z
}.

(** The awaited operations of the module, and its reads of the
    environment and of the clock, each with the type of what it yields.  A
    rejection is part of the result and is turned into a throw by the
    caller.  Calls of [console.log] and [console.error] are left out. *)
Inductive Eff : Type -> Type :=
| EReadAppData : Eff AppData
| EUpdateVideoTask (num : string) (patch : Patch) : Eff unit
| EEnv (name : string) : Eff (option string)
| EAxios (req : Request) : Eff Transport
| ESleep (ms : Z) : Eff unit
| ENow : Eff Z
| EMkdir (dir : string) : Eff (option Exn)
| EFetch (url : string) : Eff (Exn + Z)
| EArrayBuffer : Eff (Exn + list Byte.byte)
| EWriteFile (file : string) (content : list Byte.byte) : Eff (option Exn).

(** The observable record of an effect; [EvStart] and [EvSettle] mark the
    moments the concurrency limiter starts a task pipeline and sees it
    settle. *)
Inductive Event : Type :=
| EvRead
| EvUpdate (num : string) (patch : Patch)
| EvEnv (name : string)
| EvAxios (req : Request)
| EvSleep (ms : Z)
| EvNow
| EvMkdir (dir : string)
| EvFetch (url : string)
| EvArrayBuffer
| EvWriteFile (file : string)
| EvStart (num : string)
| EvSettle (num : string).

Definition event_of {X : Type} (e : Eff X) : Event :=
  match e with
  | EReadAppData => EvRead
  | EUpdateVideoTask num patch => EvUpdate num patch
  | EEnv name => EvEnv name
  | EAxios req => EvAxios req
  | ESleep ms => EvSleep ms
  | ENow => EvNow
  | EMkdir dir => EvMkdir dir
  | EFetch url => EvFetch url
  | EArrayBuffer => EvArrayBuffer
  | EWriteFile file _ => EvWriteFile file
  end.

(** An asynchronous computation: it returns, throws, or awaits an effect
    and continues with its result.  All loops of the module are bounded, so
    the tree is finite. *)
Inductive Prog (A : Type) : Type :=
| Ret (a : A)
| Throw (e : Exn)
| Do {X : Type} (e : Eff X) (k : X -> Prog A).

Arguments Ret {A} a.
Arguments Throw {A} e.
Arguments Do {A X} e k.

Fixpoint bind {A B : Type} (m : Prog A) (f : A -> Prog B) : Prog B :=
  match m with
  | Ret a => f a
  | Throw e => Throw e
  | Do e k => Do e (fun x => bind (k x) f)
  end.

(** [try { m } catch (error) { handler error }] *)
Fixpoint try_catch {A : Type} (m : Prog A) (handler : Exn -> Prog A) : Prog A :=
  match m with
  | Ret a => Ret a
  | Throw e => handler e
  | Do e k => Do e (fun x => try_catch (k x) handler)
  end.

Definition await {X : Type} (e : Eff X) : Prog X := Do e Ret.

Declare Scope prog_scope.
Delimit Scope prog_scope with prog.
Notation "x <- m ;; k" := (bind m (fun x => k))
  (at level 61, m at next level, right associativity) : prog_scope.
Notation "m ;;; k" := (bind m (fun _ => k))
  (at level 61, right associativity) : prog_scope.
Local Open Scope prog_scope.

(** How the body of a loop, or a block with an early [return], ends. *)
Inductive Ctl (T : Type) : Type :=
| Returned (v : T)
| Continue (lastError : Exn).

Arguments Returned {T} v.
Arguments Continue {T} lastError.

(** The machine the module runs on: the persisted document and the record
    of the effects performed so far. *)
Record St := mkSt {
  store : AppData;
  trace : list Event
}.

(** What the outside world answers.  The transport answers the [n]-th HTTP
    attempt of the run, so successive attempts of the same request may be
    answered differently; the clock and the file system answer by the
    number of effects that came before.  [w_schedule] is the order in which
    the event loop completes the awaited operations of the pipelines in
    flight. *)
Record World := mkWorld {
  w_env : string -> option string;
  w_transport : nat -> Request -> Transport;
  w_clock : nat -> Z;
  w_mkdir : nat -> string -> option Exn;
  w_fetch : nat -> string -> Exn + Z;
  w_arrayBuffer : nat -> Exn + list Byte.byte;
  w_writeFile : nat -> string -> list Byte.byte -> option Exn;
  w_schedule : list nat
}.

(** A pipeline handed to the concurrency limiter, with the number of its
    task. *)
Abbreviation Job := (string * Prog unit)%type.

Definition is_attempt (ev : Event) : bool :=
  match ev with
  | EvAxios _ => true
  | _ => false
  end.

(** The number of HTTP attempts made so far. *)
Definition attempts (tr : list Event) : nat :=
  List.length (filter is_attempt tr).

Section Orchestrator.

Variable rt : Runtime.

(** Modelled from the spec: [readAppData] and [updateAppData] of
    [lib/data-store.ts], which is not among the sources.  Following
    sections 2 and 4.3, [readAppData] returns the persisted document and
    [updateAppData] is a read-modify-write: it applies the callback to the
    persisted document and persists what the callback returns, in one
    step and without failing.  The timestamp is the one
    [new Date().toISOString()] gives inside the callback. *)
Definition handle {X : Type} (w : World) (e : Eff X) (st : St) : X * St :=
  let tick := List.length (trace st) in
  let logged := mkSt (store st) (trace st ++ [event_of e]) in
  match e in Eff X return X * St with
  | EReadAppData => (store st, logged)
  | EUpdateVideoTask num patch =>
      (tt, mkSt (updateVideoTask_mutator (rt_toISOString rt (w_clock w tick))
                   num patch (store st))
                (trace st ++ [EvUpdate num patch]))
  | EEnv name => (w_env w name, logged)
  | EAxios req => (w_transport w (attempts (trace st)) req, logged)
  | ESleep _ => (tt, logged)
  | ENow => (w_clock w tick, logged)
  | EMkdir dir => (w_mkdir w tick dir, logged)
  | EFetch url => (w_fetch w tick url, logged)
  | EArrayBuffer => (w_arrayBuffer w tick, logged)
  | EWriteFile file content => (w_writeFile w tick file content, logged)
  end.

(** Running one computation to its end with nothing else interleaved. *)
Fixpoint run {A : Type} (w : World) (m : Prog A) (st : St) : (Exn + A) * St :=
  match m with
  | Ret a => (inr a, st)
  | Throw e => (inl e, st)
  | Do e k => let '(x, st') := handle w e st in run w (k x) st'
  end.

(* ------------------------------------------------------------------ *)
(** *** [pickVideoApiKey] *)

Definition GENERATE_URL : string := "https://api.kie.ai/api/v1/veo/generate".
Definition RECORD_URL : string := "https://api.kie.ai/api/v1/veo/record-info".

Record PickedKey := mkPickedKey {
  apiKey : string;
  source : string
}.

(** [s?.trim()] as a condition: present and not blank. *)
Definition trimmed_nonblank (s : option string) : bool :=
  match s with
  | Some v => negb (String.eqb (rt_trim rt v) "")
  | None => false
  end.

Definition kie_aliases : list string := ["kie.ai"; "kie"; "kei"; "kieai"].

(** The callback of [find] over [Object.values(data.keyLibrary)]. *)
Definition is_kie_entry (item : KeyEntry) : bool :=
  let normalized :=
    match k_platform item with
    | Some p => rt_toLowerCase rt p
    | None => ""
    end in
  existsb (String.eqb normalized) kie_aliases.

Definition Object_values {V : Type} (o : list (string * V)) : list V :=
  map snd o.

Definition pickVideoApiKey (data : AppData) : Prog PickedKey :=
  envKey <- await (EEnv "KIE_API_KEY") ;;
  if trimmed_nonblank envKey then
    Ret (mkPickedKey (rt_trim rt (assign "" envKey)) "environment")
  else if trimmed_nonblank (vs_apiKey (videoSettings data)) then
    Ret (mkPickedKey (rt_trim rt (assign "" (vs_apiKey (videoSettings data))))
           "videoSettings")
  else
    match find is_kie_entry (Object_values (keyLibrary data)) with
    | Some candidate => Ret (mkPickedKey (k_apiKey candidate) (k_name candidate))
    | None => Throw (Error "未配置 KIE.AI 的 API 密钥")
    end.

(* ------------------------------------------------------------------ *)
(** *** [updateVideoTask] *)

Definition updateVideoTask (num : string) (patch : Patch) : Prog unit :=
  await (EUpdateVideoTask num patch).

(* ------------------------------------------------------------------ *)
(** *** [fetchJson] *)

Record AxiosConfig := mkAxiosConfig {
  c_method : string;
  c_headers : list (string * string);
  c_data : option JSON
}.

Definition default_headers : list (string * string) :=
  [ ("User-Agent",
     "Mozilla/5.0 (Macintosh; Intel Mac OS X 10_15_7) AppleWebKit/537.36");
    ("Accept", "application/json, text/plain, */*");
    ("Accept-Encoding", "gzip, deflate, br");
    ("Connection", "keep-alive") ].

Definition validateStatus (http_status : Z) : bool := http_status <? 500.

(** [await axios(config)]: the promise resolves with the response when
    [validateStatus] accepts its status and rejects with an axios error
    otherwise. *)
Definition axios (req : Request) : Prog (Z * JSON) :=
  t <- await (EAxios req) ;;
  match t with
  | Responded s d =>
      if validateStatus s then Ret (s, d)
      else Throw (mkExn true "AxiosError"
                    ("Request failed with status code " ++ dec s)
                    (Some "ERR_BAD_RESPONSE") (Some (s, d)))
  | AxiosFailure c r m => Throw (mkExn true "AxiosError" m c r)
  | Crashed e => Throw e
  end.

(** [typeof data === 'string' ? data : JSON.stringify(data)] *)
Definition body_text (data : JSON) : string :=
  match data with
  | JStr s => s
  | _ => rt_JSON_stringify rt data
  end.

Definition code_is (error : Exn) (c : string) : bool :=
  match code error with
  | Some c' => String.eqb c' c
  | None => false
  end.

Definition sleep (ms : Z) : Prog unit := await (ESleep ms).

(** The [catch] block of the retry loop. *)
Definition fetchJson_catch (timeoutMs retries attempt : Z) (error : Exn)
  : Prog (Ctl JSON) :=
  if isAxiosError error then
    if code_is error "ECONNABORTED" then
      Throw (Error ("请求超时 (" ++ dec timeoutMs ++ "ms)"))
    else if code_is error "ECONNRESET" then
      if attempt <? retries then
        sleep (attempt * 2000) ;;; Ret (Continue error)
      else
        Throw (Error ("连接被服务器重置，已重试" ++ dec retries
                      ++ "次。可能原因：图片URL域名被阻止（建议使用postimg.cc等图床）"))
    else
      let server_error :=
        match response error with
        | Some (s, _) => 500 <=? s
        | None => false
        end in
      if (server_error && (attempt <? retries))%bool then
        sleep (attempt * 1000) ;;; Ret (Continue error)
      else
        match response error with
        | Some (s, data) => Throw (Error ("HTTP " ++ dec s ++ ": " ++ body_text data))
        | None =>
            Throw (Error ("网络请求失败 ("
                          ++ match code error with
                             | Some c => if String.eqb c "" then "unknown" else c
                             | None => "unknown"
                             end
                          ++ "): " ++ message error))
        end
  else if attempt <? retries then
    sleep (attempt * 1000) ;;; Ret (Continue error)
  else
    Throw error.

(** One iteration of the retry loop: the [try] block and its [catch]. *)
Definition fetchJson_attempt (url : string) (config : AxiosConfig)
  (timeoutMs retries attempt : Z) : Prog (Ctl JSON) :=
  try_catch
    (resp <- axios (mkRequest url (c_method config)
                      (default_headers ++ c_headers config)
                      (c_data config) timeoutMs) ;;
     if 400 <=? fst resp then
       Throw (Error ("HTTP " ++ dec (fst resp) ++ ": " ++ body_text (snd resp)))
     else
       Ret (Returned (snd resp)))
    (fetchJson_catch timeoutMs retries attempt).

(** [for (let attempt = ...; attempt <= retries; attempt += 1)], entered
    with [remaining] iterations left, that is [remaining = retries - attempt
    + 1]; after the loop, [throw lastError || new Error('请求失败')]. *)
Fixpoint fetchJson_from (remaining : nat) (attempt : Z) (lastError : option Exn)
  (url : string) (config : AxiosConfig) (timeoutMs retries : Z) : Prog JSON :=
  match remaining with
  | O => Throw (assign (Error "请求失败") lastError)
  | S remaining' =>
      ctl <- fetchJson_attempt url config timeoutMs retries attempt ;;
      match ctl with
      | Returned data => Ret data
      | Continue error =>
          fetchJson_from remaining' (attempt + 1) (Some error)
            url config timeoutMs retries
      end
  end.

Definition fetchJson (url : string) (config : AxiosConfig) (timeoutMs : Z)
  (retries : nat) : Prog JSON :=
  fetchJson_from retries 1 None url config timeoutMs (Z.of_nat retries).

Definition default_timeoutMs : Z := 900000.
Definition default_retries : nat := 3.

(* ------------------------------------------------------------------ *)
(** *** [resolveSaveDir], [ensureDir], [downloadVideo] *)

Definition resolveSaveDir (dir : string) : string :=
  if String.eqb dir "" then rt_join rt [rt_cwd rt; "public"; "generated_videos"]
  else if rt_isAbsolute rt dir then dir
  else rt_join rt [rt_cwd rt; dir].

Definition ensureDir (dir : string) : Prog unit :=
  r <- await (EMkdir dir) ;;
  match r with
  | Some e => Throw e
  | None => Ret tt
  end.

Definition settled {A : Type} (r : Exn + A) : Prog A :=
  match r with
  | inl e => Throw e
  | inr a => Ret a
  end.

Record Saved := mkSaved {
  s_localPath : string;
  s_actualFilename : string
}.

(** [response.ok] *)
Definition http_ok (http_status : Z) : bool :=
  ((200 <=? http_status) && (http_status <=? 299))%bool.

Definition downloadVideo (url num saveDir : string) : Prog Saved :=
  ensureDir saveDir ;;;
  pathname <- settled (rt_URL_pathname rt url) ;;
  arg <- (if String.eqb pathname "" then
            t <- await ENow ;; Ret (num ++ "-" ++ dec t)
          else Ret pathname) ;;
  baseName <- (if String.eqb (rt_basename rt arg) "" then
                 t <- await ENow ;; Ret (num ++ "-" ++ dec t ++ ".mp4")
               else Ret (rt_basename rt arg)) ;;
  let ext := if endsWith (rt_toLowerCase rt baseName) ".mp4" then "" else ".mp4" in
  timestamp <- await ENow ;;
  let filename := num ++ "_" ++ dec timestamp ++ "_" ++ baseName ++ ext in
  let finalPath := rt_join rt [saveDir; filename] in
  fetched <- await (EFetch url) ;;
  http_status <- settled fetched ;;
  if negb (http_ok http_status) then
    Throw (Error ("下载视频失败: " ++ dec http_status))
  else
    body <- await EArrayBuffer ;;
    buffer <- settled body ;;
    written <- await (EWriteFile finalPath buffer) ;;
    match written with
    | Some e => Throw e
    | None =>
        let relative := rt_relative rt (rt_join rt [rt_cwd rt; "public"]) finalPath in
        Ret (mkSaved (rt_posix_join rt [relative]) filename)
    end.

(* ------------------------------------------------------------------ *)
(** *** [processVideoTask] *)

Definition maxPollTimes : nat := 120.
Definition pollInterval : Z := 5000.

Definition str_truthy (s : option string) : bool :=
  match s with
  | Some v => negb (String.eqb v "")
  | None => false
  end.

(** The request body built from the task. *)
Definition payload_of (task : VideoTask) : JSON :=
  JObj
    ([ ("prompt", JStr (prompt task));
       ("imageUrls", JArr (map JStr (assign [] (imageUrls task))));
       ("model", JStr "veo3");
       ("aspectRatio", JStr (assign "16:9" (aspectRatio task)));
       ("enableFallback", JBool (assign false (enableFallback task)));
       ("enableTranslation",
        JBool (match enableTranslation task with
               | Some false => false
               | _ => true
               end)) ]
     ++ (if str_truthy (watermark task)
         then [("watermark", JStr (assign "" (watermark task)))] else [])
     ++ (if str_truthy (callbackUrl task)
         then [("callBackUrl", JStr (assign "" (callbackUrl task)))] else [])
     ++ (if str_truthy (seeds task)
         then match rt_parseInt rt (assign "" (seeds task)) with
              | Some seedsNumber => [("seeds", JNum seedsNumber)]
              | None => []
              end
         else [])).

Definition auth_header (key : string) : string * string :=
  ("Authorization", "Bearer " ++ key).

Definition polling_status (pollCount : Z) : string :=
  "生成中... (轮询 " ++ dec pollCount ++ ")".

Definition TIMEOUT_MESSAGE : string := "轮询超时，未在预期时间内完成视频生成".
Definition NO_TASKID_PREFIX : string := "生成接口未返回 taskId。响应结构: ".

(** [while (pollCount < maxPollTimes)], entered with [remaining] iterations
    left ([remaining = maxPollTimes - pollCount]: every iteration, also one
    that ends in [continue], increments [pollCount] once), followed by the
    statement after the loop.  [Ret tt] is the [return] of the success
    branch. *)
Fixpoint poll_loop (remaining : nat) (pollCount : Z) (task : VideoTask)
  (key saveDir pollUrl : string) : Prog unit :=
  match remaining with
  | O => Throw (Error TIMEOUT_MESSAGE)
  | S remaining' =>
      sleep pollInterval ;;;
      let pollCount := pollCount + 1 in
      pollData <- fetchJson pollUrl
                    (mkAxiosConfig "GET" [auth_header key] None)
                    900000 default_retries ;;
      if negb (strict_eq_num (prop (Some pollData) "code") 200) then
        updateVideoTask (number task)
          (with_status (polling_status pollCount) no_fields) ;;;
        poll_loop remaining' pollCount task key saveDir pollUrl
      else
        let payloadData := nullish_or (prop (Some pollData) "data") (JObj []) in
        if strict_eq_num (prop (Some payloadData) "successFlag") 1 then
          updateVideoTask (number task)
            (with_progress 95 (with_status "生成完成，开始下载..." no_fields)) ;;;
          let resultUrls :=
            nullish_or (prop (prop (Some payloadData) "response") "resultUrls")
                       (JArr []) in
          if negb (truthy (prop (Some resultUrls) "length")) then
            Throw (Error "查询接口未返回视频链接")
          else
            let first := js_String rt (prop (Some resultUrls) "0") in
            saved <- downloadVideo first (number task) saveDir ;;
            updateVideoTask (number task)
              (with_errorMsg ""
                 (with_actualFilename (s_actualFilename saved)
                    (with_remoteUrl first
                       (with_localPath (s_localPath saved)
                          (with_progress 100 (with_status "成功" no_fields)))))) ;;;
            Ret tt
        else if truthy (prop (Some payloadData) "errorMessage") then
          Throw (Error (js_String rt (prop (Some payloadData) "errorMessage")))
        else
          updateVideoTask (number task)
            (with_progress (Z.min 90 (15 + pollCount * 2))
               (with_status (polling_status pollCount) no_fields)) ;;;
          poll_loop remaining' pollCount task key saveDir pollUrl
  end.

(** The [try] block of [processVideoTask]. *)
Definition processVideoTask_try (task : VideoTask) (key saveDir : string)
  : Prog unit :=
  generateResponse <- fetchJson GENERATE_URL
                        (mkAxiosConfig "POST"
                           [("Content-Type", "application/json"); auth_header key]
                           (Some (payload_of task)))
                        900000 default_retries ;;
  let taskId := prop (prop (Some generateResponse) "data") "taskId" in
  if negb (truthy taskId) then
    Throw (Error (NO_TASKID_PREFIX
                  ++ slice0 500 (rt_JSON_stringify rt generateResponse)))
  else
    updateVideoTask (number task)
      (with_progress 15 (with_status "任务已提交，等待处理..." no_fields)) ;;;
    let pollUrl :=
      RECORD_URL ++ "?taskId=" ++ rt_encodeURIComponent rt (js_String rt taskId) in
    poll_loop maxPollTimes 0 task key saveDir pollUrl.

(** The [catch] block of [processVideoTask]. *)
Definition processVideoTask_catch (task : VideoTask) (error : Exn) : Prog unit :=
  let errorMessage :=
    if String.eqb (message error) "" then String_of_error error
    else message error in
  updateVideoTask (number task)
    (with_errorMsg errorMessage (with_status "失败" no_fields)).

Definition processVideoTask (task : VideoTask) (key saveDir : string)
  : Prog unit :=
  updateVideoTask (number task)
    (with_progress 5 (with_errorMsg "" (with_status "生成中" no_fields))) ;;;
  try_catch (processVideoTask_try task key saveDir)
            (processVideoTask_catch task).

(* ------------------------------------------------------------------ *)
(** *** The limiter: [Promise.all(targets.map((task) => limit(...)))] *)

(** Modelled from the spec: the concurrency limiter.  [pLimit] comes from
    the [p-limit] package, which is not among the sources; section 5 gives
    its contract (at most N pipelines in flight, all other tasks queue
    strictly FIFO behind the first N).  The limiter is a FIFO queue of jobs
    not yet started, the jobs in flight, and the first rejection seen,
    which is what [Promise.all] rejects with. *)
Record Pool := mkPool {
  queue : list Job;
  active : list Job;
  rejection : option Exn
}.

Definition first_rejection (seen : option Exn) (e : Exn) : option Exn :=
  match seen with
  | Some _ => seen
  | None => Some e
  end.

(** Jobs are started in queue order while fewer than [cap] are in flight.  A
    started job runs up to its first [await]; one that settles without
    awaiting frees its slot at once. *)
Fixpoint dispatch (cap : nat) (waiting running : list Job) (rej : option Exn)
  (tr : list Event) : Pool * list Event :=
  match waiting with
  | [] => (mkPool [] running rej, tr)
  | job :: waiting' =>
      if (List.length running <? cap)%nat then
        match snd job with
        | Do _ _ =>
            dispatch cap waiting' (running ++ [job]) rej
              (tr ++ [EvStart (fst job)])
        | Ret _ =>
            dispatch cap waiting' running rej
              (tr ++ [EvStart (fst job); EvSettle (fst job)])
        | Throw e =>
            dispatch cap waiting' running (first_rejection rej e)
              (tr ++ [EvStart (fst job); EvSettle (fst job)])
        end
      else (mkPool waiting running rej, tr)
  end.

Fixpoint remove_nth {T : Type} (i : nat) (l : list T) : list T :=
  match l, i with
  | [], _ => []
  | _ :: rest, O => rest
  | x :: rest, S i' => x :: remove_nth i' rest
  end.

Fixpoint replace_nth {T : Type} (i : nat) (y : T) (l : list T) : list T :=
  match l, i with
  | [], _ => []
  | _ :: rest, O => y :: rest
  | x :: rest, S i' => x :: replace_nth i' y rest
  end.

(** One turn of the event loop: the operation awaited by the [i]-th job in
    flight completes and the job runs on to its next [await]; if it
    settles, its slot goes to the head of the queue. *)
Definition turn (w : World) (cap : nat) (i : nat) (pool : Pool) (st : St)
  : Pool * St :=
  match nth_error (active pool) i with
  | Some (num, Do e k) =>
      let '(x, st1) := handle w e st in
      match k x with
      | Do _ _ as next =>
          (mkPool (queue pool) (replace_nth i (num, next) (active pool))
                  (rejection pool), st1)
      | Ret _ =>
          let '(pool', tr) :=
            dispatch cap (queue pool) (remove_nth i (active pool))
                  (rejection pool) (trace st1 ++ [EvSettle num]) in
          (pool', mkSt (store st1) tr)
      | Throw err =>
          let '(pool', tr) :=
            dispatch cap (queue pool) (remove_nth i (active pool))
                  (first_rejection (rejection pool) err)
                  (trace st1 ++ [EvSettle num]) in
          (pool', mkSt (store st1) tr)
      end
  | _ => (pool, st)
  end.

(** Once the schedule is used up the jobs in flight are completed one
    after the other, oldest first, each freed slot going to the head of the
    queue; [n] counts the jobs not yet settled. *)
Fixpoint drain (w : World) (cap : nat) (n : nat) (pool : Pool) (st : St)
  : Pool * St :=
  match n with
  | O => (pool, st)
  | S n' =>
      match active pool with
      | [] => (pool, st)
      | (num, p) :: rest =>
          let '(r, st1) := run w p st in
          let rej :=
            match r with
            | inl err => first_rejection (rejection pool) err
            | inr _ => rejection pool
            end in
          let '(pool', tr) :=
            dispatch cap (queue pool) rest rej (trace st1 ++ [EvSettle num]) in
          drain w cap n' pool' (mkSt (store st1) tr)
      end
  end.

Fixpoint run_pool (w : World) (cap : nat) (schedule : list nat) (pool : Pool)
  (st : St) : Pool * St :=
  match schedule with
  | [] =>
      drain w cap (List.length (queue pool) + List.length (active pool)) pool st
  | choice :: schedule' =>
      match active pool with
      | [] => (pool, st)
      | _ :: _ =>
          let '(pool', st') :=
            turn w cap (choice mod List.length (active pool)) pool st in
          run_pool w cap schedule' pool' st'
      end
  end.

(** [await Promise.all(jobs.map(limit))] with [limit = pLimit(cap)]: the
    rejection, if any, and the machine when every job has settled.  (A
    rejection would make [Promise.all] reject while the other jobs go on;
    the pipelines of this module never reject, see
    [processVideoTask_never_throws].) *)
Definition promise_all_limit (w : World) (cap : nat) (jobs : list Job)
  (st : St) : option Exn * St :=
  let '(pool, tr) := dispatch cap jobs [] None (trace st) in
  let '(pool', st') := run_pool w cap (w_schedule w) pool (mkSt (store st) tr) in
  (rejection pool', st').

(* ------------------------------------------------------------------ *)
(** *** [generateVideos] *)

(** [list.includes(x)] *)
Definition includes (l : list string) (x : string) : bool :=
  existsb (String.eqb x) l.

Definition eligible (item : VideoTask) : bool :=
  includes ["等待中"; "失败"] (status item).

(** The [targets] of [generateVideos]; [numbers] is [None] when the
    property is absent from the payload. *)
Definition targets_of (numbers : option (list string)) (tasks : list VideoTask)
  : list VideoTask :=
  let filtered :=
    match numbers with
    | Some ns =>
        if negb (List.length ns =? 0)%nat
        then filter (fun item => includes ns (number item)) tasks
        else tasks
    | None => tasks
    end in
  filter eligible filtered.

Record Outcome := mkOutcome {
  success : bool;
  o_message : option string
}.

Definition NOTHING_TO_DO : string := "没有需要生成的视频任务".

(** [Math.max(1, apiSettings.threadCount ?? 1)] *)
Definition concurrency (settings : ApiSettings) : Z :=
  Z.max 1 (assign 1 (threadCount settings)).

Definition generateVideos (w : World) (numbers : option (list string))
  (st : St) : (Exn + Outcome) * St :=
  let '(data, st1) := handle w EReadAppData st in
  let tasks := videoTasks data in
  let targets := targets_of numbers tasks in
  match targets with
  | [] => (inr (mkOutcome false (Some NOTHING_TO_DO)), st1)
  | _ :: _ =>
      match run w (pickVideoApiKey data) st1 with
      | (inl err, st2) => (inl err, st2)
      | (inr picked, st2) =>
          let saveDir := resolveSaveDir (savePath (videoSettings data)) in
          let cap := Z.to_nat (concurrency (apiSettings data)) in
          let jobs :=
            map (fun task =>
                   (number task, processVideoTask task (apiKey picked) saveDir))
                targets in
          match promise_all_limit w cap jobs st2 with
          | (Some err, st3) => (inl err, st3)
          | (None, st3) => (inr (mkOutcome true None), st3)
          end
      end
  end.

End Orchestrator.

(* ================================================================== *)
(** ** The callers: the route handler and the task board *)

(** *** The route handler *)

(** The route casts the parsed body to [{ numbers?: string[] }] without
    checking it, so [generateVideos] runs on whatever JSON the client has
    sent.  What the engine does then is taken as given: the substring test
    [s.includes(x)] of a string, and the messages of the [TypeError]s
    thrown by a property read on [null] and by a call of something that is
    not a function. *)
Record Engine := mkEngine {
  en_includes : string -> string -> bool;
  en_read_of_null : string -> string;
  en_not_a_function : string -> string
}.

Definition TypeError (msg : string) : Exn := mkExn false "TypeError" msg None None.

(** [numbers.includes(x)] for an array and a string [x]: an element is
    that string. *)
Definition array_includes (items : list JSON) (x : string) : bool :=
  existsb (fun v =>
             match v with
             | JStr s => String.eqb s x
             | _ => false
             end) items.

(** [numbers?.length ? tasks.filter((item) =>
    numbers.includes(item.number)) : tasks] for an unchecked [numbers].
    Only an array, a string and an object with a [length] property can
    have a truthy [length]; an object has no [includes] to call, which the
    first call of the filter's callback finds out. *)
Definition filtered_by (en : Engine) (numbers : option JSON)
  (tasks : list VideoTask) : Exn + list VideoTask :=
  if truthy (prop numbers "length") then
    match numbers with
    | Some (JArr items) =>
        inr (filter (fun item => array_includes items (number item)) tasks)
    | Some (JStr s) =>
        inr (filter (fun item => en_includes en s (number item)) tasks)
    | _ =>
        match tasks with
        | [] => inr []
        | _ :: _ => inl (TypeError (en_not_a_function en "numbers.includes"))
        end
    end
  else inr tasks.

(** [generateVideos] on an unchecked payload: the same function, with
    [numbers] as the route hands it over. *)
Definition generateVideos_unchecked (en : Engine) (rt : Runtime) (w : World)
  (numbers : option JSON) (st : St) : (Exn + Outcome) * St :=
  let '(data, st1) := handle rt w EReadAppData st in
  let tasks := videoTasks data in
  match filtered_by en numbers tasks with
  | inl err => (inl err, st1)
  | inr filtered =>
      let targets := filter eligible filtered in
      match targets with
      | [] => (inr (mkOutcome false (Some NOTHING_TO_DO)), st1)
      | _ :: _ =>
          match run rt w (pickVideoApiKey rt data) st1 with
          | (inl err, st2) => (inl err, st2)
          | (inr picked, st2) =>
              let saveDir := resolveSaveDir rt (savePath (videoSettings data)) in
              let cap := Z.to_nat (concurrency (apiSettings data)) in
              let jobs :=
                map (fun task =>
                       (number task,
                        processVideoTask rt task (apiKey picked) saveDir))
                    targets in
              match promise_all_limit rt w cap jobs st2 with
              | (Some err, st3) => (inl err, st3)
              | (None, st3) => (inr (mkOutcome true None), st3)
              end
          end
      end
  end.

(** A payload of the declared type, as JSON. *)
Definition as_json (numbers : option (list string)) : option JSON :=
  match numbers with
  | Some ns => Some (JArr (map JStr ns))
  | None => None
  end.

(** What [NextResponse.json(body, { status })] answers. *)
Record Response := mkResponse {
  res_status : Z;
  res_body : Outcome
}.

Definition NO_KEY_MESSAGE : string := "未配置 KIE.AI 的 API 密钥".

(** [error.message || '生成视频失败'] *)
Definition message_or_default (error : Exn) : string :=
  if String.eqb (message error) "" then "生成视频失败" else message error.

(** The two ends of the route's [try]: a result is answered with 200,
    anything thrown with 500. *)
Definition answered (attempt : (Exn + Outcome) * St) : Response * St :=
  match attempt with
  | (inr result, st') => (mkResponse 200 result, st')
  | (inl error, st') =>
      (mkResponse 500 (mkOutcome false (Some (message_or_default error))), st')
  end.

(** The body the route goes on with: what [request.json()] settles
    with, a rejection being replaced by [{}]. *)
Definition body_of (request_json : Exn + JSON) : JSON :=
  match request_json with
  | inr parsed => parsed
  | inl _ => JObj []
  end.

(** [POST] of the generation route.  Reading [body.numbers] throws when
    the body is [null]; of any other value it is a property read. *)
Definition POST (en : Engine) (rt : Runtime) (w : World)
  (request_json : Exn + JSON) (st : St) : Response * St :=
  let body := body_of request_json in
  answered
    match body with
    | JNull => (inl (TypeError (en_read_of_null en "numbers")), st)
    | _ => generateVideos_unchecked en rt w (prop (Some body) "numbers") st
    end.

(** *** The task board *)

(** The statuses the board's query treats as running. *)
Definition RUNNING_STATUSES : list string :=
  ["生成中"; "任务已提交，等待处理..."; "生成完成，开始下载..."].

(** [refetchInterval] of the board's task query: [videoTasks] is [None]
    while the query has no data; the result [false] is [None]. *)
Definition refetchInterval (videoTasks : option (list VideoTask)) : option Z :=
  let running :=
    match videoTasks with
    | Some tasks =>
        existsb (fun task => includes RUNNING_STATUSES (status task)) tasks
    | None => false
    end in
  if running then Some 5000 else None.

(** [Math.round(a / b)] for integers [a] and [b > 0]: the nearest integer,
    a half rounding up. *)
Definition Math_round_div (a b : Z) : Z := (2 * a + b) / (2 * b).

(** What the board shows for one task:
    [task.status === '成功' ? 100 : task.progress ?? 0]. *)
Definition shown_progress (task : VideoTask) : Z :=
  if String.eqb (status task) "成功" then 100 else assign 0 (progress task).

(** [overallProgress] of the board. *)
Definition overallProgress (videoTasks : list VideoTask) : Z :=
  if (List.length videoTasks =? 0)%nat then 0
  else
    let total := fold_left (fun acc task => acc + shown_progress task)
                   videoTasks 0 in
    Math_round_div total (Z.of_nat (List.length videoTasks)).

(* ================================================================== *)
(** ** Vocabulary of the statements *)

(** What [Object.assign] leaves in one property of its target. *)
Definition merged {T : Type} (old : T) (new : option T) (result : T) : Prop :=
  match new with
  | Some v => result = v
  | None => result = old
  end.

(** A configured secret that is absent, or blank once trimmed. *)
Definition blank (rt : Runtime) (s : option string) : Prop :=
  match s with
  | Some v => rt_trim rt v = ""
  | None => True
  end.

(** The platform of a key-library entry, lowercased, is one of the aliases
    of the provider. *)
Definition names_kie (rt : Runtime) (item : KeyEntry) : Prop :=
  In (match k_platform item with
      | Some p => rt_toLowerCase rt p
      | None => ""
      end) kie_aliases.

(** Every effect on every path of a computation is recorded by an event
    that satisfies [P]. *)
Inductive emits {A : Type} (P : Event -> Prop) : Prog A -> Prop :=
| emits_ret (a : A) : emits P (Ret a)
| emits_throw (e : Exn) : emits P (Throw e)
| emits_do (X : Type) (e : Eff X) (k : X -> Prog A) :
    P (event_of e) -> (forall x, emits P (k x)) -> emits P (Do e k).

(** No path of a computation ends in a throw. *)
Fixpoint never_throws {A : Type} (m : Prog A) : Prop :=
  match m with
  | Ret _ => True
  | Throw _ => False
  | Do _ k => forall x, never_throws (k x)
  end.

Definition is_update (ev : Event) : bool :=
  match ev with
  | EvUpdate _ _ => true
  | _ => false
  end.

(** The events of one [fetchJson] call: attempts of its request, and the
    waits between them. *)
Definition fetch_event (req : Request) (ev : Event) : Prop :=
  ev = EvAxios req \/ exists ms, ev = EvSleep ms.

(** The events of [downloadVideo]. *)
Definition download_event (ev : Event) : Prop :=
  match ev with
  | EvMkdir _ | EvNow | EvFetch _ | EvArrayBuffer | EvWriteFile _ => True
  | _ => False
  end.

(** The task record a number designates: the first one carrying it. *)
Definition record_of (num : string) (st : St) : option VideoTask :=
  find (fun item => String.eqb (number item) num) (videoTasks (store st)).

(** The request of the submit call and of a poll. *)
Definition submit_request (rt : Runtime) (task : VideoTask) (key : string)
  : Request :=
  mkRequest GENERATE_URL "POST"
    (default_headers ++ [("Content-Type", "application/json"); auth_header key])
    (Some (payload_of rt task)) 900000.

Definition poll_request (pollUrl key : string) : Request :=
  mkRequest pollUrl "GET" (default_headers ++ [auth_header key]) None 900000.

(** The status updates of [processVideoTask]. *)
Definition started_patch : Patch :=
  with_progress 5 (with_errorMsg "" (with_status "生成中" no_fields)).

Definition failed_patch (msg : string) : Patch :=
  with_errorMsg msg (with_status "失败" no_fields).

Definition submitted_patch : Patch :=
  with_progress 15 (with_status "任务已提交，等待处理..." no_fields).

(** A poll response in which the loop sees neither success nor a provider
    error: [code] is not 200, or [successFlag] is not 1 and [errorMessage]
    is falsy. *)
Definition still_pending (pollData : JSON) : bool :=
  (negb (strict_eq_num (prop (Some pollData) "code") 200)
   || (let payloadData := nullish_or (prop (Some pollData) "data") (JObj []) in
       negb (strict_eq_num (prop (Some payloadData) "successFlag") 1)
       && negb (truthy (prop (Some payloadData) "errorMessage"))))%bool.

(** The statuses written by the store updates of a record of effects. *)
Definition statuses_written (tr : list Event) : list string :=
  flat_map (fun ev =>
              match ev with
              | EvUpdate _ patch =>
                  match p_status patch with
                  | Some s => [s]
                  | None => []
                  end
              | _ => []
              end) tr.

(** The statuses of polls [from + 1] to [from + n]. *)
Definition polling_statuses (from : Z) (n : nat) : list string :=
  map (fun i => polling_status (from + Z.of_nat i)) (seq 1 n).

Definition downloading_patch : Patch :=
  with_progress 95 (with_status "生成完成，开始下载..." no_fields).

(** A poll response in which the loop sees success ([code] is 200 and
    [successFlag] is 1), with a non-empty [resultUrls] whose first element
    is the string [u]. *)
Definition reports_success (pollData : JSON) (u : string) : Prop :=
  strict_eq_num (prop (Some pollData) "code") 200 = true
  /\ strict_eq_num
       (prop (Some (nullish_or (prop (Some pollData) "data") (JObj [])))
          "successFlag") 1 = true
  /\ exists rest,
       nullish_or
         (prop (prop (Some (nullish_or (prop (Some pollData) "data") (JObj [])))
                  "response") "resultUrls") (JArr [])
       = JArr (JStr u :: rest).

(** The record the success branch leaves: what [downloadVideo] returned
    and the first result URL. *)
Definition success_record (t' : VideoTask) (saved : Saved) (u : string) : Prop :=
  status t' = "成功"
  /\ progress t' = Some 100
  /\ localPath t' = Some (s_localPath saved)
  /\ actualFilename t' = Some (s_actualFilename saved)
  /\ remoteUrl t' = Some u
  /\ errorMsg t' = Some "".

(** The progress a recorded effect writes, if it writes one. *)
Definition written_progress (ev : Event) : option (option Z) :=
  match ev with
  | EvUpdate _ patch => p_progress patch
  | _ => None
  end.

Definition written_status (ev : Event) : option string :=
  match ev with
  | EvUpdate _ patch => p_status patch
  | _ => None
  end.

(** The progress values written along a record of effects, in order. *)
Definition progress_writes (tr : list Event) : list (option Z) :=
  flat_map (fun ev =>
              match written_progress ev with
              | Some v => [v]
              | None => []
              end) tr.

(** The progress values the pipeline has in its text. *)
Definition planned (n : Z) : Prop :=
  n = 5 \/ n = 15
  \/ (exists pollCount, 1 <= pollCount <= 120 /\ n = Z.min 90 (15 + pollCount * 2))
  \/ n = 95 \/ n = 100.

(** An update that records the failure status carries no progress. *)
Definition failure_keeps_progress (ev : Event) : Prop :=
  written_status ev = Some "失败" -> written_progress ev = None.

(** On every path of the computation, each progress value written is a
    planned one, is at least [lo] and at least the one written before it,
    and is not written together with the failure status. *)
Inductive mono {A : Type} : Z -> Prog A -> Prop :=
| mono_ret (lo : Z) (a : A) : mono lo (Ret a)
| mono_throw (lo : Z) (e : Exn) : mono lo (Throw e)
| mono_same (lo : Z) (X : Type) (e : Eff X) (k : X -> Prog A) :
    written_progress (event_of e) = None ->
    (forall x, mono lo (k x)) ->
    mono lo (Do e k)
| mono_rise (lo n : Z) (X : Type) (e : Eff X) (k : X -> Prog A) :
    written_progress (event_of e) = Some (Some n) ->
    written_status (event_of e) <> Some "失败" ->
    lo <= n -> planned n ->
    (forall x, mono n (k x)) ->
    mono lo (Do e k).

(** The task numbers of the pipelines started, in order. *)
Definition started (tr : list Event) : list string :=
  flat_map (fun ev =>
              match ev with
              | EvStart num => [num]
              | _ => []
              end) tr.

(** The task numbers of the pipelines that have settled, in order. *)
Definition settled_jobs (tr : list Event) : list string :=
  flat_map (fun ev =>
              match ev with
              | EvSettle num => [num]
              | _ => []
              end) tr.

(** The number of pipelines in flight after a record of effects, given the
    number in flight before it. *)
Fixpoint in_flight_after (inflight : nat) (tr : list Event) : nat :=
  match tr with
  | [] => inflight
  | EvStart _ :: rest => in_flight_after (S inflight) rest
  | EvSettle _ :: rest => in_flight_after (Nat.pred inflight) rest
  | _ :: rest => in_flight_after inflight rest
  end.

(** At no point of the record are more than [cap] pipelines in flight. *)
Fixpoint within_cap (cap inflight : nat) (tr : list Event) : Prop :=
  match tr with
  | [] => True
  | EvStart _ :: rest =>
      (S inflight <= cap)%nat /\ within_cap cap (S inflight) rest
  | EvSettle _ :: rest => within_cap cap (Nat.pred inflight) rest
  | _ :: rest => within_cap cap inflight rest
  end.

(** The requested numbers let a task through: the list is absent or empty,
    or it holds the task's number. *)
Definition requested (numbers : option (list string)) (t : VideoTask) : Prop :=
  match numbers with
  | Some (n :: ns) => In (number t) (n :: ns)
  | _ => True
  end.

(** The two statuses in which a pipeline leaves its task. *)
Definition is_terminal (s : string) : bool :=
  (String.eqb s "成功" || String.eqb s "失败")%bool.

(** Whether the status written last is a terminal one, after one more
    event. *)
Definition terminal_after (last : bool) (ev : Event) : bool :=
  match written_status ev with
  | Some s => is_terminal s
  | None => last
  end.

(** On every path of the computation that returns, the last status written
    is a terminal one; [last] tells whether that holds of the statuses
    written before the computation starts. *)
Inductive returns_terminal {A : Type} : bool -> Prog A -> Prop :=
| rt_ret (a : A) : returns_terminal true (Ret a)
| rt_throw (last : bool) (e : Exn) : returns_terminal last (Throw e)
| rt_do (last : bool) (X : Type) (e : Eff X) (k : X -> Prog A) :
    (forall x, returns_terminal (terminal_after last (event_of e)) (k x)) ->
    returns_terminal last (Do e k).

(** An event of an awaited operation, as opposed to the limiter's marks. *)
Definition is_effect (ev : Event) : Prop :=
  match ev with
  | EvStart _ | EvSettle _ => False
  | _ => True
  end.

Definition job_ok (job : Job) : Prop := never_throws (snd job).

(** The limiter between two turns: no more than [cap] jobs in flight, none
    waiting while a slot is free, no job that can reject, none rejected. *)
Definition pool_ok (cap : nat) (pool : Pool) : Prop :=
  (List.length (active pool) <= cap)%nat
  /\ (queue pool = [] \/ (cap <= List.length (active pool))%nat)
  /\ Forall job_ok (queue pool)
  /\ Forall job_ok (active pool)
  /\ rejection pool = None.

(** From [pool] with record [tr] the limiter has moved to [pool'] with
    record [tr']: the record has grown, the jobs started are those that
    left the queue, in order, and the cap was respected all along. *)
Definition advances (cap : nat) (pool : Pool) (tr : list Event)
  (pool' : Pool) (tr' : list Event) : Prop :=
  exists delta,
    tr' = (tr ++ delta)%list
    /\ (started delta ++ map fst (queue pool'))%list = map fst (queue pool)
    /\ within_cap cap (List.length (active pool)) delta
    /\ in_flight_after (List.length (active pool)) delta
       = List.length (active pool')
    /\ (List.length (started delta) + List.length (active pool)
        = List.length (settled_jobs delta) + List.length (active pool'))%nat
    /\ (List.length (queue pool') + List.length (active pool')
        <= List.length (queue pool) + List.length (active pool))%nat.

(** *** Vocabulary of the further properties *)

(** The waits recorded, in order. *)
Definition sleeps (tr : list Event) : list Z :=
  flat_map (fun ev =>
              match ev with
              | EvSleep ms => [ms]
              | _ => []
              end) tr.

(** The request [fetchJson] hands to axios. *)
Definition request_of (url : string) (config : AxiosConfig) (timeoutMs : Z)
  : Request :=
  mkRequest url (c_method config) (default_headers ++ c_headers config)
    (c_data config) timeoutMs.

(** [n] attempts of [req], numbered from [attempt], with a wait of
    [attempt * unit] milliseconds after each of them but the last. *)
Fixpoint retry_events (req : Request) (unit : Z) (attempt : Z) (n : nat)
  : list Event :=
  match n with
  | O => []
  | S O => [EvAxios req]
  | S n' =>
      EvAxios req :: EvSleep (attempt * unit)
      :: retry_events req unit (attempt + 1) n'
  end.

(** What the [try] block of one attempt ends with, given the answer of
    the transport: the data it returns, or the error its [catch] gets. *)
Definition caught (rt : Runtime) (t : Transport) : Exn + JSON :=
  match t with
  | Responded s d =>
      if validateStatus s then
        if 400 <=? s
        then inl (Error ("HTTP " ++ dec s ++ ": " ++ body_text rt d))
        else inr d
      else inl (mkExn true "AxiosError"
                  ("Request failed with status code " ++ dec s)
                  (Some "ERR_BAD_RESPONSE") (Some (s, d)))
  | AxiosFailure c r m => inl (mkExn true "AxiosError" m c r)
  | Crashed e => inl e
  end.

(** An answer after which [fetchJson] tries again when attempts are left:
    a connection reset, or any HTTP status from 400 on. *)
Definition transient (t : Transport) : bool :=
  match t with
  | Responded s _ => 400 <=? s
  | AxiosFailure (Some c) _ _ => String.eqb c "ECONNRESET"
  | _ => false
  end.

(** On every path, the computation makes at most [n] HTTP attempts. *)
Fixpoint calls_at_most {A : Type} (m : Prog A) (n : nat) {struct m} : Prop :=
  match m with
  | Ret _ | Throw _ => True
  | Do e k =>
      if is_attempt (event_of e) then
        match n with
        | O => False
        | S n' => forall x, calls_at_most (k x) n'
        end
      else forall x, calls_at_most (k x) n
  end.

(** The message the [catch] block of [processVideoTask] records:
    [error.message || String(error)]. *)
Definition error_text (error : Exn) : string :=
  if String.eqb (message error) "" then String_of_error error
  else message error.

(** The configuration of the submit call. *)
Definition submit_config (rt : Runtime) (task : VideoTask) (key : string)
  : AxiosConfig :=
  mkAxiosConfig "POST" [("Content-Type", "application/json"); auth_header key]
    (Some (payload_of rt task)).

(** The URL polled for the job a submit response names. *)
Definition pollUrl_of (rt : Runtime) (generateResponse : JSON) : string :=
  RECORD_URL ++ "?taskId="
  ++ rt_encodeURIComponent rt
       (js_String rt (prop (prop (Some generateResponse) "data") "taskId")).

(** A poll response in which the provider reports the error [m]: [code] is
    200, [successFlag] is not 1 and [errorMessage] is the non-empty string
    [m]. *)
Definition reports_error (pollData : JSON) (m : string) : Prop :=
  strict_eq_num (prop (Some pollData) "code") 200 = true
  /\ strict_eq_num
       (prop (Some (nullish_or (prop (Some pollData) "data") (JObj [])))
          "successFlag") 1 = false
  /\ prop (Some (nullish_or (prop (Some pollData) "data") (JObj [])))
       "errorMessage" = Some (JStr m)
  /\ m <> "".

(** A poll response that reports success ([code] 200, [successFlag] 1)
    with no result URL: [resultUrls] is absent, [null] or empty. *)
Definition reports_success_without_urls (pollData : JSON) : Prop :=
  strict_eq_num (prop (Some pollData) "code") 200 = true
  /\ strict_eq_num
       (prop (Some (nullish_or (prop (Some pollData) "data") (JObj [])))
          "successFlag") 1 = true
  /\ nullish_or
       (prop (prop (Some (nullish_or (prop (Some pollData) "data") (JObj [])))
                "response") "resultUrls") (JArr [])
     = JArr [].

Definition NO_URL_MESSAGE : string := "查询接口未返回视频链接".

(** The two tasks describe the same job: they agree on the number and on
    every field that goes into the request. *)
Definition same_job (t t' : VideoTask) : Prop :=
  number t' = number t
  /\ prompt t' = prompt t
  /\ imageUrls t' = imageUrls t
  /\ aspectRatio t' = aspectRatio t
  /\ watermark t' = watermark t
  /\ callbackUrl t' = callbackUrl t
  /\ seeds t' = seeds t
  /\ enableFallback t' = enableFallback t
  /\ enableTranslation t' = enableTranslation t.

(** A patch that names none of the fields of the job. *)
Definition state_patch (patch : Patch) : Prop :=
  p_number patch = None
  /\ p_prompt patch = None
  /\ p_imageUrls patch = None
  /\ p_aspectRatio patch = None
  /\ p_watermark patch = None
  /\ p_callbackUrl patch = None
  /\ p_seeds patch = None
  /\ p_enableFallback patch = None
  /\ p_enableTranslation patch = None.

(** A store update, if the event is one, is addressed to one of [nums]
    and carries a patch of the state fields. *)
Definition scoped_update (nums : list string) (ev : Event) : Prop :=
  match ev with
  | EvUpdate n patch => In n nums /\ state_patch patch
  | _ => True
  end.

(** From [data] to [data'] nothing has changed but the state of tasks
    numbered in [nums]: the settings and the key library are the same, the
    tasks are the same jobs in the same order, and a task with another
    number is the same record. *)
Definition changes_within (nums : list string) (data data' : AppData) : Prop :=
  apiSettings data' = apiSettings data
  /\ videoSettings data' = videoSettings data
  /\ keyLibrary data' = keyLibrary data
  /\ Forall2 (fun t t' => same_job t t' /\ (~ In (number t) nums -> t' = t))
       (videoTasks data) (videoTasks data').

(** On every path of the computation, every effect is recorded by an
    event that satisfies [P]. *)
Fixpoint always {A : Type} (P : Event -> Prop) (m : Prog A) : Prop :=
  match m with
  | Ret _ | Throw _ => True
  | Do e k => P (event_of e) /\ forall x, always P (k x)
  end.

(** One of the limiter's marks. *)
Definition is_mark (ev : Event) : Prop :=
  match ev with
  | EvStart _ | EvSettle _ => True
  | _ => False
  end.

(** The jobs of a limiter only perform effects that satisfy [P]. *)
Definition jobs_always (P : Event -> Prop) (jobs : list Job) : Prop :=
  Forall (fun job => always P (snd job)) jobs.

Definition pool_always (P : Event -> Prop) (pool : Pool) : Prop :=
  jobs_always P (queue pool) /\ jobs_always P (active pool).

(** The record of effects has grown from [st] to [st'], by events that
    satisfy [P] and by marks of the limiter. *)
Definition grows_by (P : Event -> Prop) (st st' : St) : Prop :=
  exists new,
    trace st' = (trace st ++ new)%list
    /\ Forall (fun ev => P ev \/ is_mark ev) new.

(** An HTTP attempt, if the event is one, is the submit request of the
    task or a poll of the record URL for some job id, with the key. *)
Definition provider_request (rt : Runtime) (task : VideoTask) (key : string)
  (ev : Event) : Prop :=
  match ev with
  | EvAxios req =>
      req = submit_request rt task key
      \/ exists id, req = poll_request (RECORD_URL ++ "?taskId=" ++ id) key
  | _ => True
  end.

(** The files written and the URLs fetched along a record of effects. *)
Definition writes (tr : list Event) : list string :=
  flat_map (fun ev =>
              match ev with
              | EvWriteFile file => [file]
              | _ => []
              end) tr.

Definition fetches (tr : list Event) : list string :=
  flat_map (fun ev =>
              match ev with
              | EvFetch url => [url]
              | _ => []
              end) tr.

(** A task the pipeline has left in the poll loop, or has not started, or
    has finished. *)
Definition polling_or_idle (t : VideoTask) : Prop :=
  (exists pollCount, status t = polling_status pollCount)
  \/ status t = "等待中"
  \/ is_terminal (status t) = true.

(* ------------------------------------------------------------------ *)
(** ** Vocabulary of the batch as a whole *)

(** The status with which a pipeline opens. *)
Definition is_opening (s : string) : bool := String.eqb s "生成中".

(** The number a store update is addressed to, when the status it writes
    satisfies [g]. *)
Definition status_mark (g : string -> bool) (ev : Event) : list string :=
  match ev with
  | EvUpdate n patch =>
      match p_status patch with
      | Some s => if g s then [n] else []
      | None => []
      end
  | _ => []
  end.

(** The task numbers to which a pipeline's opening status, [生成中], was
    written, and those to which a terminal status, [成功] or [失败], was
    written: one entry for each such update, in order. *)
Definition opened (tr : list Event) : list string :=
  flat_map (status_mark is_opening) tr.

Definition closed (tr : list Event) : list string :=
  flat_map (status_mark is_terminal) tr.

(** The work of a pipeline: an HTTP attempt, a wait, a step of a
    download. *)
Definition is_work (ev : Event) : bool :=
  match ev with
  | EvAxios _ | EvSleep _ | EvNow | EvMkdir _ | EvFetch _ | EvArrayBuffer
  | EvWriteFile _ => true
  | _ => false
  end.

(** Whenever work is done, some pipeline has written its opening status
    and not yet a terminal one. *)
Definition work_while_open (tr : list Event) : Prop :=
  forall n ev,
    nth_error tr n = Some ev ->
    is_work ev = true ->
    (List.length (closed (firstn n tr))
     < List.length (opened (firstn n tr)))%nat.

(** At every moment of the record, no more than [cap] pipelines have
    written their opening status and not yet a terminal one. *)
Definition pipelines_within (cap : nat) (tr : list Event) : Prop :=
  forall n,
    (List.length (opened (firstn n tr))
     <= List.length (closed (firstn n tr)) + cap)%nat.

(** The stages of a pipeline, told by its status updates: before the
    opening update, between the opening update and the terminal one, after
    the terminal one. *)
Inductive Phase : Type := NotOpened | InFlight | Closed.

(** The stage of the pipeline of task [num] after one more event of it;
    [None] when the pipeline of [num] has no such event at that stage: an
    update of another task or one that renumbers the task, an opening
    status anywhere but at the start, a status written before the opening
    one or after the terminal one, work (an HTTP attempt, a wait, a step
    of a download) done before the opening update or after the terminal
    one, a read of the store or of the environment. *)
Definition phase_step (num : string) (ph : Phase) (ev : Event)
  : option Phase :=
  match ev with
  | EvUpdate n patch =>
      if String.eqb n num then
        match p_number patch, p_status patch, ph with
        | Some _, _, _ => None
        | None, None, _ => Some ph
        | None, Some s, NotOpened =>
            if is_opening s then Some InFlight else None
        | None, Some s, InFlight =>
            if is_opening s then None
            else if is_terminal s then Some Closed
            else Some InFlight
        | None, Some _, Closed => None
        end
      else None
  | EvAxios _ | EvSleep _ | EvNow | EvMkdir _ | EvFetch _ | EvArrayBuffer
  | EvWriteFile _ =>
      match ph with
      | InFlight => Some InFlight
      | _ => None
      end
  | EvRead | EvEnv _ | EvStart _ | EvSettle _ => None
  end.

(** Started in state [s], the computation only performs effects [step]
    allows; every path that returns ends in a state that satisfies [R],
    every path that throws in one that satisfies [T]. *)
Fixpoint tracks {A S : Type} (step : S -> Event -> option S) (m : Prog A)
  (s : S) (R T : S -> Prop) {struct m} : Prop :=
  match m with
  | Ret _ => R s
  | Throw _ => T s
  | Do e k =>
      match step s (event_of e) with
      | Some s' => forall x, tracks step (k x) s' R T
      | None => False
      end
  end.

(** From stage [ph] on, [p] is the rest of a pipeline of task [num]: it
    goes through the remaining stages in order, never throws, and returns
    after the terminal update. *)
Definition follows (num : string) (ph : Phase) (p : Prog unit) : Prop :=
  tracks (phase_step num) p ph (fun ph' => ph' = Closed) (fun _ => False).

(** The stage between the opening update and the terminal one, and the
    stage after the terminal one. *)
Definition at_work (ph : Phase) : Prop := ph = InFlight.
Definition at_end (ph : Phase) : Prop := ph = Closed.

(** How much a record of effects weighs, each event weighing [wt]. *)
Definition weight (wt : Event -> nat) (tr : list Event) : nat :=
  list_sum (map wt tr).

(** An answer for every operation, to follow one path of a computation. *)
Definition default_answer {X : Type} (e : Eff X) : X :=
  match e in Eff X return X with
  | EReadAppData =>
      mkAppData (mkApiSettings None) (mkVideoSettings None "") [] []
  | EUpdateVideoTask _ _ => tt
  | EEnv _ => None
  | EAxios _ => Crashed (Error "")
  | ESleep _ => tt
  | ENow => 0
  | EMkdir _ => None
  | EFetch _ => inr 200
  | EArrayBuffer => inr []
  | EWriteFile _ _ => None
  end.

(** The weight of the effects still to come, along the path of the
    default answers. *)
Fixpoint debt {A : Type} (wt : Event -> nat) (m : Prog A) : nat :=
  match m with
  | Ret _ | Throw _ => 0%nat
  | Do e k => (wt (event_of e) + debt wt (k (default_answer e)))%nat
  end.

(** The computation never throws, and the effects to come weigh the same
    on every path. *)
Fixpoint uniform {A : Type} (wt : Event -> nat) (m : Prog A) : Prop :=
  match m with
  | Ret _ => True
  | Throw _ => False
  | Do e k =>
      forall x,
        uniform wt (k x)
        /\ debt wt (k x) = debt wt (k (default_answer e))
  end.

Definition jobs_debt (wt : Event -> nat) (jobs : list Job) : nat :=
  list_sum (map (fun job => debt wt (snd job)) jobs).

(** The weight of an event: what [measure] makes of the number it marks
    with a status that satisfies [g]. *)
Definition mark_weight (measure : list string -> nat) (g : string -> bool)
  (ev : Event) : nat :=
  measure (status_mark g ev).

(** Some effect of the computation satisfies [g], on every path. *)
Fixpoint surely {A : Type} (g : Event -> Prop) (m : Prog A) : Prop :=
  match m with
  | Ret _ | Throw _ => False
  | Do e k => g (event_of e) \/ forall x, surely g (k x)
  end.

(** An event of the pipeline of [task]: an update of the state of the
    record numbered like it, its submit request or a poll of the record
    URL, a wait, or a step of a download. *)
Definition pipeline_event (rt : Runtime) (task : VideoTask) (key : string)
  (ev : Event) : Prop :=
  match ev with
  | EvUpdate n patch => n = number task /\ state_patch patch
  | EvAxios req =>
      req = submit_request rt task key
      \/ exists id, req = poll_request (RECORD_URL ++ "?taskId=" ++ id) key
  | EvSleep _ | EvNow | EvMkdir _ | EvFetch _ | EvArrayBuffer
  | EvWriteFile _ => True
  | _ => False
  end.

(** Whether the opening update, and the terminal one, are still to come
    at a stage. *)
Definition opening_due (ph : Phase) : bool :=
  match ph with
  | NotOpened => true
  | _ => false
  end.

Definition closing_due (ph : Phase) : bool :=
  match ph with
  | Closed => false
  | _ => true
  end.

(** What the opening update of the pipeline of [num], and its terminal
    update, count for at a stage: [measure [num]] while the update is
    still to come. *)
Definition opening_share (measure : list string -> nat) (num : string)
  (ph : Phase) : nat :=
  if opening_due ph then measure [num] else 0%nat.

Definition closing_share (measure : list string -> nat) (num : string)
  (ph : Phase) : nat :=
  if closing_due ph then measure [num] else 0%nat.

(** The jobs are pipelines, each at some stage. *)
Definition jobs_follow (jobs : list Job) : Prop :=
  Forall (fun job => exists ph, follows (fst job) ph (snd job)) jobs.

(** The jobs are pipelines that have not opened yet. *)
Definition jobs_fresh (jobs : list Job) : Prop :=
  Forall (fun job => follows (fst job) NotOpened (snd job)) jobs.

(** The record of [num] is there; it is terminal, or a pipeline of [num]
    that has not closed is among the jobs, all of which are pipelines. *)
Definition settled_or_pending (num : string) (jobs : list Job) (st : St)
  : Prop :=
  jobs_follow jobs
  /\ (exists t, record_of num st = Some t)
  /\ ((exists t, record_of num st = Some t /\ is_terminal (status t) = true)
      \/ exists job ph,
           In job jobs /\ fst job = num /\ ph <> Closed
           /\ follows num ph (snd job)).

(** One for every opening update, and one for every terminal update. *)
Definition opens : Event -> nat := mark_weight (@List.length string) is_opening.
Definition closes : Event -> nat :=
  mark_weight (@List.length string) is_terminal.

(** No pipeline of the queue has opened, the jobs in flight are no more
    than [cap], and since [base] the pipelines that have opened and not
    closed have been among them, and so has every pipeline at work. *)
Definition in_bounds (cap : nat) (base : list Event)
  (waiting running : list Job) (st : St) : Prop :=
  jobs_fresh waiting
  /\ jobs_follow running
  /\ (List.length running <= cap)%nat
  /\ exists new,
       trace st = (base ++ new)%list
       /\ pipelines_within cap new
       /\ work_while_open new
       /\ (List.length (opened new) + jobs_debt opens running)%nat
          = (List.length (closed new) + jobs_debt closes running)%nat.

(** The jobs a batch hands to the limiter: the pipeline of every target,
    labelled with the target's number. *)
Definition pipelines (rt : Runtime) (key saveDir : string)
  (targets : list VideoTask) : list Job :=
  map (fun task => (number task, processVideoTask rt task key saveDir)) targets.


(* ================================================================== *)
(** ** A small runtime and world to evaluate on

    The runtime below handles ASCII text and [https] URLs, leaves
    [encodeURIComponent] as the identity and prints a date as its number of
    milliseconds; it is used to evaluate the definitions, the statements
    hold for every runtime. *)

Module Sample.

Definition is_space (c : ascii) : bool :=
  let n := nat_of_ascii c in
  ((n =? 32) || ((9 <=? n) && (n <=? 13)))%nat%bool.

Fixpoint trim_start (s : string) : string :=
  match s with
  | String c rest => if is_space c then trim_start rest else s
  | EmptyString => EmptyString
  end.

Fixpoint rev_string (acc s : string) : string :=
  match s with
  | String c rest => rev_string (String c acc) rest
  | EmptyString => acc
  end.

Definition trim (s : string) : string :=
  rev_string "" (trim_start (rev_string "" (trim_start s))).

Definition lower_ascii (c : ascii) : ascii :=
  let n := nat_of_ascii c in
  if ((65 <=? n) && (n <=? 90))%nat%bool then ascii_of_nat (n + 32) else c.

Fixpoint toLowerCase (s : string) : string :=
  match s with
  | String c rest => String (lower_ascii c) (toLowerCase rest)
  | EmptyString => EmptyString
  end.

Definition quote : string := String (ascii_of_nat 34) EmptyString.

Fixpoint stringify (v : JSON) : string :=
  match v with
  | JNull => "null"
  | JBool true => "true"
  | JBool false => "false"
  | JNum n => dec n
  | JStr s => quote ++ s ++ quote
  | JArr items =>
      "[" ++ (fix elements (l : list JSON) : string :=
                match l with
                | [] => ""
                | [x] => stringify x
                | x :: rest => stringify x ++ "," ++ elements rest
                end) items ++ "]"
  | JObj props =>
      "{" ++ (fix members (l : list (string * JSON)) : string :=
                match l with
                | [] => ""
                | [(k, x)] => quote ++ k ++ quote ++ ":" ++ stringify x
                | (k, x) :: rest =>
                    quote ++ k ++ quote ++ ":" ++ stringify x ++ "," ++ members rest
                end) props ++ "}"
  end.

Definition to_String (v : option JSON) : string :=
  match v with
  | None => "undefined"
  | Some (JStr s) => s
  | Some (JObj _) => "[object Object]"
  | Some x => stringify x
  end.

(** Everything from the first [/] on. *)
Fixpoint from_slash (s : string) : string :=
  match s with
  | String c rest => if Ascii.eqb c "/" then s else from_slash rest
  | EmptyString => EmptyString
  end.

(** The text after the last [/]. *)
Fixpoint basename_from (acc s : string) : string :=
  match s with
  | String c rest =>
      if Ascii.eqb c "/" then basename_from "" rest
      else basename_from (acc ++ String c EmptyString) rest
  | EmptyString => acc
  end.

Definition pathname (url : string) : Exn + string :=
  if String.prefix "https://" url then
    inr (from_slash (String.substring 8 (String.length url) url))
  else inl (mkExn false "TypeError" "Invalid URL" None None).

Fixpoint join (parts : list string) : string :=
  match parts with
  | [] => "."
  | [x] => x
  | x :: rest => x ++ "/" ++ join rest
  end.

Definition relative (from to : string) : string :=
  if String.prefix (from ++ "/") to
  then String.substring (String.length from + 1) (String.length to) to
  else to.

Definition runtime : Runtime :=
  mkRuntime trim toLowerCase stringify to_String (fun s => s)
    (fun _ => None) dec "/app"
    (String.prefix "/") join (basename_from "") relative join pathname.

(** A world in which the transport answers [answer n] to the [n]-th HTTP
    attempt and everything else succeeds. *)
Definition world (answer : nat -> Request -> Transport) (schedule : list nat)
  : World :=
  mkWorld (fun _ => None) answer (fun tick => 1700000000000 + Z.of_nat tick)
    (fun _ _ => None) (fun _ _ => inr 200) (fun _ => inr [])
    (fun _ _ _ => None) schedule.

Definition task (num st : string) : VideoTask :=
  mkVideoTask num "a cat on a skateboard" None None None None None None None
    st None None None None None "2025-01-01T00:00:00.000Z".

Definition app (fallback : list (string * KeyEntry)) (tasks : list VideoTask)
  : AppData :=
  mkAppData (mkApiSettings (Some 2)) (mkVideoSettings None "") fallback tasks.

Definition kie_key : list (string * KeyEntry) :=
  [("k1", mkKeyEntry "main" (Some "KIE.ai") "secret")].

Definition booted (data : AppData) : St := mkSt data [].

(** Provider responses. *)
Definition submit_ok : JSON :=
  JObj [("code", JNum 200); ("data", JObj [("taskId", JStr "T1")])].

Definition submit_without_id : JSON :=
  JObj [("code", JNum 422); ("msg", JStr "prompt rejected")].

Definition poll_pending : JSON :=
  JObj [("code", JNum 200); ("data", JObj [("successFlag", JNum 0)])].

Definition poll_success : JSON :=
  JObj [("code", JNum 200);
        ("data",
         JObj [("successFlag", JNum 1);
               ("response",
                JObj [("resultUrls",
                       JArr [JStr "https://cdn.example/v/a.mp4"])])])].

(** The provider never finishes the job. *)
Definition never_ready (n : nat) (req : Request) : Transport :=
  if String.eqb (r_method req) "POST" then Responded 200 submit_ok
  else Responded 200 poll_pending.

(** The provider finishes the job after [pending] polls. *)
Definition ready_after (pending : nat) (n : nat) (req : Request) : Transport :=
  match n with
  | O => Responded 200 submit_ok
  | S polls => if (polls <? pending)%nat then Responded 200 poll_pending
               else Responded 200 poll_success
  end.

Definition quiet : World := world never_ready [].

(** The provider accepts every job and reports it done at the first poll. *)
Definition prompt_provider (n : nat) (req : Request) : Transport :=
  if String.eqb (r_method req) "POST" then Responded 200 submit_ok
  else Responded 200 poll_success.

(** The provider answers the submit call without a task id. *)
Definition refusing : World :=
  world (fun _ _ => Responded 200 submit_without_id) [].

Definition waiting_store : St :=
  booted (app kie_key [task "1" "等待中"; task "2" "成功"; task "3" "失败"]).

Definition idle_store : St :=
  booted (app [] [task "2" "成功"]).

Definition keyless_store : St :=
  booted (app [] [task "1" "等待中"]).

End Sample.

(* ================================================================== *)
(** ** Faults to evaluate on *)

Module Faults.

Import Sample.

(** Every attempt times out. *)
Definition timing_out (n : nat) (req : Request) : Transport :=
  AxiosFailure (Some "ECONNABORTED") None "timeout of 900000ms exceeded".

(** The host cannot be resolved. *)
Definition unreachable (n : nat) (req : Request) : Transport :=
  AxiosFailure (Some "ENOTFOUND") None "getaddrinfo ENOTFOUND api.kie.ai".

(** Every connection is reset. *)
Definition resetting (n : nat) (req : Request) : Transport :=
  AxiosFailure (Some "ECONNRESET") None "socket hang up".

(** The server answers 503 to every attempt. *)
Definition overloaded (n : nat) (req : Request) : Transport :=
  Responded 503 (JStr "busy").

(** A reset, then a 502, then the data. *)
Definition flaky (n : nat) (req : Request) : Transport :=
  match n with
  | O => AxiosFailure (Some "ECONNRESET") None "socket hang up"
  | S O => Responded 502 (JStr "bad gateway")
  | _ => Responded 200 poll_pending
  end.

Definition poll_error : JSON :=
  JObj [("code", JNum 200);
        ("data",
         JObj [("successFlag", JNum 3);
               ("errorMessage", JStr "content policy violation")])].

Definition poll_success_without_urls : JSON :=
  JObj [("code", JNum 200);
        ("data",
         JObj [("successFlag", JNum 1);
               ("response", JObj [("resultUrls", JArr [])])])].

(** The provider accepts the job, answers [pending] polls with a pending
    response and the next one with [final]. *)
Definition ends_with (pending : nat) (final : JSON) (n : nat) (req : Request)
  : Transport :=
  match n with
  | O => Responded 200 submit_ok
  | S polls => if (polls <? pending)%nat then Responded 200 poll_pending
               else Responded 200 final
  end.

(** A world in which the video host answers every download with
    [http_status]. *)
Definition hosting (answer : nat -> Request -> Transport) (http_status : Z)
  : World :=
  mkWorld (fun _ => None) answer (fun tick => 1700000000000 + Z.of_nat tick)
    (fun _ _ => None) (fun _ _ => inr http_status) (fun _ => inr [])
    (fun _ _ _ => None) [].

(** A world in which the save directory cannot be created. *)
Definition read_only_disk : World :=
  mkWorld (fun _ => None) never_ready (fun tick => 1700000000000 + Z.of_nat tick)
    (fun _ _ => Some (mkExn false "Error" "EACCES: permission denied, mkdir"
                        (Some "EACCES") None))
    (fun _ _ => inr 200) (fun _ => inr []) (fun _ _ _ => None) [].

Definition video_url : string := "https://cdn.example/v/a.mp4".

End Faults.

(* ================================================================== *)
(** ** Batches to evaluate on *)

Module Batches.

Import Sample.



(** The provider reports every job done at the first poll; jobs are
    completed in the given order. *)
Definition prompt_world (schedule : list nat) : World :=
  world prompt_provider schedule.

End Batches.

(* ================================================================== *)
(** * Properties *)

(** ** Laws of the computation type *)

Section Laws.

Variable rt : Runtime.
Variable w : World.

Lemma run_bind (A B : Type) (m : Prog A) (f : A -> Prog B) (st : St) :
  run rt w (bind m f) st =
  match run rt w m st with
  | (inl e, st') => (inl e, st')
  | (inr a, st') => run rt w (f a) st'
  end.
Proof.
  revert st; induction m as [a | e | X e k IH]; intros st; simpl; auto.
  destruct (handle rt w e st) as [x st1]; apply IH.
Qed.

Lemma run_try_catch (A : Type) (m : Prog A) (h : Exn -> Prog A) (st : St) :
  run rt w (try_catch m h) st =
  match run rt w m st with
  | (inl e, st') => run rt w (h e) st'
  | (inr a, st') => (inr a, st')
  end.
Proof.
  revert st; induction m as [a | e | X e k IH]; intros st; simpl; auto.
  destruct (handle rt w e st) as [x st1]; apply IH.
Qed.

Lemma run_await (X : Type) (e : Eff X) (st : St) :
  run rt w (await e) st = (inr (fst (handle rt w e st)), snd (handle rt w e st)).
Proof.
  unfold await; simpl; destruct (handle rt w e st); reflexivity.
Qed.

Lemma run_updateVideoTask (num : string) (patch : Patch) (st : St) :
  run rt w (updateVideoTask num patch) st =
  (inr tt,
   mkSt (updateVideoTask_mutator
           (rt_toISOString rt (w_clock w (List.length (trace st))))
           num patch (store st))
        (trace st ++ [EvUpdate num patch])).
Proof. reflexivity. Qed.

End Laws.

(** ** The store mutation *)

Lemma find_number_none (num : string) (tasks : list VideoTask) :
  (forall item, In item tasks -> number item <> num) ->
  find (fun item => String.eqb (number item) num) tasks = None.
Proof.
  induction tasks as [| t rest IH]; intros H; simpl; auto.
  destruct (String.eqb_spec (number t) num) as [E | _].
  - exfalso; apply (H t); simpl; auto.
  - apply IH; intros item Hi; apply H; simpl; auto.
Qed.

Lemma find_number_split (num : string) (before after : list VideoTask)
  (task : VideoTask) :
  (forall item, In item before -> number item <> num) ->
  number task = num ->
  find (fun item => String.eqb (number item) num) (before ++ task :: after)
  = Some task.
Proof.
  induction before as [| b rest IH]; intros Hb Ht; simpl.
  - rewrite <- Ht, String.eqb_refl; reflexivity.
  - destruct (String.eqb_spec (number b) num) as [E | _].
    + exfalso; apply (Hb b); simpl; auto.
    + apply IH; auto; intros item Hi; apply Hb; simpl; auto.
Qed.

Lemma mutate_first_split (num : string) (f : VideoTask -> VideoTask)
  (before after : list VideoTask) (task : VideoTask) :
  (forall item, In item before -> number item <> num) ->
  number task = num ->
  mutate_first (fun item => String.eqb (number item) num) f
    (before ++ task :: after)
  = (before ++ f task :: after)%list.
Proof.
  induction before as [| b rest IH]; intros Hb Ht; simpl.
  - rewrite <- Ht, String.eqb_refl; reflexivity.
  - destruct (String.eqb_spec (number b) num) as [E | _].
    + exfalso; apply (Hb b); simpl; auto.
    + f_equal; apply IH; auto; intros item Hi; apply Hb; simpl; auto.
Qed.

Lemma merged_assign (T : Type) (old : T) (new : option T) :
  merged old new (assign old new).
Proof. destruct new; reflexivity. Qed.

(** C8.  [updateVideoTask(number, patch)] raises no error and changes the
    persisted document in one place only: the first task whose number is
    the given one receives the properties present in the patch and a fresh
    [updatedAt]; its other properties, every other task, and the settings
    and key library stay as they were.  When no task has that number the
    task collection is unchanged. *)
Theorem updateVideoTask_frame (rt : Runtime) (w : World) (num : string)
  (patch : Patch) (st : St) :
  let now := rt_toISOString rt (w_clock w (List.length (trace st))) in
  let outcome := run rt w (updateVideoTask num patch) st in
  fst outcome = inr tt
  /\ apiSettings (store (snd outcome)) = apiSettings (store st)
  /\ videoSettings (store (snd outcome)) = videoSettings (store st)
  /\ keyLibrary (store (snd outcome)) = keyLibrary (store st)
  /\ ((forall item, In item (videoTasks (store st)) -> number item <> num) ->
      videoTasks (store (snd outcome)) = videoTasks (store st))
  /\ (forall before task after,
        videoTasks (store st) = (before ++ task :: after)%list ->
        (forall item, In item before -> number item <> num) ->
        number task = num ->
        videoTasks (store (snd outcome))
        = (before ++ Object_assign task patch now :: after)%list)
  /\ (forall task,
        let task' := Object_assign task patch now in
        merged (number task) (p_number patch) (number task')
        /\ merged (prompt task) (p_prompt patch) (prompt task')
        /\ merged (imageUrls task) (p_imageUrls patch) (imageUrls task')
        /\ merged (aspectRatio task) (p_aspectRatio patch) (aspectRatio task')
        /\ merged (watermark task) (p_watermark patch) (watermark task')
        /\ merged (callbackUrl task) (p_callbackUrl patch) (callbackUrl task')
        /\ merged (seeds task) (p_seeds patch) (seeds task')
        /\ merged (enableFallback task) (p_enableFallback patch)
                  (enableFallback task')
        /\ merged (enableTranslation task) (p_enableTranslation patch)
                  (enableTranslation task')
        /\ merged (status task) (p_status patch) (status task')
        /\ merged (progress task) (p_progress patch) (progress task')
        /\ merged (errorMsg task) (p_errorMsg patch) (errorMsg task')
        /\ merged (localPath task) (p_localPath patch) (localPath task')
        /\ merged (remoteUrl task) (p_remoteUrl patch) (remoteUrl task')
        /\ merged (actualFilename task) (p_actualFilename patch)
                  (actualFilename task')
        /\ updatedAt task' = now).
Proof.
  intros now outcome.
  subst outcome; rewrite run_updateVideoTask; simpl; fold now.
  unfold updateVideoTask_mutator.
  split; [reflexivity |].
  repeat split.
  - destruct (find _ _); reflexivity.
  - destruct (find _ _); reflexivity.
  - destruct (find _ _); reflexivity.
  - intros Hnone; rewrite (find_number_none _ _ Hnone); reflexivity.
  - intros before task after Hsplit Hbefore Htask.
    rewrite Hsplit, (find_number_split _ _ after _ Hbefore Htask); simpl.
    apply mutate_first_split; assumption.
  - apply merged_assign.
  - apply merged_assign.
  - apply merged_assign.
  - apply merged_assign.
  - apply merged_assign.
  - apply merged_assign.
  - apply merged_assign.
  - apply merged_assign.
  - apply merged_assign.
  - apply merged_assign.
  - apply merged_assign.
  - apply merged_assign.
  - apply merged_assign.
  - apply merged_assign.
  - apply merged_assign.
Qed.

(** ** The retry loop of [fetchJson] *)

Lemma fetchJson_from_step (rt : Runtime) (remaining : nat) (attempt : Z)
  (lastError : option Exn) (url : string) (config : AxiosConfig)
  (timeoutMs retries : Z) :
  fetchJson_from rt (S remaining) attempt lastError url config timeoutMs retries
  = bind (fetchJson_attempt rt url config timeoutMs retries attempt)
      (fun ctl =>
         match ctl with
         | Returned data => Ret data
         | Continue error =>
             fetchJson_from rt remaining (attempt + 1) (Some error)
               url config timeoutMs retries
         end).
Proof. reflexivity. Qed.

Lemma run_axios (rt : Runtime) (w : World) (req : Request) (st : St) :
  run rt w (axios req) st =
  (match w_transport w (attempts (trace st)) req with
   | Responded s d =>
       if validateStatus s then inr (s, d)
       else inl (mkExn true "AxiosError"
                   ("Request failed with status code " ++ dec s)
                   (Some "ERR_BAD_RESPONSE") (Some (s, d)))
   | AxiosFailure c r m => inl (mkExn true "AxiosError" m c r)
   | Crashed e => inl e
   end,
   mkSt (store st) (trace st ++ [EvAxios req])).
Proof.
  unfold axios; rewrite run_bind, run_await.
  cbn [handle fst snd event_of].
  destruct (w_transport w (attempts (trace st)) req) as [s d | c r m | e];
    try reflexivity.
  destruct (validateStatus s); reflexivity.
Qed.

(** C5.  What the code does with a 4xx answer: the error built in the
    [try] block is caught by the loop's own [catch], which treats it like
    any non-axios error.  On the first of three attempts [fetchJson] does
    not fail: it waits one second and goes on with the second attempt,
    keeping the [HTTP status: body] error only as [lastError]. *)
Theorem fetchJson_retries_client_error (rt : Runtime) (w : World) (st : St)
  (url : string) (config : AxiosConfig) (timeoutMs : Z) (s : Z) (d : JSON) :
  let req := mkRequest url (c_method config)
               (default_headers ++ c_headers config) (c_data config) timeoutMs in
  let error := Error ("HTTP " ++ dec s ++ ": " ++ body_text rt d) in
  400 <= s < 500 ->
  w_transport w (attempts (trace st)) req = Responded s d ->
  run rt w (fetchJson rt url config timeoutMs 3) st =
  run rt w (fetchJson_from rt 2 2 (Some error) url config timeoutMs 3)
    (mkSt (store st) (trace st ++ [EvAxios req; EvSleep 1000])).
Proof.
  intros req error Hs Hw.
  unfold fetchJson; rewrite fetchJson_from_step, run_bind.
  unfold fetchJson_attempt; rewrite run_try_catch, run_bind, run_axios.
  fold req; rewrite Hw.
  unfold validateStatus.
  replace (s <? 500) with true by (symmetry; apply Z.ltb_lt; lia).
  cbn [fst snd].
  replace (400 <=? s) with true by (symmetry; apply Z.leb_le; lia).
  cbn [run].
  unfold fetchJson_catch, Error at 1; cbn [isAxiosError].
  change (1 <? Z.of_nat 3) with true; cbn iota.
  unfold sleep; rewrite run_bind, run_await.
  cbn [handle fst snd event_of run trace store].
  rewrite <- app_assoc; reflexivity.
Qed.

(** A 4xx answer followed by a good one: the call returns the data of the
    second attempt. *)
Example fetchJson_client_error_then_data :
  let w := Sample.world
             (fun n _ => match n with
                         | O => Responded 404 (JStr "not found")
                         | S _ => Responded 200 Sample.poll_pending
                         end) [] in
  let outcome := run Sample.runtime w
                   (fetchJson Sample.runtime RECORD_URL
                      (mkAxiosConfig "GET" [] None) 900000 3)
                   Sample.idle_store in
  fst outcome = inr Sample.poll_pending
  /\ attempts (trace (snd outcome)) = 2%nat.
Proof. split; reflexivity. Qed.

(** Three 4xx answers: three attempts, two waits, then the error of the
    last answer. *)
Example fetchJson_client_error_three_times :
  let w := Sample.world (fun _ _ => Responded 404 (JStr "not found")) [] in
  let outcome := run Sample.runtime w
                   (fetchJson Sample.runtime RECORD_URL
                      (mkAxiosConfig "GET" [] None) 900000 3)
                   Sample.idle_store in
  fst outcome = inl (Error "HTTP 404: not found")
  /\ map (fun ev => match ev with
                    | EvAxios _ => "attempt"
                    | EvSleep ms => dec ms
                    | _ => ""
                    end) (trace (snd outcome))
     = ["attempt"; "1000"; "attempt"; "2000"; "attempt"].
Proof. split; reflexivity. Qed.

(** ** Credential resolution *)

Lemma find_no_match (T : Type) (test : T -> bool) (l : list T) :
  (forall x, In x l -> test x = false) -> find test l = None.
Proof.
  induction l as [| y rest IH]; intros H; simpl; auto.
  rewrite (H y) by (simpl; auto).
  apply IH; intros x Hx; apply H; simpl; auto.
Qed.

Lemma find_first_match (T : Type) (test : T -> bool) (before after : list T)
  (x : T) :
  (forall y, In y before -> test y = false) ->
  test x = true ->
  find test (before ++ x :: after) = Some x.
Proof.
  induction before as [| b rest IH]; intros Hb Hx; simpl.
  - rewrite Hx; reflexivity.
  - rewrite (Hb b) by (simpl; auto).
    apply IH; auto; intros y Hy; apply Hb; simpl; auto.
Qed.

Lemma is_kie_entry_spec (rt : Runtime) (item : KeyEntry) :
  is_kie_entry rt item = true <-> names_kie rt item.
Proof.
  unfold is_kie_entry, names_kie; rewrite existsb_exists; split.
  - intros [alias [Hin Heq]]; apply String.eqb_eq in Heq; subst; assumption.
  - intros Hin; eexists; split; [exact Hin | apply String.eqb_refl].
Qed.

Lemma is_kie_entry_false (rt : Runtime) (item : KeyEntry) :
  ~ names_kie rt item -> is_kie_entry rt item = false.
Proof.
  intros H; destruct (is_kie_entry rt item) eqn:E; auto.
  apply is_kie_entry_spec in E; contradiction.
Qed.

Lemma trimmed_nonblank_blank (rt : Runtime) (s : option string) :
  blank rt s -> trimmed_nonblank rt s = false.
Proof.
  destruct s as [v |]; simpl; auto.
  intros ->; reflexivity.
Qed.

Lemma trimmed_nonblank_present (rt : Runtime) (v : string) :
  rt_trim rt v <> "" -> trimmed_nonblank rt (Some v) = true.
Proof.
  intros H; simpl.
  destruct (String.eqb_spec (rt_trim rt v) ""); [contradiction | reflexivity].
Qed.

Lemma run_pickVideoApiKey (rt : Runtime) (w : World) (data : AppData) (st : St) :
  run rt w (pickVideoApiKey rt data) st =
  (if trimmed_nonblank rt (w_env w "KIE_API_KEY") then
     inr (mkPickedKey (rt_trim rt (assign "" (w_env w "KIE_API_KEY")))
            "environment")
   else if trimmed_nonblank rt (vs_apiKey (videoSettings data)) then
     inr (mkPickedKey (rt_trim rt (assign "" (vs_apiKey (videoSettings data))))
            "videoSettings")
   else
     match find (is_kie_entry rt) (Object_values (keyLibrary data)) with
     | Some candidate => inr (mkPickedKey (k_apiKey candidate) (k_name candidate))
     | None => inl (Error "未配置 KIE.AI 的 API 密钥")
     end,
   mkSt (store st) (trace st ++ [EvEnv "KIE_API_KEY"])).
Proof.
  unfold pickVideoApiKey; rewrite run_bind, run_await.
  cbn [handle fst snd event_of].
  destruct (trimmed_nonblank rt (w_env w "KIE_API_KEY")); [reflexivity |].
  destruct (trimmed_nonblank rt (vs_apiKey (videoSettings data)));
    [reflexivity |].
  destruct (find (is_kie_entry rt) (Object_values (keyLibrary data)));
    reflexivity.
Qed.

(** C3.  [pickVideoApiKey] takes the key from the environment value
    [KIE_API_KEY] when it is not blank after trimming; otherwise from
    [videoSettings.apiKey] when that is not blank after trimming; otherwise
    from the first key-library entry whose lowercased platform is one of
    [kie.ai], [kie], [kei], [kieai]; otherwise it throws.  When it throws,
    [generateVideos] leaves the store as it was, and, having reached the
    credential lookup, aborts with that error before any update or HTTP
    attempt. *)
Theorem pickVideoApiKey_priority (rt : Runtime) (w : World)
  (numbers : option (list string)) (st : St) :
  let data := store st in
  let envKey := w_env w "KIE_API_KEY" in
  let settingsKey := vs_apiKey (videoSettings data) in
  let picked := fun st1 => fst (run rt w (pickVideoApiKey rt data) st1) in
  let missing := Error "未配置 KIE.AI 的 API 密钥" in
  (forall st1 v,
      envKey = Some v -> rt_trim rt v <> "" ->
      picked st1 = inr (mkPickedKey (rt_trim rt v) "environment"))
  /\ (forall st1 v,
        blank rt envKey ->
        settingsKey = Some v -> rt_trim rt v <> "" ->
        picked st1 = inr (mkPickedKey (rt_trim rt v) "videoSettings"))
  /\ (forall st1 before candidate after,
        blank rt envKey -> blank rt settingsKey ->
        Object_values (keyLibrary data) = (before ++ candidate :: after)%list ->
        (forall item, In item before -> ~ names_kie rt item) ->
        names_kie rt candidate ->
        picked st1 = inr (mkPickedKey (k_apiKey candidate) (k_name candidate)))
  /\ (blank rt envKey -> blank rt settingsKey ->
      (forall item, In item (Object_values (keyLibrary data)) ->
                    ~ names_kie rt item) ->
      (forall st1, picked st1 = inl missing)
      /\ store (snd (generateVideos rt w numbers st)) = store st
      /\ (targets_of numbers (videoTasks data) <> [] ->
          fst (generateVideos rt w numbers st) = inl missing
          /\ trace (snd (generateVideos rt w numbers st))
             = (trace st ++ [EvRead; EvEnv "KIE_API_KEY"])%list)).
Proof.
  intros data envKey settingsKey picked missing.
  subst picked; cbv beta.
  repeat split.
  - intros st1 v Henv Hv; rewrite run_pickVideoApiKey; cbn [fst].
    fold envKey; rewrite Henv, (trimmed_nonblank_present rt v Hv); reflexivity.
  - intros st1 v Henv Hset Hv; rewrite run_pickVideoApiKey; cbn [fst].
    fold envKey; rewrite (trimmed_nonblank_blank rt envKey Henv).
    fold settingsKey; rewrite Hset, (trimmed_nonblank_present rt v Hv).
    reflexivity.
  - intros st1 before candidate after Henv Hset Hsplit Hbefore Hcand.
    rewrite run_pickVideoApiKey; cbn [fst].
    fold envKey; rewrite (trimmed_nonblank_blank rt envKey Henv).
    fold settingsKey; rewrite (trimmed_nonblank_blank rt settingsKey Hset).
    rewrite Hsplit, (find_first_match _ (is_kie_entry rt) before after candidate).
    + reflexivity.
    + intros y Hy; apply is_kie_entry_false; auto.
    + apply is_kie_entry_spec; assumption.
  - intros st1; rewrite run_pickVideoApiKey; cbn [fst].
    fold envKey; rewrite (trimmed_nonblank_blank rt envKey H).
    fold settingsKey; rewrite (trimmed_nonblank_blank rt settingsKey H0).
    rewrite find_no_match; [reflexivity |].
    intros x Hx; apply is_kie_entry_false; auto.
  - unfold generateVideos; cbn [handle event_of].
    destruct (targets_of numbers (videoTasks (store st))); [reflexivity |].
    rewrite run_pickVideoApiKey.
    fold envKey; rewrite (trimmed_nonblank_blank rt envKey H).
    fold data settingsKey; rewrite (trimmed_nonblank_blank rt settingsKey H0).
    rewrite find_no_match; [reflexivity |].
    intros x Hx; apply is_kie_entry_false; auto.
  - unfold generateVideos; cbn [handle event_of].
    fold data.
    destruct (targets_of numbers (videoTasks data)); [contradiction |].
    rewrite run_pickVideoApiKey.
    fold envKey; rewrite (trimmed_nonblank_blank rt envKey H).
    fold settingsKey; rewrite (trimmed_nonblank_blank rt settingsKey H0).
    rewrite find_no_match; [reflexivity |].
    intros x Hx; apply is_kie_entry_false; auto.
  - unfold generateVideos; cbn [handle event_of].
    fold data.
    destruct (targets_of numbers (videoTasks data)); [contradiction |].
    rewrite run_pickVideoApiKey.
    fold envKey; rewrite (trimmed_nonblank_blank rt envKey H).
    fold settingsKey; rewrite (trimmed_nonblank_blank rt settingsKey H0).
    rewrite find_no_match.
    + cbn [snd trace]; rewrite <- app_assoc; reflexivity.
    + intros x Hx; apply is_kie_entry_false; auto.
Qed.

(** ** Events of a computation *)

Lemma emits_weaken (A : Type) (P Q : Event -> Prop) (m : Prog A) :
  (forall ev, P ev -> Q ev) -> emits P m -> emits Q m.
Proof.
  intros HPQ H; induction H as [a | e | X e k Hev Hk IH]; constructor; auto.
Qed.

Lemma emits_bind (A B : Type) (P : Event -> Prop) (m : Prog A)
  (f : A -> Prog B) :
  emits P m -> (forall a, emits P (f a)) -> emits P (bind m f).
Proof.
  intros Hm Hf; induction Hm as [a | e | X e k Hev Hk IH]; simpl; auto.
  - constructor.
  - constructor; auto.
Qed.

Lemma emits_try_catch (A : Type) (P : Event -> Prop) (m : Prog A)
  (h : Exn -> Prog A) :
  emits P m -> (forall e, emits P (h e)) -> emits P (try_catch m h).
Proof.
  intros Hm Hh; induction Hm as [a | e | X e k Hev Hk IH]; simpl; auto.
  - constructor.
  - constructor; auto.
Qed.

Lemma emits_await (X : Type) (P : Event -> Prop) (e : Eff X) :
  P (event_of e) -> emits P (await e).
Proof. intros H; constructor; [assumption | intros x; constructor]. Qed.

Lemma handle_trace (rt : Runtime) (w : World) (X : Type) (e : Eff X) (st : St) :
  trace (snd (handle rt w e st)) = (trace st ++ [event_of e])%list.
Proof. destruct e; reflexivity. Qed.

Lemma handle_store_quiet (rt : Runtime) (w : World) (X : Type) (e : Eff X)
  (st : St) :
  is_update (event_of e) = false -> store (snd (handle rt w e st)) = store st.
Proof. destruct e; simpl; intros H; try reflexivity; discriminate. Qed.

(** A run appends to the record of effects, and what it appends is what
    the computation emits. *)
Lemma run_emits (rt : Runtime) (w : World) (A : Type) (P : Event -> Prop)
  (m : Prog A) :
  emits P m ->
  forall st, exists new,
    trace (snd (run rt w m st)) = (trace st ++ new)%list /\ Forall P new.
Proof.
  intros H; induction H as [a | e | X e k Hev Hk IH]; intros st; simpl.
  - exists []; rewrite app_nil_r; auto.
  - exists []; rewrite app_nil_r; auto.
  - destruct (handle rt w e st) as [x st1] eqn:E.
    destruct (IH x st1) as [new [Htr Hall]].
    exists (event_of e :: new); split.
    + rewrite Htr.
      replace st1 with (snd (handle rt w e st)) by (rewrite E; reflexivity).
      rewrite handle_trace, <- app_assoc; reflexivity.
    + constructor; assumption.
Qed.

(** A computation that makes no store update leaves the store alone. *)
Lemma run_quiet_store (rt : Runtime) (w : World) (A : Type) (m : Prog A) :
  emits (fun ev => is_update ev = false) m ->
  forall st, store (snd (run rt w m st)) = store st.
Proof.
  intros H; induction H as [a | e | X e k Hev Hk IH]; intros st; simpl; auto.
  destruct (handle rt w e st) as [x st1] eqn:E.
  rewrite IH.
  replace st1 with (snd (handle rt w e st)) by (rewrite E; reflexivity).
  apply handle_store_quiet; assumption.
Qed.

Lemma fetchJson_catch_emits (rt : Runtime) (req : Request)
  (timeoutMs retries attempt : Z) (error : Exn) :
  emits (fetch_event req) (fetchJson_catch rt timeoutMs retries attempt error).
Proof.
  assert (Hsleep : forall ms (c : Ctl JSON),
             emits (fetch_event req) (bind (sleep ms) (fun _ => Ret c))).
  { intros ms c; apply emits_bind.
    - apply emits_await; right; eexists; reflexivity.
    - intros _; constructor. }
  unfold fetchJson_catch.
  destruct (isAxiosError error).
  - destruct (code_is error "ECONNABORTED"); [constructor |].
    destruct (code_is error "ECONNRESET").
    + destruct (attempt <? retries); [apply Hsleep | constructor].
    + destruct (_ && _)%bool; [apply Hsleep |].
      destruct (response error) as [[s data] |]; constructor.
  - destruct (attempt <? retries); [apply Hsleep | constructor].
Qed.

Lemma fetchJson_attempt_emits (rt : Runtime) (url : string)
  (config : AxiosConfig) (timeoutMs retries attempt : Z) :
  emits (fetch_event (mkRequest url (c_method config)
                        (default_headers ++ c_headers config)
                        (c_data config) timeoutMs))
        (fetchJson_attempt rt url config timeoutMs retries attempt).
Proof.
  unfold fetchJson_attempt.
  apply emits_try_catch; [| intros e; apply fetchJson_catch_emits].
  apply emits_bind.
  - unfold axios; apply emits_bind.
    + apply emits_await; left; reflexivity.
    + intros [s d | c r m | e]; try constructor.
      destruct (validateStatus s); constructor.
  - intros resp; destruct (400 <=? fst resp); constructor.
Qed.

Lemma fetchJson_from_emits (rt : Runtime) (url : string) (config : AxiosConfig)
  (timeoutMs retries : Z) (remaining : nat) :
  forall attempt lastError,
    emits (fetch_event (mkRequest url (c_method config)
                          (default_headers ++ c_headers config)
                          (c_data config) timeoutMs))
          (fetchJson_from rt remaining attempt lastError url config
             timeoutMs retries).
Proof.
  induction remaining as [| n IH]; intros attempt lastError.
  - constructor.
  - rewrite fetchJson_from_step; apply emits_bind.
    + apply fetchJson_attempt_emits.
    + intros [data | error]; [constructor | apply IH].
Qed.

Lemma fetchJson_emits (rt : Runtime) (url : string) (config : AxiosConfig)
  (timeoutMs : Z) (retries : nat) :
  emits (fetch_event (mkRequest url (c_method config)
                        (default_headers ++ c_headers config)
                        (c_data config) timeoutMs))
        (fetchJson rt url config timeoutMs retries).
Proof. apply fetchJson_from_emits. Qed.

Lemma downloadVideo_emits (rt : Runtime) (url num saveDir : string) :
  emits download_event (downloadVideo rt url num saveDir).
Proof.
  assert (Hnow : forall f : Z -> string,
             emits download_event (bind (await ENow) (fun t => Ret (f t)))).
  { intros f; apply emits_bind;
      [apply emits_await; exact I | intros t; constructor]. }
  unfold downloadVideo.
  apply emits_bind.
  { unfold ensureDir; apply emits_bind;
      [apply emits_await; exact I | intros [e |]; constructor]. }
  intros _; apply emits_bind.
  { destruct (rt_URL_pathname rt url); constructor. }
  intros pathname; apply emits_bind.
  { destruct (String.eqb pathname ""); [apply Hnow | constructor]. }
  intros arg; apply emits_bind.
  { destruct (String.eqb (rt_basename rt arg) ""); [apply Hnow | constructor]. }
  intros baseName; apply emits_bind; [apply emits_await; exact I |].
  intros timestamp; apply emits_bind; [apply emits_await; exact I |].
  intros fetched; apply emits_bind.
  { destruct fetched; constructor. }
  intros http_status.
  destruct (negb (http_ok http_status)); [constructor |].
  apply emits_bind; [apply emits_await; exact I |].
  intros body; apply emits_bind.
  { destruct body; constructor. }
  intros buffer; apply emits_bind; [apply emits_await; exact I |].
  intros [e |]; constructor.
Qed.

(** ** The task record along a pipeline *)

Lemma find_mutate_first (test : VideoTask -> bool) (f : VideoTask -> VideoTask)
  (tasks : list VideoTask) (t : VideoTask) :
  find test tasks = Some t ->
  test (f t) = true ->
  find test (mutate_first test f tasks) = Some (f t).
Proof.
  induction tasks as [| x rest IH]; simpl; [discriminate |].
  destruct (test x) eqn:E; intros Hfind Hf.
  - injection Hfind as ->; simpl; rewrite Hf; reflexivity.
  - simpl; rewrite E; auto.
Qed.

Lemma record_after_update (rt : Runtime) (w : World) (num : string)
  (patch : Patch) (st : St) (t : VideoTask) :
  p_number patch = None ->
  record_of num st = Some t ->
  record_of num (snd (run rt w (updateVideoTask num patch) st))
  = Some (Object_assign t patch
            (rt_toISOString rt (w_clock w (List.length (trace st))))).
Proof.
  intros Hp Hrec; rewrite run_updateVideoTask; cbn [snd].
  unfold record_of, updateVideoTask_mutator in *; cbn [store].
  rewrite Hrec; cbn [videoTasks].
  apply (find_mutate_first
           (fun item => String.eqb (number item) num)
           (fun task =>
              Object_assign task patch
                (rt_toISOString rt (w_clock w (List.length (trace st))))));
    [assumption |].
  cbn [Object_assign number]; rewrite Hp; cbn [assign].
  apply find_some in Hrec; tauto.
Qed.

Lemma fetch_event_quiet (req : Request) (ev : Event) :
  fetch_event req ev -> is_update ev = false.
Proof. intros [-> | [ms ->]]; reflexivity. Qed.

Lemma download_event_quiet (ev : Event) :
  download_event ev -> is_update ev = false.
Proof. destruct ev; simpl; tauto. Qed.

(** What a [fetchJson] call does to the machine, whatever it returns. *)
Lemma run_fetchJson_effect (rt : Runtime) (w : World) (url : string)
  (config : AxiosConfig) (timeoutMs : Z) (retries : nat) (st : St) :
  let st' := snd (run rt w (fetchJson rt url config timeoutMs retries) st) in
  store st' = store st
  /\ exists new,
       trace st' = (trace st ++ new)%list
       /\ Forall (fetch_event (mkRequest url (c_method config)
                                 (default_headers ++ c_headers config)
                                 (c_data config) timeoutMs)) new.
Proof.
  intros st'; subst st'; split.
  - apply run_quiet_store.
    eapply emits_weaken; [| apply fetchJson_emits].
    apply fetch_event_quiet.
  - apply run_emits, fetchJson_emits.
Qed.

Lemma run_downloadVideo_effect (rt : Runtime) (w : World)
  (url num saveDir : string) (st : St) :
  let st' := snd (run rt w (downloadVideo rt url num saveDir) st) in
  store st' = store st
  /\ exists new,
       trace st' = (trace st ++ new)%list /\ Forall download_event new.
Proof.
  intros st'; subst st'; split.
  - apply run_quiet_store.
    eapply emits_weaken; [| apply downloadVideo_emits].
    apply download_event_quiet.
  - apply run_emits, downloadVideo_emits.
Qed.

Lemma record_of_store (num : string) (st st' : St) :
  store st' = store st -> record_of num st' = record_of num st.
Proof. unfold record_of; intros ->; reflexivity. Qed.

Lemma no_taskId_message_nonempty (body : string) :
  String.eqb (NO_TASKID_PREFIX ++ body) "" = false.
Proof. reflexivity. Qed.

(** C6.  When the submit call returns a response in which [data.taskId] is
    missing (or falsy), the pipeline writes the failure at once: its store
    updates are the initial one and the failure, the record ends with
    status [失败] and an [errorMsg] made of the fixed prefix and the first
    500 characters of the serialized response, every HTTP attempt of the
    run is an attempt of the submit request, and nothing is thrown. *)
Theorem missing_taskId_fails (rt : Runtime) (w : World) (task : VideoTask)
  (key saveDir : string) (st : St) (t0 : VideoTask) (resp : JSON) (st2 : St) :
  record_of (number task) st = Some t0 ->
  run rt w
    (fetchJson rt GENERATE_URL
       (mkAxiosConfig "POST"
          [("Content-Type", "application/json"); auth_header key]
          (Some (payload_of rt task)))
       900000 default_retries)
    (snd (run rt w (updateVideoTask (number task) started_patch) st))
  = (inr resp, st2) ->
  truthy (prop (prop (Some resp) "data") "taskId") = false ->
  let outcome := run rt w (processVideoTask rt task key saveDir) st in
  let msg := NO_TASKID_PREFIX ++ slice0 500 (rt_JSON_stringify rt resp) in
  fst outcome = inr tt
  /\ (exists t',
         record_of (number task) (snd outcome) = Some t'
         /\ status t' = "失败" /\ errorMsg t' = Some msg)
  /\ (exists submit_events,
         trace (snd outcome)
         = (trace st ++ [EvUpdate (number task) started_patch]
              ++ submit_events
              ++ [EvUpdate (number task) (failed_patch msg)])%list
         /\ Forall (fetch_event (submit_request rt task key)) submit_events).
Proof.
  intros Hrec Hsubmit Hid outcome msg.
  pose proof (run_fetchJson_effect rt w GENERATE_URL
                (mkAxiosConfig "POST"
                   [("Content-Type", "application/json"); auth_header key]
                   (Some (payload_of rt task)))
                900000 default_retries
                (snd (run rt w (updateVideoTask (number task) started_patch) st)))
    as Heff.
  rewrite Hsubmit in Heff; cbn [snd] in Heff.
  destruct Heff as [Hstore [events [Htrace Hevents]]].
  assert (Hrun : outcome =
                 run rt w (processVideoTask_catch task (Error msg)) st2).
  { subst outcome; unfold processVideoTask.
    rewrite run_bind.
    change (with_progress 5 (with_errorMsg "" (with_status "生成中" no_fields)))
      with started_patch.
    rewrite run_updateVideoTask in *; cbn [snd] in Hsubmit.
    rewrite run_try_catch; unfold processVideoTask_try; rewrite run_bind.
    rewrite Hsubmit, Hid; reflexivity. }
  rewrite Hrun; unfold processVideoTask_catch.
  cbn [Error message]; fold msg.
  replace (String.eqb msg "") with false
    by (symmetry; apply no_taskId_message_nonempty).
  change (with_errorMsg msg (with_status "失败" no_fields)) with (failed_patch msg).
  assert (Hrec1 : exists t1, record_of (number task) st2 = Some t1).
  { rewrite (record_of_store _ _ _ Hstore).
    rewrite (record_after_update rt w _ _ _ t0);
      [eexists; reflexivity | reflexivity | assumption]. }
  destruct Hrec1 as [t1 Hrec1].
  split; [reflexivity | split].
  - eexists; split.
    + apply (record_after_update rt w _ _ _ t1); [reflexivity | assumption].
    + split; reflexivity.
  - exists events; split; [| exact Hevents].
    rewrite run_updateVideoTask; cbn [snd trace].
    rewrite Htrace, run_updateVideoTask; cbn [snd trace].
    rewrite <- !app_assoc; reflexivity.
Qed.

(** ** No path of [processVideoTask] throws *)

Lemma never_throws_try_catch (A : Type) (m : Prog A) (h : Exn -> Prog A) :
  (forall e, never_throws (h e)) -> never_throws (try_catch m h).
Proof.
  intros Hh; induction m as [a | e | X e k IH]; simpl; auto.
Qed.

Lemma processVideoTask_never_throws (rt : Runtime) (task : VideoTask)
  (key saveDir : string) :
  never_throws (processVideoTask rt task key saveDir).
Proof.
  unfold processVideoTask, updateVideoTask, await; cbn [bind never_throws].
  intros _.
  apply never_throws_try_catch; intros e.
  unfold processVideoTask_catch, updateVideoTask, await; cbn [never_throws].
  intros x; exact I.
Qed.

Lemma run_never_throws (rt : Runtime) (w : World) (A : Type) (m : Prog A) :
  never_throws m -> forall st, exists a, fst (run rt w m st) = inr a.
Proof.
  induction m as [a | e | X e k IH]; intros H st; simpl in *.
  - exists a; reflexivity.
  - contradiction.
  - destruct (handle rt w e st) as [x st1]; apply IH, H.
Qed.

(** ** The poll loop *)

Lemma statuses_written_app (tr new : list Event) :
  statuses_written (tr ++ new) = (statuses_written tr ++ statuses_written new)%list.
Proof. apply flat_map_app. Qed.

Lemma statuses_written_quiet (new : list Event) :
  Forall (fun ev => is_update ev = false) new -> statuses_written new = [].
Proof.
  induction 1 as [| ev rest Hev _ IH]; simpl; auto.
  destruct ev; try discriminate; assumption.
Qed.

Lemma polling_statuses_step (from : Z) (n : nat) :
  polling_statuses from (S n)
  = polling_status (from + 1) :: polling_statuses (from + 1) n.
Proof.
  unfold polling_statuses; cbn [seq map]; f_equal.
  rewrite <- seq_shift, map_map; apply map_ext; intros i.
  f_equal; lia.
Qed.

Lemma poll_loop_step (rt : Runtime) (remaining : nat) (pollCount : Z)
  (task : VideoTask) (key saveDir pollUrl : string) :
  poll_loop rt (S remaining) pollCount task key saveDir pollUrl
  = bind (sleep pollInterval) (fun _ =>
      bind (fetchJson rt pollUrl (mkAxiosConfig "GET" [auth_header key] None)
              900000 default_retries)
        (fun pollData =>
           if negb (strict_eq_num (prop (Some pollData) "code") 200) then
             bind (updateVideoTask (number task)
                     (with_status (polling_status (pollCount + 1)) no_fields))
               (fun _ => poll_loop rt remaining (pollCount + 1) task key
                           saveDir pollUrl)
           else
             let payloadData :=
               nullish_or (prop (Some pollData) "data") (JObj []) in
             if strict_eq_num (prop (Some payloadData) "successFlag") 1 then
               bind (updateVideoTask (number task)
                       (with_progress 95
                          (with_status "生成完成，开始下载..." no_fields)))
                 (fun _ =>
                    let resultUrls :=
                      nullish_or
                        (prop (prop (Some payloadData) "response") "resultUrls")
                        (JArr []) in
                    if negb (truthy (prop (Some resultUrls) "length")) then
                      Throw (Error "查询接口未返回视频链接")
                    else
                      let first := js_String rt (prop (Some resultUrls) "0") in
                      bind (downloadVideo rt first (number task) saveDir)
                        (fun saved =>
                           bind (updateVideoTask (number task)
                                   (with_errorMsg ""
                                      (with_actualFilename (s_actualFilename saved)
                                         (with_remoteUrl first
                                            (with_localPath (s_localPath saved)
                                               (with_progress 100
                                                  (with_status "成功" no_fields)))))))
                             (fun _ => Ret tt)))
             else if truthy (prop (Some payloadData) "errorMessage") then
               Throw (Error (js_String rt (prop (Some payloadData) "errorMessage")))
             else
               bind (updateVideoTask (number task)
                       (with_progress (Z.min 90 (15 + (pollCount + 1) * 2))
                          (with_status (polling_status (pollCount + 1)) no_fields)))
                 (fun _ => poll_loop rt remaining (pollCount + 1) task key
                             saveDir pollUrl))).
Proof. reflexivity. Qed.

Lemma run_sleep (rt : Runtime) (w : World) (ms : Z) (st : St) :
  run rt w (sleep ms) st = (inr tt, mkSt (store st) (trace st ++ [EvSleep ms])).
Proof. reflexivity. Qed.

Section Exhaustion.

Variable rt : Runtime.
Variable w : World.
Variable task : VideoTask.
Variables key saveDir pollUrl : string.

Hypothesis polls_pending :
  forall st1, exists d,
    fst (run rt w (fetchJson rt pollUrl (mkAxiosConfig "GET" [auth_header key] None)
                     900000 default_retries) st1) = inr d
    /\ still_pending d = true.

Lemma poll_loop_exhausts (remaining : nat) :
  forall pollCount st t,
    record_of (number task) st = Some t ->
    let out := run rt w (poll_loop rt remaining pollCount task key saveDir pollUrl) st in
    fst out = inl (Error TIMEOUT_MESSAGE)
    /\ (exists t', record_of (number task) (snd out) = Some t')
    /\ statuses_written (trace (snd out))
       = (statuses_written (trace st) ++ polling_statuses pollCount remaining)%list.
Proof.
  induction remaining as [| n IH]; intros pollCount st t Hrec out; subst out.
  - cbn [poll_loop run fst snd]; split; [reflexivity | split].
    + eexists; eassumption.
    + unfold polling_statuses; cbn [seq map]; rewrite app_nil_r; reflexivity.
  - rewrite poll_loop_step, run_bind, run_sleep, run_bind.
    set (st_s := mkSt (store st) (trace st ++ [EvSleep pollInterval])).
    destruct (polls_pending st_s) as [d [Hd Hpending]].
    pose proof (run_fetchJson_effect rt w pollUrl
                  (mkAxiosConfig "GET" [auth_header key] None)
                  900000 default_retries st_s) as [Hstore [new [Htrace Hnew]]].
    destruct (run rt w (fetchJson rt pollUrl _ 900000 default_retries) st_s)
      as [res st_f].
    cbn [fst snd] in Hd, Hstore, Htrace; subst res.
    assert (Hrec_f : record_of (number task) st_f = Some t).
    { rewrite (record_of_store _ _ _ Hstore); exact Hrec. }
    assert (Hstat_f : statuses_written (trace st_f) = statuses_written (trace st)).
    { rewrite Htrace; subst st_s; cbn [trace].
      rewrite !statuses_written_app, (statuses_written_quiet new).
      - cbn; rewrite !app_nil_r; reflexivity.
      - eapply Forall_impl; [| exact Hnew]; apply fetch_event_quiet. }
    assert (Hnext : forall patch,
               p_number patch = None ->
               p_status patch = Some (polling_status (pollCount + 1)) ->
               let out :=
                 run rt w
                   (bind (updateVideoTask (number task) patch)
                      (fun _ => poll_loop rt n (pollCount + 1) task key saveDir
                                  pollUrl)) st_f in
               fst out = inl (Error TIMEOUT_MESSAGE)
               /\ (exists t', record_of (number task) (snd out) = Some t')
               /\ statuses_written (trace (snd out))
                  = (statuses_written (trace st)
                       ++ polling_statuses pollCount (S n))%list).
    { intros patch Hnum Hstatus out; subst out.
      rewrite run_bind.
      pose proof (record_after_update rt w (number task) patch st_f t Hnum Hrec_f)
        as Hrec_u.
      rewrite run_updateVideoTask in *; cbn [snd] in Hrec_u.
      destruct (IH (pollCount + 1) _ _ Hrec_u) as [Hres [Hrec' Hstat]].
      split; [exact Hres | split; [exact Hrec' |]].
      rewrite Hstat; cbn [trace].
      rewrite statuses_written_app, Hstat_f, polling_statuses_step.
      cbn [statuses_written flat_map]; rewrite Hstatus.
      rewrite <- app_assoc; reflexivity. }
    unfold still_pending in Hpending.
    destruct (negb (strict_eq_num (prop (Some d) "code") 200)).
    + apply Hnext; reflexivity.
    + cbn [orb] in Hpending; cbv zeta in Hpending |- *.
      apply andb_prop in Hpending; destruct Hpending as [Hflag Hmsg].
      apply negb_true_iff in Hflag, Hmsg.
      rewrite Hflag, Hmsg.
      apply Hnext; reflexivity.
Qed.

End Exhaustion.

(** C2.  When the submit call yields a task id and each of the polls
    yields a response in which the loop sees neither success nor a
    provider error, the pipeline polls 120 times (statuses [轮询 1] to
    [轮询 120]), then records status [失败] with the polling-timeout
    message as [errorMsg]; the run returns normally, and no path of
    [processVideoTask] throws at all. *)
Theorem poll_timeout_fails (rt : Runtime) (w : World) (task : VideoTask)
  (key saveDir : string) (st : St) (t0 : VideoTask) :
  record_of (number task) st = Some t0 ->
  (forall st1, exists resp,
      fst (run rt w
             (fetchJson rt GENERATE_URL
                (mkAxiosConfig "POST"
                   [("Content-Type", "application/json"); auth_header key]
                   (Some (payload_of rt task)))
                900000 default_retries) st1) = inr resp
      /\ truthy (prop (prop (Some resp) "data") "taskId") = true) ->
  (forall pollUrl st1, exists d,
      fst (run rt w
             (fetchJson rt pollUrl (mkAxiosConfig "GET" [auth_header key] None)
                900000 default_retries) st1) = inr d
      /\ still_pending d = true) ->
  let outcome := run rt w (processVideoTask rt task key saveDir) st in
  fst outcome = inr tt
  /\ (exists t',
         record_of (number task) (snd outcome) = Some t'
         /\ status t' = "失败" /\ errorMsg t' = Some TIMEOUT_MESSAGE)
  /\ statuses_written (trace (snd outcome))
     = (statuses_written (trace st)
          ++ ["生成中"; "任务已提交，等待处理..."]
          ++ polling_statuses 0 maxPollTimes ++ ["失败"])%list
  /\ never_throws (processVideoTask rt task key saveDir).
Proof.
  intros Hrec Hsubmit Hpolls outcome; subst outcome.
  assert (Hgoal :
    let outcome := run rt w (processVideoTask rt task key saveDir) st in
    fst outcome = inr tt
    /\ (exists t',
           record_of (number task) (snd outcome) = Some t'
           /\ status t' = "失败" /\ errorMsg t' = Some TIMEOUT_MESSAGE)
    /\ statuses_written (trace (snd outcome))
       = (statuses_written (trace st)
            ++ ["生成中"; "任务已提交，等待处理..."]
            ++ polling_statuses 0 maxPollTimes ++ ["失败"])%list).
  { intros outcome; subst outcome.
    unfold processVideoTask.
    rewrite run_bind.
    pose proof (record_after_update rt w (number task)
                  (with_progress 5 (with_errorMsg "" (with_status "生成中" no_fields)))
                  st t0 eq_refl Hrec) as Hrec1.
    rewrite run_updateVideoTask in *; cbn [snd] in Hrec1.
    set (st1 := mkSt _ (trace st ++ [EvUpdate (number task) _])) in *.
    rewrite run_try_catch; unfold processVideoTask_try; rewrite run_bind.
    destruct (Hsubmit st1) as [resp [Hresp Hid]].
    pose proof (run_fetchJson_effect rt w GENERATE_URL
                  (mkAxiosConfig "POST"
                     [("Content-Type", "application/json"); auth_header key]
                     (Some (payload_of rt task)))
                  900000 default_retries st1) as [Hstore [new [Htrace Hnew]]].
    destruct (run rt w (fetchJson rt GENERATE_URL _ 900000 default_retries) st1)
      as [res st2].
    cbn [fst snd] in Hresp, Hstore, Htrace; subst res.
    rewrite Hid; cbn [negb].
    rewrite run_bind.
    assert (Hrec2 : record_of (number task) st2 = Some _)
      by (rewrite (record_of_store _ _ _ Hstore); exact Hrec1).
    pose proof (record_after_update rt w (number task)
                  (with_progress 15
                     (with_status "任务已提交，等待处理..." no_fields))
                  st2 _ eq_refl Hrec2) as Hrec3.
    rewrite run_updateVideoTask in *; cbn [snd] in Hrec3.
    set (st3 := mkSt _ (trace st2 ++ [EvUpdate (number task) _])) in *.
    cbv zeta.
    match goal with
    | |- context [poll_loop rt maxPollTimes 0 task key saveDir ?u] =>
        set (pollUrl := u);
        destruct (poll_loop_exhausts rt w task key saveDir pollUrl
                    (Hpolls pollUrl) maxPollTimes 0 st3 _ Hrec3)
          as [Hres [[t4 Hrec4] Hstat]]
    end.
    destruct (run rt w (poll_loop rt maxPollTimes 0 task key saveDir pollUrl) st3)
      as [res st4].
    cbn [fst snd] in Hres, Hrec4, Hstat; subst res.
    unfold processVideoTask_catch, Error; cbn [message].
    change (String.eqb TIMEOUT_MESSAGE "") with false; cbn iota.
    pose proof (record_after_update rt w (number task)
                  (with_errorMsg TIMEOUT_MESSAGE (with_status "失败" no_fields))
                  st4 t4 eq_refl Hrec4) as Hrec5.
    rewrite run_updateVideoTask in *; cbn [fst snd] in Hrec5 |- *.
    split; [reflexivity | split].
    - eexists; split; [exact Hrec5 | split; reflexivity].
    - cbn [trace]; rewrite statuses_written_app, Hstat.
      subst st3; cbn [trace]; rewrite statuses_written_app, Htrace.
      rewrite statuses_written_app, (statuses_written_quiet new).
      + subst st1; cbn [trace]; rewrite statuses_written_app.
        cbn [statuses_written flat_map p_status with_status with_progress
               with_errorMsg no_fields].
        rewrite !app_nil_r, <- !app_assoc; reflexivity.
      + eapply Forall_impl; [| exact Hnew]; apply fetch_event_quiet. }
  destruct Hgoal as [Hres [Hrecord Hstatuses]].
  split; [exact Hres | split; [exact Hrecord | split; [exact Hstatuses |]]].
  apply processVideoTask_never_throws.
Qed.

(** ** A request answered at the first attempt *)

Lemma attempts_app (tr new : list Event) :
  attempts (tr ++ new) = (attempts tr + attempts new)%nat.
Proof. unfold attempts; rewrite filter_app, length_app; reflexivity. Qed.

Lemma fetchJson_first_try (rt : Runtime) (w : World) (url : string)
  (config : AxiosConfig) (timeoutMs : Z) (n : nat) (st : St) (s : Z) (d : JSON) :
  let req := mkRequest url (c_method config)
               (default_headers ++ c_headers config) (c_data config) timeoutMs in
  w_transport w (attempts (trace st)) req = Responded s d ->
  s < 400 ->
  run rt w (fetchJson rt url config timeoutMs (S n)) st
  = (inr d, mkSt (store st) (trace st ++ [EvAxios req])).
Proof.
  intros req Hw Hs.
  unfold fetchJson; rewrite fetchJson_from_step, run_bind.
  unfold fetchJson_attempt; rewrite run_try_catch, run_bind, run_axios.
  fold req; rewrite Hw.
  unfold validateStatus.
  replace (s <? 500) with true by (symmetry; apply Z.ltb_lt; lia).
  cbn [fst snd].
  replace (400 <=? s) with false by (symmetry; apply Z.leb_gt; lia).
  reflexivity.
Qed.

Section Success.

Variable rt : Runtime.
Variable w : World.
Variable task : VideoTask.
Variables key saveDir pollUrl : string.

Lemma poll_loop_skips_pending (N : nat) :
  forall remaining pollCount st t,
    record_of (number task) st = Some t ->
    (forall i, (i < N)%nat ->
       exists s d,
         w_transport w (attempts (trace st) + i) (poll_request pollUrl key)
         = Responded s d
         /\ s < 400 /\ still_pending d = true) ->
    exists st' t',
      run rt w (poll_loop rt (N + remaining) pollCount task key saveDir pollUrl) st
      = run rt w (poll_loop rt remaining (pollCount + Z.of_nat N) task key
                    saveDir pollUrl) st'
      /\ record_of (number task) st' = Some t'
      /\ attempts (trace st') = (attempts (trace st) + N)%nat.
Proof.
  induction N as [| N IH]; intros remaining pollCount st t Hrec Hpend.
  - exists st, t; cbn [Nat.add Z.of_nat].
    rewrite Z.add_0_r, Nat.add_0_r; auto.
  - cbn [Nat.add]; rewrite poll_loop_step, run_bind, run_sleep, run_bind.
    set (st_s := mkSt (store st) (trace st ++ [EvSleep pollInterval])).
    destruct (Hpend O (Nat.lt_0_succ N)) as [s [d [Hw [Hs Hpending]]]].
    rewrite Nat.add_0_r in Hw.
    unfold default_retries.
    rewrite (fetchJson_first_try rt w pollUrl
               (mkAxiosConfig "GET" [auth_header key] None) 900000 2 st_s s d)
      by (try assumption; subst st_s; cbn [trace];
          rewrite attempts_app, Nat.add_0_r; exact Hw).
    set (st_f := mkSt (store st_s) _).
    assert (Hrec_f : record_of (number task) st_f = Some t) by exact Hrec.
    assert (Hatt_f : attempts (trace st_f) = S (attempts (trace st))).
    { subst st_f st_s; cbn [trace]; rewrite !attempts_app; cbn; lia. }
    assert (Hnext : forall patch,
               p_number patch = None ->
               exists st' t',
                 run rt w
                   (bind (updateVideoTask (number task) patch)
                      (fun _ => poll_loop rt (N + remaining) (pollCount + 1)
                                  task key saveDir pollUrl)) st_f
                 = run rt w (poll_loop rt remaining
                               (pollCount + Z.of_nat (S N)) task key saveDir
                               pollUrl) st'
                 /\ record_of (number task) st' = Some t'
                 /\ attempts (trace st') = (attempts (trace st) + S N)%nat).
    { intros patch Hnum.
      rewrite run_bind.
      pose proof (record_after_update rt w (number task) patch st_f t Hnum Hrec_f)
        as Hrec_u.
      rewrite run_updateVideoTask in *; cbn [snd] in Hrec_u.
      set (st_u := mkSt _ (trace st_f ++ [EvUpdate (number task) patch])) in *.
      assert (Hatt_u : attempts (trace st_u) = S (attempts (trace st))).
      { subst st_u; cbn [trace]; rewrite attempts_app, Hatt_f; cbn; lia. }
      destruct (IH remaining (pollCount + 1) st_u _ Hrec_u) as [st' [t' [Hrun [Hr Ha]]]].
      { intros i Hi; destruct (Hpend (S i)) as [s' [d' H']]; [lia |].
        exists s', d'; rewrite Hatt_u.
        replace (S (attempts (trace st)) + i)%nat
          with (attempts (trace st) + S i)%nat by lia.
        exact H'. }
      exists st', t'; split; [| split; [exact Hr | lia]].
      rewrite Hrun; f_equal; f_equal; lia. }
    unfold still_pending in Hpending.
    destruct (negb (strict_eq_num (prop (Some d) "code") 200)).
    + apply Hnext; reflexivity.
    + cbn [orb] in Hpending; cbv zeta in Hpending |- *.
      apply andb_prop in Hpending; destruct Hpending as [Hflag Hmsg].
      apply negb_true_iff in Hflag, Hmsg.
      rewrite Hflag, Hmsg.
      apply Hnext; reflexivity.
Qed.

(** One iteration of the poll loop, entered in any machine: the poll call
    returns a response that reports success, after whatever retries, and
    the download that follows succeeds. *)
Lemma poll_iteration_success (remaining : nat) (pollCount : Z) (st : St)
  (t : VideoTask) (d : JSON) (st_f : St) (u : string) (saved : Saved)
  (st_d : St) :
  record_of (number task) st = Some t ->
  run rt w
    (fetchJson rt pollUrl (mkAxiosConfig "GET" [auth_header key] None)
       900000 default_retries)
    (snd (run rt w (sleep pollInterval) st))
  = (inr d, st_f) ->
  reports_success d u ->
  run rt w (downloadVideo rt u (number task) saveDir)
    (snd (run rt w (updateVideoTask (number task) downloading_patch) st_f))
  = (inr saved, st_d) ->
  let out := run rt w (poll_loop rt (S remaining) pollCount task key saveDir
                         pollUrl) st in
  fst out = inr tt
  /\ exists t',
       record_of (number task) (snd out) = Some t'
       /\ success_record t' saved u.
Proof.
  intros Hrec Hpoll [Hcode [Hflag [rest Hurls]]] Hdownload out; subst out.
  rewrite poll_loop_step, run_bind.
  destruct (run rt w (sleep pollInterval) st) as [r st_s] eqn:Hsleep.
  rewrite run_sleep in Hsleep; injection Hsleep as <- <-.
  cbn [snd] in Hpoll.
  pose proof (run_fetchJson_effect rt w pollUrl
                (mkAxiosConfig "GET" [auth_header key] None) 900000
                default_retries
                (mkSt (store st) (trace st ++ [EvSleep pollInterval])))
    as [Hstore_f _].
  rewrite run_bind, Hpoll in *; cbn [snd store] in Hstore_f.
  rewrite Hcode; cbn [negb]; cbv zeta.
  rewrite Hflag, Hurls, run_bind.
  assert (Hrec_f : record_of (number task) st_f = Some t)
    by (rewrite (record_of_store _ _ _ Hstore_f); exact Hrec).
  pose proof (record_after_update rt w (number task) downloading_patch
                st_f t eq_refl Hrec_f) as Hrec_u.
  change (with_progress 95 (with_status "生成完成，开始下载..." no_fields))
    with downloading_patch.
  destruct (run rt w (updateVideoTask (number task) downloading_patch) st_f)
    as [r_u st_u] eqn:Hupdate.
  rewrite run_updateVideoTask in Hupdate; injection Hupdate as <- Hst_u.
  cbn [snd] in Hrec_u, Hdownload.
  cbn [prop String.eqb Ascii.eqb Bool.eqb hd_error List.length truthy js_String].
  replace (negb (negb (Z.of_nat (S (List.length rest)) =? 0))) with false
    by (symmetry; apply negb_false_iff, negb_true_iff, Z.eqb_neq; lia).
  rewrite run_bind, Hdownload, run_bind.
  pose proof (run_downloadVideo_effect rt w u (number task) saveDir st_u)
    as [Hstore_d _].
  rewrite Hdownload in Hstore_d; cbn [snd] in Hstore_d.
  assert (Hrec_d : record_of (number task) st_d = Some _)
    by (rewrite (record_of_store _ _ _ Hstore_d); exact Hrec_u).
  pose proof (record_after_update rt w (number task)
                (with_errorMsg ""
                   (with_actualFilename (s_actualFilename saved)
                      (with_remoteUrl u
                         (with_localPath (s_localPath saved)
                            (with_progress 100 (with_status "成功" no_fields))))))
                st_d _ eq_refl Hrec_d) as Hrec_end.
  rewrite run_updateVideoTask in *; cbn [fst snd run] in Hrec_end |- *.
  split; [reflexivity |].
  eexists; split; [exact Hrec_end |].
  unfold success_record; repeat split; reflexivity.
Qed.

End Success.

(** C4.  At any iteration of the poll loop, in any machine in which the
    task has a record: when the poll call returns a response that reports
    success ([code] 200, [successFlag] 1) with a non-empty [resultUrls]
    whose first element is [u], and the download of [u] that follows
    succeeds, the loop returns and the persisted record has status [成功],
    progress 100, the [localPath] and [actualFilename] that
    [downloadVideo] returned, [remoteUrl] equal to [u], and an empty
    [errorMsg].  That iteration is reached, and [processVideoTask] ends
    with this record, when the submit call is answered with a task id and
    the first [N] polls ([N] below the budget) are answered with a
    response that is still pending. *)
Theorem success_is_recorded (rt : Runtime) (w : World) (task : VideoTask)
  (key saveDir : string) :
  (forall pollUrl remaining pollCount st t d st_f u saved st_d,
      record_of (number task) st = Some t ->
      run rt w
        (fetchJson rt pollUrl (mkAxiosConfig "GET" [auth_header key] None)
           900000 default_retries)
        (snd (run rt w (sleep pollInterval) st))
      = (inr d, st_f) ->
      reports_success d u ->
      run rt w (downloadVideo rt u (number task) saveDir)
        (snd (run rt w (updateVideoTask (number task) downloading_patch) st_f))
      = (inr saved, st_d) ->
      let out := run rt w (poll_loop rt (S remaining) pollCount task key
                             saveDir pollUrl) st in
      fst out = inr tt
      /\ exists t',
           record_of (number task) (snd out) = Some t'
           /\ success_record t' saved u)
  /\ (forall st t0 N s0 resp s d u,
        let a0 := attempts (trace st) in
        let taskId := prop (prop (Some resp) "data") "taskId" in
        let pollUrl :=
          RECORD_URL ++ "?taskId="
          ++ rt_encodeURIComponent rt (js_String rt taskId) in
        record_of (number task) st = Some t0 ->
        w_transport w a0 (submit_request rt task key) = Responded s0 resp ->
        s0 < 400 ->
        truthy taskId = true ->
        (N < maxPollTimes)%nat ->
        (forall i, (i < N)%nat ->
           exists si di,
             w_transport w (a0 + 1 + i) (poll_request pollUrl key)
             = Responded si di
             /\ si < 400 /\ still_pending di = true) ->
        w_transport w (a0 + 1 + N) (poll_request pollUrl key) = Responded s d ->
        s < 400 ->
        reports_success d u ->
        (forall st1, exists saved,
            fst (run rt w (downloadVideo rt u (number task) saveDir) st1)
            = inr saved) ->
        let outcome := run rt w (processVideoTask rt task key saveDir) st in
        fst outcome = inr tt
        /\ exists st_d saved t',
             fst (run rt w (downloadVideo rt u (number task) saveDir) st_d)
             = inr saved
             /\ record_of (number task) (snd outcome) = Some t'
             /\ success_record t' saved u).
Proof.
  split.
  { intros pollUrl remaining pollCount st t d st_f u saved st_d.
    apply poll_iteration_success. }
  intros st t0 N s0 resp s d u a0 taskId pollUrl Hrec Hsubmit Hs0 Hid HN Hpend
         Hsucc Hs Hreports Hdownload outcome; subst outcome.
  unfold processVideoTask.
  rewrite run_bind.
  pose proof (record_after_update rt w (number task)
                (with_progress 5 (with_errorMsg "" (with_status "生成中" no_fields)))
                st t0 eq_refl Hrec) as Hrec1.
  rewrite run_updateVideoTask in *; cbn [snd] in Hrec1.
  set (st1 := mkSt _ (trace st ++ [EvUpdate (number task) _])) in *.
  assert (Hatt1 : attempts (trace st1) = a0).
  { subst st1 a0; cbn [trace]; rewrite attempts_app; cbn; lia. }
  rewrite run_try_catch; unfold processVideoTask_try; rewrite run_bind.
  unfold default_retries.
  rewrite (fetchJson_first_try rt w GENERATE_URL
             (mkAxiosConfig "POST"
                [("Content-Type", "application/json"); auth_header key]
                (Some (payload_of rt task))) 900000 2 st1 s0 resp)
    by (try assumption; rewrite Hatt1; exact Hsubmit).
  set (st2 := mkSt (store st1) _).
  assert (Hatt2 : attempts (trace st2) = S a0).
  { subst st2; cbn [trace]; rewrite attempts_app, Hatt1; cbn; lia. }
  fold taskId; rewrite Hid; cbn [negb].
  rewrite run_bind.
  pose proof (record_after_update rt w (number task)
                (with_progress 15 (with_status "任务已提交，等待处理..." no_fields))
                st2 _ eq_refl Hrec1) as Hrec3.
  rewrite run_updateVideoTask in *; cbn [snd] in Hrec3.
  set (st3 := mkSt _ (trace st2 ++ [EvUpdate (number task) _])) in *.
  assert (Hatt3 : attempts (trace st3) = S a0).
  { subst st3; cbn [trace]; rewrite attempts_app, Hatt2; cbn; lia. }
  cbv zeta; fold pollUrl.
  replace maxPollTimes with (N + S (maxPollTimes - S N))%nat by lia.
  destruct (poll_loop_skips_pending rt w task key saveDir pollUrl N
              (S (maxPollTimes - S N)) 0 st3 _ Hrec3)
    as [st4 [t4 [Hrun [Hrec4 Hatt4]]]].
  { intros i Hi; destruct (Hpend i Hi) as [si [di H]]; exists si, di.
    rewrite Hatt3; replace (S a0 + i)%nat with (a0 + 1 + i)%nat by lia.
    exact H. }
  rewrite Hrun.
  (* the poll that reports success *)
  assert (Hpoll :
    run rt w
      (fetchJson rt pollUrl (mkAxiosConfig "GET" [auth_header key] None)
         900000 default_retries)
      (snd (run rt w (sleep pollInterval) st4))
    = (inr d, mkSt (store st4)
                (trace st4 ++ [EvSleep pollInterval]
                   ++ [EvAxios (poll_request pollUrl key)]))).
  { rewrite run_sleep; cbn [snd]; unfold default_retries.
    rewrite (fetchJson_first_try rt w pollUrl
               (mkAxiosConfig "GET" [auth_header key] None) 900000 2 _ s d).
    - cbn [store trace]; rewrite <- app_assoc; reflexivity.
    - cbn [trace]; rewrite attempts_app, Nat.add_0_r, Hatt4, Hatt3.
      replace (S a0 + N)%nat with (a0 + 1 + N)%nat by lia.
      exact Hsucc.
    - exact Hs. }
  match type of Hpoll with
  | _ = (_, ?st_f) =>
      destruct (Hdownload
                  (snd (run rt w (updateVideoTask (number task)
                                    downloading_patch) st_f)))
        as [saved Hsaved];
      destruct (run rt w (downloadVideo rt u (number task) saveDir)
                  (snd (run rt w (updateVideoTask (number task)
                                    downloading_patch) st_f)))
        as [res st_d] eqn:Hrun_d
  end.
  cbn [fst] in Hsaved; subst res.
  destruct (poll_iteration_success rt w task key saveDir pollUrl
              (maxPollTimes - S N) (0 + Z.of_nat N) st4 t4 d _ u saved st_d
              Hrec4 Hpoll Hreports Hrun_d)
    as [Hres [t' [Hrec' Hfields]]].
  destruct (run rt w (poll_loop rt (S (maxPollTimes - S N)) (0 + Z.of_nat N)
                        task key saveDir pollUrl) st4) as [res st5].
  cbn [fst snd] in Hres, Hrec'; subst res.
  split; [reflexivity |].
  eexists; exists saved, t'; split; [rewrite Hrun_d; reflexivity |].
  split; assumption.
Qed.

(** ** Progress along a pipeline *)

Lemma mono_bind_quiet (A B : Type) (lo : Z) (m : Prog A) (f : A -> Prog B) :
  emits (fun ev => written_progress ev = None) m ->
  (forall a, mono lo (f a)) ->
  mono lo (bind m f).
Proof.
  intros Hm Hf; induction Hm as [a | e | X e k Hev Hk IH]; simpl; auto.
  - constructor.
  - apply mono_same; auto.
Qed.

Lemma mono_try_catch (A : Type) (lo : Z) (m : Prog A) (h : Exn -> Prog A) :
  mono lo m ->
  (forall e lo', mono lo' (h e)) ->
  mono lo (try_catch m h).
Proof.
  intros Hm Hh.
  induction Hm as [lo a | lo e | lo X e k Hev Hk IH
                  | lo n X e k Hev Hst Hle Hpl Hk IH]; simpl; auto.
  - constructor.
  - apply mono_same; auto.
  - eapply mono_rise; eauto.
Qed.

Lemma mono_update_same (A : Type) (lo : Z) (num : string) (patch : Patch)
  (rest : Prog A) :
  p_progress patch = None ->
  mono lo rest ->
  mono lo (bind (updateVideoTask num patch) (fun _ => rest)).
Proof.
  intros Hp Hrest; unfold updateVideoTask, await; cbn [bind].
  apply mono_same; [exact Hp | intros _; exact Hrest].
Qed.

Lemma mono_update_rise (A : Type) (lo n : Z) (num : string) (patch : Patch)
  (rest : Prog A) :
  p_progress patch = Some (Some n) ->
  p_status patch <> Some "失败" ->
  lo <= n -> planned n ->
  mono n rest ->
  mono lo (bind (updateVideoTask num patch) (fun _ => rest)).
Proof.
  intros Hp Hs Hle Hpl Hrest; unfold updateVideoTask, await; cbn [bind].
  eapply mono_rise; eauto.
Qed.

Lemma fetchJson_no_progress (rt : Runtime) (url : string) (config : AxiosConfig)
  (timeoutMs : Z) (retries : nat) :
  emits (fun ev => written_progress ev = None)
        (fetchJson rt url config timeoutMs retries).
Proof.
  eapply emits_weaken; [| apply fetchJson_emits].
  intros ev [-> | [ms ->]]; reflexivity.
Qed.

Lemma downloadVideo_no_progress (rt : Runtime) (url num saveDir : string) :
  emits (fun ev => written_progress ev = None)
        (downloadVideo rt url num saveDir).
Proof.
  eapply emits_weaken; [| apply downloadVideo_emits].
  intros ev; destruct ev; simpl; tauto.
Qed.

Lemma polling_status_not_failure (pollCount : Z) :
  Some (polling_status pollCount) <> Some "失败".
Proof. unfold polling_status; cbn; discriminate. Qed.

Lemma poll_loop_mono (rt : Runtime) (task : VideoTask)
  (key saveDir pollUrl : string) (remaining : nat) :
  forall pollCount lo,
    0 <= pollCount ->
    pollCount + Z.of_nat remaining <= 120 ->
    lo <= Z.min 90 (15 + (pollCount + 1) * 2) ->
    mono lo (poll_loop rt remaining pollCount task key saveDir pollUrl).
Proof.
  induction remaining as [| n IH]; intros pollCount lo Hpc Hbudget Hlo.
  - constructor.
  - rewrite poll_loop_step.
    unfold sleep, await; cbn [bind].
    apply mono_same; [reflexivity | intros _].
    apply mono_bind_quiet; [apply fetchJson_no_progress | intros pollData].
    destruct (negb (strict_eq_num (prop (Some pollData) "code") 200)).
    { apply mono_update_same; [reflexivity |].
      apply IH; lia. }
    cbv zeta.
    destruct (strict_eq_num _ 1).
    { eapply (mono_update_rise _ lo 95);
        [reflexivity | cbn; discriminate | lia | unfold planned; auto |].
      destruct (negb (truthy _)); [constructor |].
      apply mono_bind_quiet; [apply downloadVideo_no_progress | intros saved].
      eapply (mono_update_rise _ 95 100);
        [reflexivity | cbn; discriminate | lia | unfold planned; tauto |].
      constructor. }
    destruct (truthy _); [constructor |].
    eapply (mono_update_rise _ lo (Z.min 90 (15 + (pollCount + 1) * 2)));
      [reflexivity | apply polling_status_not_failure | lia | |].
    + unfold planned; right; right; left.
      exists (pollCount + 1); split; [lia | reflexivity].
    + apply IH; lia.
Qed.

Lemma processVideoTask_try_mono (rt : Runtime) (task : VideoTask)
  (key saveDir : string) :
  mono 5 (processVideoTask_try rt task key saveDir).
Proof.
  unfold processVideoTask_try.
  apply mono_bind_quiet; [apply fetchJson_no_progress | intros resp].
  destruct (negb (truthy _)); [constructor |].
  eapply (mono_update_rise _ 5 15);
    [reflexivity | cbn; discriminate | lia | unfold planned; auto |].
  cbv zeta; apply poll_loop_mono; unfold maxPollTimes; lia.
Qed.

Lemma processVideoTask_catch_mono (task : VideoTask) (error : Exn) (lo : Z) :
  mono lo (processVideoTask_catch task error).
Proof.
  unfold processVideoTask_catch, updateVideoTask, await.
  apply mono_same; [reflexivity | intros x; constructor].
Qed.

Lemma planned_range (n : Z) : planned n -> 0 <= n <= 100.
Proof.
  unfold planned; intros [-> | [-> | [[k [Hk ->]] | [-> | ->]]]]; lia.
Qed.

(** What [mono] says of a run. *)
Lemma run_mono (rt : Runtime) (w : World) (A : Type) (lo : Z) (m : Prog A) :
  mono lo m ->
  forall st, exists new values,
    trace (snd (run rt w m st)) = (trace st ++ new)%list
    /\ progress_writes new = map Some values
    /\ Sorted Z.le (lo :: values)
    /\ Forall planned values
    /\ Forall failure_keeps_progress new.
Proof.
  intros H.
  induction H as [lo a | lo e | lo X e k Hev Hk IH
                 | lo n X e k Hev Hst Hle Hpl Hk IH]; intros st; simpl.
  - exists [], []; rewrite app_nil_r; repeat split; auto.
  - exists [], []; rewrite app_nil_r; repeat split; auto.
  - destruct (handle rt w e st) as [x st1] eqn:E.
    destruct (IH x st1) as [new [values [Htr [Hw [Hs [Hp Hf]]]]]].
    exists (event_of e :: new), values; repeat split; auto.
    + rewrite Htr.
      replace st1 with (snd (handle rt w e st)) by (rewrite E; reflexivity).
      rewrite handle_trace, <- app_assoc; reflexivity.
    + cbn [progress_writes flat_map]; rewrite Hev; exact Hw.
    + constructor; [intros _; exact Hev | exact Hf].
  - destruct (handle rt w e st) as [x st1] eqn:E.
    destruct (IH x st1) as [new [values [Htr [Hw [Hs [Hp Hf]]]]]].
    exists (event_of e :: new), (n :: values); repeat split; auto.
    + rewrite Htr.
      replace st1 with (snd (handle rt w e st)) by (rewrite E; reflexivity).
      rewrite handle_trace, <- app_assoc; reflexivity.
    + unfold progress_writes in *; simpl; rewrite Hev; simpl.
      f_equal; exact Hw.
    + constructor; [intros Hfail; contradiction | exact Hf].
Qed.

Lemma mutator_keeps_progress (now num : string) (patch : Patch) (data : AppData) :
  p_progress patch = None ->
  map progress (videoTasks (updateVideoTask_mutator now num patch data))
  = map progress (videoTasks data).
Proof.
  intros Hp; unfold updateVideoTask_mutator.
  destruct (find _ _); [| reflexivity]; cbn [videoTasks].
  induction (videoTasks data) as [| t rest IH]; simpl; auto.
  destruct (String.eqb (number t) num); simpl.
  - rewrite Hp; reflexivity.
  - f_equal; exact IH.
Qed.

(** C7.  In a run of [processVideoTask], whatever the world answers, the
    progress values written by its store updates start with 5, are all
    among 5, 15, [min(90, 15 + 2 * pollCount)] for a poll count from 1 to
    120, 95 and 100, never decrease, and stay between 0 and 100; no update
    that writes the status [失败] writes a progress, and the failure
    transition leaves the progress of every record as it was. *)
Theorem progress_never_decreases (rt : Runtime) (w : World) (task : VideoTask)
  (key saveDir : string) (st : St) :
  let outcome := run rt w (processVideoTask rt task key saveDir) st in
  (exists new values,
      trace (snd outcome) = (trace st ++ new)%list
      /\ progress_writes new = map Some (5 :: values)
      /\ Sorted Z.le (5 :: values)
      /\ Forall planned (5 :: values)
      /\ Forall (fun n => 0 <= n <= 100) (5 :: values)
      /\ Forall failure_keeps_progress new)
  /\ (forall error st1,
        let failed := run rt w (processVideoTask_catch task error) st1 in
        written_progress (EvUpdate (number task)
                            (failed_patch (if String.eqb (message error) ""
                                           then String_of_error error
                                           else message error))) = None
        /\ map progress (videoTasks (store (snd failed)))
           = map progress (videoTasks (store st1))).
Proof.
  intros outcome; subst outcome; split.
  - unfold processVideoTask, updateVideoTask, await; cbn [bind run].
    destruct (handle rt w (EUpdateVideoTask (number task) _) st) as [x st1] eqn:E.
    assert (Hm : mono 5 (try_catch (processVideoTask_try rt task key saveDir)
                           (processVideoTask_catch task))).
    { apply mono_try_catch; [apply processVideoTask_try_mono |].
      intros e lo'; apply processVideoTask_catch_mono. }
    destruct (run_mono rt w _ 5 _ Hm st1) as [new [values [Htr [Hw [Hs [Hp Hf]]]]]].
    exists (EvUpdate (number task) started_patch :: new), values.
    assert (Hplanned : Forall planned (5 :: values))
      by (constructor; [unfold planned; auto | exact Hp]).
    repeat split; auto.
    + rewrite Htr.
      replace st1 with (snd (handle rt w (EUpdateVideoTask (number task)
                                            started_patch) st))
        by (unfold started_patch; rewrite E; reflexivity).
      rewrite handle_trace, <- app_assoc; reflexivity.
    + unfold progress_writes in *; simpl; f_equal; exact Hw.
    + eapply Forall_impl; [| exact Hplanned]; apply planned_range.
    + constructor; [| exact Hf].
      unfold failure_keeps_progress; cbn; discriminate.
  - intros error st1 failed; subst failed; split; [reflexivity |].
    unfold processVideoTask_catch; rewrite run_updateVideoTask; cbn [snd store].
    apply mutator_keeps_progress; reflexivity.
Qed.

(** ** The status a pipeline leaves *)

Lemma returns_terminal_bind_quiet (A B : Type) (last : bool) (m : Prog A)
  (f : A -> Prog B) :
  emits (fun ev => written_status ev = None) m ->
  (forall a, returns_terminal last (f a)) ->
  returns_terminal last (bind m f).
Proof.
  intros Hm Hf; induction Hm as [a | e | X e k Hev Hk IH]; simpl; auto.
  - constructor.
  - constructor; intros x.
    unfold terminal_after; rewrite Hev; apply IH.
Qed.

Lemma returns_terminal_try_catch (A : Type) (last : bool) (m : Prog A)
  (h : Exn -> Prog A) :
  returns_terminal last m ->
  (forall e last', returns_terminal last' (h e)) ->
  returns_terminal last (try_catch m h).
Proof.
  intros Hm Hh; induction Hm as [a | last e | last X e k Hk IH]; simpl; auto.
  - constructor.
  - constructor; auto.
Qed.

Lemma returns_terminal_update (A : Type) (last : bool) (num : string)
  (patch : Patch) (rest : Prog A) :
  returns_terminal (match p_status patch with
                    | Some s => is_terminal s
                    | None => last
                    end) rest ->
  returns_terminal last (bind (updateVideoTask num patch) (fun _ => rest)).
Proof.
  intros Hrest; unfold updateVideoTask, await; cbn [bind].
  constructor; intros _; exact Hrest.
Qed.

Lemma fetchJson_no_status (rt : Runtime) (url : string) (config : AxiosConfig)
  (timeoutMs : Z) (retries : nat) :
  emits (fun ev => written_status ev = None)
        (fetchJson rt url config timeoutMs retries).
Proof.
  eapply emits_weaken; [| apply fetchJson_emits].
  intros ev [-> | [ms ->]]; reflexivity.
Qed.

Lemma downloadVideo_no_status (rt : Runtime) (url num saveDir : string) :
  emits (fun ev => written_status ev = None)
        (downloadVideo rt url num saveDir).
Proof.
  eapply emits_weaken; [| apply downloadVideo_emits].
  intros ev; destruct ev; simpl; tauto.
Qed.

Lemma polling_status_not_terminal (pollCount : Z) :
  is_terminal (polling_status pollCount) = false.
Proof. reflexivity. Qed.

Lemma poll_loop_returns_terminal (rt : Runtime) (task : VideoTask)
  (key saveDir pollUrl : string) (remaining : nat) :
  forall pollCount last,
    returns_terminal last
      (poll_loop rt remaining pollCount task key saveDir pollUrl).
Proof.
  induction remaining as [| n IH]; intros pollCount last.
  - constructor.
  - rewrite poll_loop_step.
    unfold sleep, await; cbn [bind].
    constructor; intros _.
    apply returns_terminal_bind_quiet; [apply fetchJson_no_status |].
    intros pollData.
    destruct (negb (strict_eq_num (prop (Some pollData) "code") 200)).
    { apply returns_terminal_update; apply IH. }
    cbv zeta.
    destruct (strict_eq_num _ 1).
    { apply returns_terminal_update.
      destruct (negb (truthy _)); [constructor |].
      apply returns_terminal_bind_quiet; [apply downloadVideo_no_status |].
      intros saved.
      apply returns_terminal_update; constructor. }
    destruct (truthy _); [constructor |].
    apply returns_terminal_update; apply IH.
Qed.

(** Every path of [processVideoTask] ends in a return, and the last status
    it writes is [成功] or [失败]. *)
Lemma processVideoTask_returns_terminal (rt : Runtime) (task : VideoTask)
  (key saveDir : string) (last : bool) :
  returns_terminal last (processVideoTask rt task key saveDir).
Proof.
  unfold processVideoTask.
  apply returns_terminal_update.
  apply returns_terminal_try_catch.
  - unfold processVideoTask_try.
    apply returns_terminal_bind_quiet; [apply fetchJson_no_status |].
    intros resp.
    destruct (negb (truthy _)); [constructor |].
    apply returns_terminal_update.
    cbv zeta; apply poll_loop_returns_terminal.
  - intros e last'; unfold processVideoTask_catch.
    unfold updateVideoTask, await; constructor; intros x; constructor.
Qed.

(** ** The limiter *)

Lemma started_app (tr new : list Event) :
  started (tr ++ new) = (started tr ++ started new)%list.
Proof. apply flat_map_app. Qed.

Lemma settled_app (tr new : list Event) :
  settled_jobs (tr ++ new) = (settled_jobs tr ++ settled_jobs new)%list.
Proof. apply flat_map_app. Qed.

Lemma in_flight_after_app (tr new : list Event) :
  forall c, in_flight_after c (tr ++ new)
            = in_flight_after (in_flight_after c tr) new.
Proof.
  induction tr as [| ev rest IH]; intros c; simpl; auto.
  destruct ev; apply IH.
Qed.

Lemma within_cap_app (cap : nat) (tr new : list Event) :
  forall c, within_cap cap c (tr ++ new)
            <-> within_cap cap c tr /\ within_cap cap (in_flight_after c tr) new.
Proof.
  induction tr as [| ev rest IH]; intros c; simpl.
  - tauto.
  - destruct ev; try apply IH.
    rewrite IH; tauto.
Qed.

Lemma effects_neutral (cap : nat) (delta : list Event) :
  Forall is_effect delta ->
  forall c, started delta = []
            /\ in_flight_after c delta = c
            /\ within_cap cap c delta.
Proof.
  induction 1 as [| ev rest Hev _ IH]; intros c; simpl; auto.
  destruct ev; simpl in Hev; try contradiction; apply IH.
Qed.

Lemma effects_not_settled (delta : list Event) :
  Forall is_effect delta -> settled_jobs delta = [].
Proof.
  induction 1 as [| ev rest Hev _ IH]; simpl; auto.
  destruct ev; simpl in Hev; try contradiction; apply IH.
Qed.

Lemma event_of_is_effect (X : Type) (e : Eff X) : is_effect (event_of e).
Proof. destruct e; exact I. Qed.

Lemma emits_effects (A : Type) (m : Prog A) : emits is_effect m.
Proof.
  induction m as [a | e | X e k IH]; constructor; auto.
  apply event_of_is_effect.
Qed.

Ltac split_advances :=
  split; [| split; [| split; [| split; [| split]]]].

Lemma advances_refl (cap : nat) (pool : Pool) (tr : list Event) :
  advances cap pool tr pool tr.
Proof.
  exists []; rewrite app_nil_r; simpl; split_advances; auto.
Qed.

Lemma advances_trans (cap : nat) (p1 p2 p3 : Pool) (t1 t2 t3 : list Event) :
  advances cap p1 t1 p2 t2 -> advances cap p2 t2 p3 t3 ->
  advances cap p1 t1 p3 t3.
Proof.
  intros [d1 [E1 [Hs1 [W1 [F1 [C1 L1]]]]]] [d2 [E2 [Hs2 [W2 [F2 [C2 L2]]]]]].
  exists (d1 ++ d2)%list; split_advances.
  - rewrite E2, E1, app_assoc; reflexivity.
  - rewrite started_app, <- app_assoc, Hs2; exact Hs1.
  - apply within_cap_app; rewrite F1; auto.
  - rewrite in_flight_after_app, F1; exact F2.
  - rewrite started_app, settled_app, !length_app; lia.
  - lia.
Qed.

(** Extending the record in front of a move of the limiter. *)
Lemma advances_after (cap : nat) (pool mid pool' : Pool)
  (tr front tr' : list Event) :
  queue mid = queue pool ->
  started front = [] ->
  within_cap cap (List.length (active pool)) front ->
  in_flight_after (List.length (active pool)) front = List.length (active mid) ->
  (List.length (active pool)
   = List.length (settled_jobs front) + List.length (active mid))%nat ->
  advances cap mid (tr ++ front) pool' tr' ->
  advances cap pool tr pool' tr'.
Proof.
  intros Hq Hs Hw Hf Hl Hadv.
  apply (advances_trans cap pool mid pool' tr (tr ++ front)%list tr');
    [| exact Hadv].
  exists front; split_advances; auto.
  - rewrite Hs, Hq; reflexivity.
  - rewrite Hs; cbn [List.length]; lia.
  - rewrite Hq; lia.
Qed.

Lemma dispatch_advances (cap : nat) (waiting : list Job) :
  forall running rej tr,
    advances cap (mkPool waiting running rej) tr
      (fst (dispatch cap waiting running rej tr))
      (snd (dispatch cap waiting running rej tr)).
Proof.
  induction waiting as [| job waiting' IH]; intros running rej tr.
  - apply advances_refl.
  - cbn [dispatch].
    destruct (List.length running <? cap)%nat eqn:Hfree;
      [| apply advances_refl].
    apply Nat.ltb_lt in Hfree.
    destruct job as [num [a | e | X e k]]; cbn [snd fst].
    + specialize (IH running rej (tr ++ [EvStart num; EvSettle num])%list).
      destruct IH as [d [E [Hs [W [F [C L]]]]]]; cbn [queue active] in *.
      exists ([EvStart num; EvSettle num] ++ d)%list; cbn [queue active].
      split_advances.
      * rewrite E, <- app_assoc; reflexivity.
      * cbn; f_equal; exact Hs.
      * cbn; auto.
      * cbn; exact F.
      * unfold started, settled_jobs in *; cbn; lia.
      * cbn [List.length]; lia.
    + specialize (IH running (first_rejection rej e)
                    (tr ++ [EvStart num; EvSettle num])%list).
      destruct IH as [d [E [Hs [W [F [C L]]]]]]; cbn [queue active] in *.
      exists ([EvStart num; EvSettle num] ++ d)%list; cbn [queue active].
      split_advances.
      * rewrite E, <- app_assoc; reflexivity.
      * cbn; f_equal; exact Hs.
      * cbn; auto.
      * cbn; exact F.
      * unfold started, settled_jobs in *; cbn; lia.
      * cbn [List.length]; lia.
    + specialize (IH (running ++ [(num, Do e k)])%list rej
                    (tr ++ [EvStart num])%list).
      destruct IH as [d [E [Hs [W [F [C L]]]]]]; cbn [queue active] in *.
      rewrite length_app in W, F, C, L; cbn [List.length] in W, F, C, L.
      rewrite Nat.add_1_r in W, F.
      exists ([EvStart num] ++ d)%list; cbn [queue active].
      split_advances.
      * rewrite <- app_assoc in E; exact E.
      * cbn; f_equal; exact Hs.
      * cbn; auto.
      * cbn; exact F.
      * unfold started, settled_jobs in *; cbn; lia.
      * cbn [List.length]; lia.
Qed.

Lemma dispatch_ok (cap : nat) (waiting : list Job) :
  forall running tr,
    (List.length running <= cap)%nat ->
    Forall job_ok waiting -> Forall job_ok running ->
    pool_ok cap (fst (dispatch cap waiting running None tr)).
Proof.
  induction waiting as [| job waiting' IH]; intros running tr Hlen Hw Hr.
  - repeat split; cbn; auto.
  - cbn [dispatch].
    inversion Hw as [| j l Hjob Hrest]; subst.
    destruct (List.length running <? cap)%nat eqn:Hfree.
    + apply Nat.ltb_lt in Hfree.
      destruct job as [num [a | e | X e k]]; cbn [snd fst].
      * apply IH; auto.
      * contradiction.
      * apply IH; auto.
        -- rewrite length_app; cbn; lia.
        -- apply Forall_app; split; auto.
    + apply Nat.ltb_ge in Hfree.
      repeat split; cbn; auto.
Qed.

Lemma length_remove_nth (T : Type) (l : list T) :
  forall i x, nth_error l i = Some x ->
              List.length (remove_nth i l) = Nat.pred (List.length l).
Proof.
  induction l as [| y rest IH]; intros [| i] x H; simpl in *;
    try discriminate; auto.
  rewrite (IH i x H).
  destruct rest; [destruct i; discriminate | reflexivity].
Qed.

Lemma length_replace_nth (T : Type) (y : T) (l : list T) :
  forall i, List.length (replace_nth i y l) = List.length l.
Proof.
  induction l as [| x rest IH]; intros [| i]; simpl; auto.
Qed.

Lemma Forall_remove_nth (T : Type) (P : T -> Prop) (l : list T) :
  forall i, Forall P l -> Forall P (remove_nth i l).
Proof.
  induction l as [| x rest IH]; intros [| i] H; simpl; auto;
    inversion H; subst; auto.
Qed.

Lemma Forall_replace_nth (T : Type) (P : T -> Prop) (y : T) (l : list T) :
  forall i, P y -> Forall P l -> Forall P (replace_nth i y l).
Proof.
  induction l as [| x rest IH]; intros [| i] Hy H; simpl; auto;
    inversion H; subst; auto.
Qed.

Lemma Forall_nth_error (T : Type) (P : T -> Prop) (l : list T) :
  forall i x, Forall P l -> nth_error l i = Some x -> P x.
Proof.
  induction l as [| y rest IH]; intros [| i] x H E; simpl in *;
    try discriminate; inversion H; subst.
  - injection E as <-; assumption.
  - eapply IH; eauto.
Qed.

Lemma run_effects (rt : Runtime) (w : World) (A : Type) (m : Prog A) (st : St) :
  exists delta,
    trace (snd (run rt w m st)) = (trace st ++ delta)%list
    /\ Forall is_effect delta.
Proof. apply run_emits, emits_effects. Qed.

Section Limiter.

Variable rt : Runtime.
Variable w : World.
Variable cap : nat.
Hypothesis cap_positive : (1 <= cap)%nat.

(** A job in flight settles: its slot is handed to the queue. *)
Lemma settle_advances (pool : Pool) (st st1 : St) (i : nat) (num : string)
  (p : Prog unit) (front : list Event) :
  pool_ok cap pool ->
  nth_error (active pool) i = Some (num, p) ->
  trace st1 = (trace st ++ front)%list ->
  Forall is_effect front ->
  let r := dispatch cap (queue pool) (remove_nth i (active pool)) None
             (trace st1 ++ [EvSettle num]) in
  advances cap pool (trace st) (fst r) (snd r) /\ pool_ok cap (fst r).
Proof.
  intros [Hlen [Heager [Hq [Ha Hrej]]]] Hnth Htr Hfront r; subst r.
  pose proof (length_remove_nth _ _ _ _ Hnth) as Hrm.
  assert (Hpos : (0 < List.length (active pool))%nat).
  { destruct (active pool); [destruct i; discriminate | cbn; lia]. }
  split.
  - apply (advances_after cap pool
             (mkPool (queue pool) (remove_nth i (active pool)) None)
             _ (trace st) (front ++ [EvSettle num])%list).
    + reflexivity.
    + rewrite started_app.
      destruct (effects_neutral cap front Hfront 0%nat) as [-> _]; reflexivity.
    + apply within_cap_app; split.
      * apply (effects_neutral cap front Hfront).
      * cbn; exact I.
    + rewrite in_flight_after_app.
      destruct (effects_neutral cap front Hfront (List.length (active pool)))
        as [_ [-> _]].
      cbn [in_flight_after active]; symmetry; exact Hrm.
    + rewrite settled_app, (effects_not_settled front Hfront).
      cbn [active]; rewrite Hrm.
      change (settled_jobs [EvSettle num]) with [num].
      simpl; lia.
    + rewrite app_assoc, <- Htr; apply dispatch_advances.
  - apply dispatch_ok; auto.
    + lia.
    + apply Forall_remove_nth; exact Ha.
Qed.

Lemma turn_advances (i : nat) (pool : Pool) (st : St) :
  pool_ok cap pool ->
  let r := turn rt w cap i pool st in
  advances cap pool (trace st) (fst r) (trace (snd r)) /\ pool_ok cap (fst r).
Proof.
  intros Hok r; subst r; unfold turn.
  destruct (nth_error (active pool) i) as [[num [a | err | X e k]] |] eqn:Hnth;
    try (split; [apply advances_refl | exact Hok]).
  pose proof Hok as [Hlen [Heager [Hq [Ha Hrej]]]].
  pose proof (Forall_nth_error _ _ _ _ _ Ha Hnth) as Hjob.
  unfold job_ok in Hjob; cbn [snd never_throws] in Hjob.
  pose proof (handle_trace rt w X e st) as Htr.
  destruct (handle rt w e st) as [x st1]; cbn [snd] in Htr.
  specialize (Hjob x).
  assert (Hfront : Forall is_effect [event_of e])
    by (constructor; [apply event_of_is_effect | constructor]).
  destruct (k x) as [a | err | Y e' k'] eqn:Hk.
  - rewrite Hrej.
    pose proof (settle_advances pool st st1 i num (Do e k) [event_of e]
                  Hok Hnth Htr Hfront) as H.
    destruct (dispatch cap (queue pool) (remove_nth i (active pool)) None
                (trace st1 ++ [EvSettle num])) as [pool' tr'].
    exact H.
  - contradiction.
  - cbn [fst snd]; split.
    + exists [event_of e]; cbn [queue active]; split_advances.
      * exact Htr.
      * destruct (effects_neutral cap _ Hfront 0%nat) as [-> _]; reflexivity.
      * apply (effects_neutral cap _ Hfront).
      * rewrite length_replace_nth.
        apply (effects_neutral cap _ Hfront).
      * rewrite length_replace_nth, (effects_not_settled _ Hfront).
        destruct (effects_neutral cap _ Hfront 0%nat) as [-> _]; reflexivity.
      * rewrite length_replace_nth; lia.
    + repeat split; cbn [queue active rejection]; auto.
      * rewrite length_replace_nth; exact Hlen.
      * rewrite length_replace_nth; exact Heager.
      * apply Forall_replace_nth; [| exact Ha].
        unfold job_ok; cbn [snd]; exact Hjob.
Qed.

Lemma drain_advances (n : nat) :
  forall pool st,
    pool_ok cap pool ->
    (List.length (queue pool) + List.length (active pool) <= n)%nat ->
    let r := drain rt w cap n pool st in
    advances cap pool (trace st) (fst r) (trace (snd r))
    /\ pool_ok cap (fst r)
    /\ active (fst r) = [].
Proof.
  induction n as [| n IH]; intros pool st Hok Hn r; subst r; cbn [drain].
  - cbn [fst snd]; split; [apply advances_refl | split; [exact Hok |]].
    destruct (active pool); [reflexivity | cbn in Hn; lia].
  - destruct (active pool) as [| [num p] rest] eqn:Hact.
    + split; [apply advances_refl | split; [exact Hok | exact Hact]].
    + pose proof Hok as [Hlen [Heager [Hq [Ha Hrej]]]].
      assert (Hnth : nth_error (active pool) 0 = Some (num, p))
        by (rewrite Hact; reflexivity).
      pose proof (Forall_nth_error _ _ _ _ _ Ha Hnth) as Hjob.
      destruct (run_never_throws rt w _ p Hjob st) as [a Hres].
      destruct (run_effects rt w _ p st) as [front [Htr Hfront]].
      destruct (run rt w p st) as [res st1]; cbn [fst snd] in Hres, Htr.
      subst res; rewrite Hrej.
      pose proof (settle_advances pool st st1 0 num p front Hok Hnth Htr Hfront)
        as [Hadv Hok'].
      rewrite Hact in Hadv, Hok'; cbn [remove_nth] in Hadv, Hok'.
      pose proof (dispatch_advances cap (queue pool) rest None
                    (trace st1 ++ [EvSettle num]))
        as [_ [_ [_ [_ [_ [_ Hfewer]]]]]].
      destruct (dispatch cap (queue pool) rest None (trace st1 ++ [EvSettle num]))
        as [pool' tr'] eqn:Hdispatch.
      cbn [fst snd queue active] in Hadv, Hok', Hfewer.
      specialize (IH pool' (mkSt (store st1) tr') Hok').
      cbn [List.length] in Hn.
      destruct IH as [Hadv2 [Hok2 Hempty]]; [lia |].
      split; [| split; [exact Hok2 | exact Hempty]].
      apply (advances_trans cap pool pool' _ (trace st) tr' _); [| exact Hadv2].
      exact Hadv.
Qed.

Lemma run_pool_advances (schedule : list nat) :
  forall pool st,
    pool_ok cap pool ->
    let r := run_pool rt w cap schedule pool st in
    advances cap pool (trace st) (fst r) (trace (snd r))
    /\ pool_ok cap (fst r)
    /\ active (fst r) = [].
Proof.
  induction schedule as [| choice rest IH]; intros pool st Hok r; subst r;
    cbn [run_pool].
  - apply drain_advances; [exact Hok | lia].
  - destruct (active pool) as [| job others] eqn:Hact.
    + split; [apply advances_refl | split; [exact Hok | exact Hact]].
    + rewrite <- Hact.
      pose proof (turn_advances (choice mod List.length (active pool)) pool st Hok)
        as [Hadv Hok'].
      destruct (turn rt w cap (choice mod List.length (active pool)) pool st)
        as [pool' st'].
      cbn [fst snd] in Hadv, Hok'.
      destruct (IH pool' st' Hok') as [Hadv2 [Hok2 Hempty]].
      split; [| split; [exact Hok2 | exact Hempty]].
      eapply advances_trans; eauto.
Qed.

(** Every job handed to the limiter is started, in order; no more than
    [cap] are ever in flight; all have settled when the call returns, and
    none has rejected. *)
Lemma promise_all_limit_runs_all (jobs : list Job) (st : St) :
  Forall job_ok jobs ->
  let r := promise_all_limit rt w cap jobs st in
  fst r = None
  /\ exists delta,
       trace (snd r) = (trace st ++ delta)%list
       /\ started delta = map fst jobs
       /\ within_cap cap 0 delta
       /\ in_flight_after 0 delta = 0%nat
       /\ List.length (settled_jobs delta) = List.length (started delta).
Proof.
  intros Hjobs r; subst r; unfold promise_all_limit.
  pose proof (dispatch_advances cap jobs [] None (trace st)) as Hadv.
  pose proof (dispatch_ok cap jobs [] (trace st) (Nat.le_0_l cap) Hjobs
                (Forall_nil _)) as Hok.
  destruct (dispatch cap jobs [] None (trace st)) as [pool tr].
  cbn [fst snd] in Hadv, Hok.
  pose proof (run_pool_advances (w_schedule w) pool (mkSt (store st) tr) Hok)
    as [Hadv2 [Hok2 Hempty]].
  destruct (run_pool rt w cap (w_schedule w) pool (mkSt (store st) tr))
    as [pool' st'].
  cbn [fst snd trace] in Hadv2, Hok2, Hempty |- *.
  pose proof (advances_trans cap _ _ _ _ _ _ Hadv Hadv2)
    as [d [E [Hs [W [F [C L]]]]]].
  cbn [queue active List.length] in Hs, W, F, C.
  destruct Hok2 as [_ [Heager [_ [_ Hrej]]]].
  split; [exact Hrej |].
  exists d; split; [exact E |].
  rewrite Hempty in F, C, Heager; cbn [List.length] in F, C, Heager.
  destruct Heager as [Hq | Hcap]; [| lia].
  rewrite Hq in Hs; cbn [map] in Hs; rewrite app_nil_r in Hs.
  split; [exact Hs | split; [exact W | split; [exact F | lia]]].
Qed.

End Limiter.

(** ** The batch call *)

Lemma includes_In (l : list string) (x : string) :
  includes l x = true <-> In x l.
Proof.
  unfold includes; rewrite existsb_exists; split.
  - intros [y [Hin Heq]]; apply String.eqb_eq in Heq; subst; assumption.
  - intros Hin; exists x; split; [assumption | apply String.eqb_refl].
Qed.

Lemma eligible_spec (t : VideoTask) :
  eligible t = true <-> status t = "等待中" \/ status t = "失败".
Proof.
  unfold eligible; rewrite includes_In; simpl; intuition congruence.
Qed.

Lemma targets_of_spec (numbers : option (list string)) (tasks : list VideoTask)
  (t : VideoTask) :
  In t (targets_of numbers tasks)
  <-> In t tasks /\ requested numbers t
      /\ (status t = "等待中" \/ status t = "失败").
Proof.
  unfold targets_of, requested.
  destruct numbers as [[| n ns] |]; cbn [List.length Nat.eqb negb];
    rewrite filter_In, eligible_spec; try tauto.
  rewrite filter_In, includes_In; tauto.
Qed.

Lemma concurrency_positive (settings : ApiSettings) :
  (1 <= Z.to_nat (concurrency settings))%nat.
Proof. unfold concurrency; lia. Qed.

Lemma pipelines_ok (rt : Runtime) (key saveDir : string)
  (targets : list VideoTask) :
  Forall job_ok
    (map (fun task => (number task, processVideoTask rt task key saveDir))
       targets).
Proof.
  apply Forall_map, Forall_forall; intros task _.
  apply processVideoTask_never_throws.
Qed.

(** The three ways a call of [generateVideos] goes. *)
Lemma generateVideos_cases (rt : Runtime) (w : World)
  (numbers : option (list string)) (st : St) :
  let data := store st in
  let targets := targets_of numbers (videoTasks data) in
  let cap := Z.to_nat (concurrency (apiSettings data)) in
  let outcome := generateVideos rt w numbers st in
  (targets = []
   /\ outcome = (inr (mkOutcome false (Some NOTHING_TO_DO)),
                 mkSt (store st) (trace st ++ [EvRead])))
  \/ (targets <> []
      /\ exists e,
           (forall st1, fst (run rt w (pickVideoApiKey rt data) st1) = inl e)
           /\ outcome = (inl e,
                         mkSt (store st)
                           (trace st ++ [EvRead; EvEnv "KIE_API_KEY"])))
  \/ (targets <> []
      /\ exists picked delta,
           (forall st1, fst (run rt w (pickVideoApiKey rt data) st1) = inr picked)
           /\ fst outcome = inr (mkOutcome true None)
           /\ trace (snd outcome)
              = (trace st ++ [EvRead; EvEnv "KIE_API_KEY"] ++ delta)%list
           /\ started delta = map number targets
           /\ within_cap cap 0 delta
           /\ in_flight_after 0 delta = 0%nat
           /\ List.length (settled_jobs delta) = List.length (started delta)).
Proof.
  intros data targets cap outcome; subst outcome.
  unfold generateVideos; cbn [handle event_of]; fold data targets.
  destruct targets as [| t ts] eqn:Htargets; [left; auto | right].
  rewrite run_pickVideoApiKey.
  set (picking := if trimmed_nonblank rt (w_env w "KIE_API_KEY") then _ else _).
  assert (Hpick : forall st1,
             fst (run rt w (pickVideoApiKey rt data) st1) = picking)
    by (intros st1; rewrite run_pickVideoApiKey; reflexivity).
  destruct picking as [e | picked].
  - left; split; [discriminate |].
    exists e; split; [exact Hpick |].
    cbn [trace store]; rewrite <- app_assoc; reflexivity.
  - right; split; [discriminate |].
    fold cap.
    set (jobs := map _ (t :: ts)).
    set (st2 := mkSt _ _).
    pose proof (promise_all_limit_runs_all rt w cap
                  (concurrency_positive (apiSettings data)) jobs st2
                  (pipelines_ok rt _ _ (t :: ts)))
      as [Hnone [delta [Htr [Hstarted [Hcap [Hflight Hsettled]]]]]].
    destruct (promise_all_limit rt w cap jobs st2) as [rej st3].
    cbn [fst snd] in Hnone, Htr; subst rej.
    exists picked, delta; split; [exact Hpick |].
    split; [reflexivity |].
    split; [| split; [| auto]].
    + cbn [snd]; rewrite Htr; subst st2; cbn [trace].
      rewrite <- !app_assoc; reflexivity.
    + rewrite Hstarted; subst jobs; rewrite map_map; reflexivity.
Qed.


(* ================================================================== *)
(** * Further properties of the module and of its callers *)

(** ** One attempt of [fetchJson] *)

Lemma run_fetchJson_attempt (rt : Runtime) (w : World) (url : string)
  (config : AxiosConfig) (timeoutMs retries attempt : Z) (st : St) :
  run rt w (fetchJson_attempt rt url config timeoutMs retries attempt) st
  = match caught rt (w_transport w (attempts (trace st))
                       (request_of url config timeoutMs)) with
    | inr d =>
        (inr (Returned d),
         mkSt (store st)
           (trace st ++ [EvAxios (request_of url config timeoutMs)]))
    | inl error =>
        run rt w (fetchJson_catch rt timeoutMs retries attempt error)
          (mkSt (store st)
             (trace st ++ [EvAxios (request_of url config timeoutMs)]))
    end.
Proof.
  unfold fetchJson_attempt; rewrite run_try_catch, run_bind, run_axios.
  fold (request_of url config timeoutMs).
  destruct (w_transport w (attempts (trace st))
              (request_of url config timeoutMs)) as [s d | c r m | e];
    cbn [caught]; try reflexivity.
  destruct (validateStatus s); [| reflexivity].
  cbn [fst snd]; destruct (400 <=? s); reflexivity.
Qed.

(** X1.  A timeout is not retried: when an attempt of [fetchJson] fails
    with the axios code [ECONNABORTED], the call throws
    [请求超时 (<timeoutMs>ms)] at once, whatever the number of attempts
    allowed; it has made that one attempt, has not waited and has left the
    store alone. *)
Theorem fetchJson_timeout_not_retried (rt : Runtime) (w : World) (st : St)
  (url : string) (config : AxiosConfig) (timeoutMs : Z) (n : nat)
  (r : option (Z * JSON)) (m : string) :
  w_transport w (attempts (trace st)) (request_of url config timeoutMs)
  = AxiosFailure (Some "ECONNABORTED") r m ->
  run rt w (fetchJson rt url config timeoutMs (S n)) st
  = (inl (Error ("请求超时 (" ++ dec timeoutMs ++ "ms)")),
     mkSt (store st) (trace st ++ [EvAxios (request_of url config timeoutMs)])).
Proof.
  intros Hw.
  unfold fetchJson; rewrite fetchJson_from_step, run_bind, run_fetchJson_attempt.
  rewrite Hw; reflexivity.
Qed.

(** X2.  A network failure is not retried: when an attempt fails with an
    axios error that carries no response and whose code is neither
    [ECONNABORTED] nor [ECONNRESET] (a refused connection, a name that does
    not resolve), the call throws [网络请求失败 (<code>): <message>] after
    that one attempt, with [unknown] for a missing or empty code. *)
Theorem fetchJson_network_failure_not_retried (rt : Runtime) (w : World)
  (st : St) (url : string) (config : AxiosConfig) (timeoutMs : Z) (n : nat)
  (c : option string) (m : string) :
  c <> Some "ECONNABORTED" -> c <> Some "ECONNRESET" ->
  w_transport w (attempts (trace st)) (request_of url config timeoutMs)
  = AxiosFailure c None m ->
  run rt w (fetchJson rt url config timeoutMs (S n)) st
  = (inl (Error ("网络请求失败 ("
                 ++ match c with
                    | Some c' => if String.eqb c' "" then "unknown" else c'
                    | None => "unknown"
                    end
                 ++ "): " ++ m)),
     mkSt (store st) (trace st ++ [EvAxios (request_of url config timeoutMs)])).
Proof.
  intros Hab Hre Hw.
  unfold fetchJson; rewrite fetchJson_from_step, run_bind, run_fetchJson_attempt.
  rewrite Hw; cbn [caught].
  unfold fetchJson_catch, code_is; cbn [isAxiosError code response message].
  assert (E1 : match c with Some c' => String.eqb c' "ECONNABORTED" | None => false end = false).
  { destruct c as [c' |]; [| reflexivity].
    apply String.eqb_neq; intros ->; apply Hab; reflexivity. }
  assert (E2 : match c with Some c' => String.eqb c' "ECONNRESET" | None => false end = false).
  { destruct c as [c' |]; [| reflexivity].
    apply String.eqb_neq; intros ->; apply Hre; reflexivity. }
  rewrite E1, E2; cbn [andb]; reflexivity.
Qed.

(** Closes a goal about the transport's answer with a hypothesis that
    names the same attempt differently. *)
Ltac same_attempt H :=
  match goal with
  | |- context [w_transport _ ?n _] =>
      match type of H with
      | context [w_transport _ ?m _] =>
          replace n with m by (cbn; lia); exact H
      end
  end.

(** ** Answers after which [fetchJson] tries again *)

Lemma retry_events_step (req : Request) (unit attempt : Z) (n : nat) :
  retry_events req unit attempt (S (S n))
  = EvAxios req :: EvSleep (attempt * unit)
    :: retry_events req unit (attempt + 1) (S n).
Proof. reflexivity. Qed.

Section Retries.

Variable rt : Runtime.
Variable w : World.
Variable url : string.
Variable config : AxiosConfig.
Variables timeoutMs retries : Z.

Lemma fetchJson_from_reset (remaining : nat) :
  forall attempt lastError st,
    attempt + Z.of_nat remaining = retries ->
    (forall i, (i <= remaining)%nat ->
       exists r m,
         w_transport w (attempts (trace st) + i)
           (request_of url config timeoutMs)
         = AxiosFailure (Some "ECONNRESET") r m) ->
    run rt w (fetchJson_from rt (S remaining) attempt lastError url config
                timeoutMs retries) st
    = (inl (Error ("连接被服务器重置，已重试" ++ dec retries
                   ++ "次。可能原因：图片URL域名被阻止（建议使用postimg.cc等图床）")),
       mkSt (store st)
         (trace st
          ++ retry_events (request_of url config timeoutMs) 2000 attempt
               (S remaining))).
Proof.
  induction remaining as [| remaining IH]; intros attempt lastError st Hleft Hw;
    rewrite fetchJson_from_step, run_bind, run_fetchJson_attempt;
    destruct (Hw O (Nat.le_0_l _)) as [r [m Hw0]];
    rewrite Nat.add_0_r in Hw0; rewrite Hw0; cbn [caught];
    unfold fetchJson_catch, code_is; cbn [isAxiosError code String.eqb Ascii.eqb Bool.eqb].
  - replace (attempt <? retries) with false
      by (symmetry; apply Z.ltb_ge; cbn in Hleft; lia).
    reflexivity.
  - replace (attempt <? retries) with true
      by (symmetry; apply Z.ltb_lt; lia).
    rewrite run_bind, run_sleep; cbn [run store trace].
    rewrite IH.
    + cbn [store trace]; rewrite retry_events_step, <- !app_assoc; reflexivity.
    + lia.
    + intros i Hi; cbn [trace].
      rewrite !attempts_app; cbn.
      destruct (Hw (S i)) as [r' [m' H']]; [lia |].
      exists r', m'; same_attempt H'.
Qed.

Lemma fetchJson_from_server_error (remaining : nat) :
  forall attempt lastError st,
    attempt + Z.of_nat remaining = retries ->
    (forall i, (i <= remaining)%nat ->
       exists s d,
         w_transport w (attempts (trace st) + i)
           (request_of url config timeoutMs)
         = Responded s d /\ 500 <= s) ->
    exists s d,
      w_transport w (attempts (trace st) + remaining)
        (request_of url config timeoutMs) = Responded s d
      /\ run rt w (fetchJson_from rt (S remaining) attempt lastError url config
                     timeoutMs retries) st
         = (inl (Error ("HTTP " ++ dec s ++ ": " ++ body_text rt d)),
            mkSt (store st)
              (trace st
               ++ retry_events (request_of url config timeoutMs) 1000 attempt
                    (S remaining))).
Proof.
  induction remaining as [| remaining IH]; intros attempt lastError st Hleft Hw;
    destruct (Hw O (Nat.le_0_l _)) as [s [d [Hw0 Hs]]];
    rewrite Nat.add_0_r in Hw0.
  - exists s, d; rewrite Nat.add_0_r; split; [exact Hw0 |].
    rewrite fetchJson_from_step, run_bind, run_fetchJson_attempt, Hw0.
    cbn [caught]; unfold validateStatus.
    replace (s <? 500) with false by (symmetry; apply Z.ltb_ge; lia).
    unfold fetchJson_catch, code_is;
      cbn [isAxiosError code response String.eqb Ascii.eqb Bool.eqb].
    replace (500 <=? s) with true by (symmetry; apply Z.leb_le; lia).
    replace (attempt <? retries) with false
      by (symmetry; apply Z.ltb_ge; cbn in Hleft; lia).
    reflexivity.
  - destruct (IH (attempt + 1) (Some (mkExn true "AxiosError"
                  ("Request failed with status code " ++ dec s)
                  (Some "ERR_BAD_RESPONSE") (Some (s, d))))
                (mkSt (store st)
                   (trace st ++ [EvAxios (request_of url config timeoutMs)]
                      ++ [EvSleep (attempt * 1000)])))
      as [s' [d' [Hlast Hrun]]].
    + lia.
    + intros i Hi; cbn [trace].
      rewrite !attempts_app; cbn.
      destruct (Hw (S i)) as [s' [d' H']]; [lia |].
      exists s', d'; same_attempt H'.
    + exists s', d'; split.
      * cbn [trace] in Hlast; rewrite !attempts_app in Hlast; cbn in Hlast.
        same_attempt Hlast.
      * rewrite fetchJson_from_step, run_bind, run_fetchJson_attempt, Hw0.
        cbn [caught]; unfold validateStatus.
        replace (s <? 500) with false by (symmetry; apply Z.ltb_ge; lia).
        unfold fetchJson_catch, code_is;
          cbn [isAxiosError code response String.eqb Ascii.eqb Bool.eqb].
        replace (500 <=? s) with true by (symmetry; apply Z.leb_le; lia).
        replace (attempt <? retries) with true
          by (symmetry; apply Z.ltb_lt; lia).
        cbn [andb]; rewrite run_bind, run_sleep; cbn [run store trace].
        rewrite <- app_assoc, Hrun.
        cbn [store trace]; rewrite retry_events_step, <- !app_assoc.
        reflexivity.
Qed.

(** A transient answer while attempts are left: the loop waits and goes
    on. *)
Lemma fetchJson_attempt_transient (attempt : Z) (st : St) :
  attempt < retries ->
  transient (w_transport w (attempts (trace st))
               (request_of url config timeoutMs)) = true ->
  exists error ms,
    run rt w (fetchJson_attempt rt url config timeoutMs retries attempt) st
    = (inr (Continue error),
       mkSt (store st)
         (trace st ++ [EvAxios (request_of url config timeoutMs); EvSleep ms])).
Proof.
  intros Hleft Ht.
  rewrite run_fetchJson_attempt.
  destruct (w_transport w (attempts (trace st))
              (request_of url config timeoutMs)) as [s d | [c |] r m | e];
    cbn [transient] in Ht; try discriminate.
  - apply Z.leb_le in Ht.
    cbn [caught]; unfold validateStatus.
    replace (400 <=? s) with true by (symmetry; apply Z.leb_le; lia).
    destruct (s <? 500) eqn:E.
    + unfold fetchJson_catch, Error at 1; cbn [isAxiosError].
      replace (attempt <? retries) with true by (symmetry; apply Z.ltb_lt; lia).
      rewrite run_bind, run_sleep; cbn [run store trace].
      rewrite <- app_assoc; eexists; eexists; reflexivity.
    + apply Z.ltb_ge in E.
      unfold fetchJson_catch, code_is;
        cbn [isAxiosError code response String.eqb Ascii.eqb Bool.eqb].
      replace (500 <=? s) with true by (symmetry; apply Z.leb_le; lia).
      replace (attempt <? retries) with true by (symmetry; apply Z.ltb_lt; lia).
      cbn [andb]; rewrite run_bind, run_sleep; cbn [run store trace].
      rewrite <- app_assoc; eexists; eexists; reflexivity.
  - apply String.eqb_eq in Ht; subst c.
    cbn [caught]; unfold fetchJson_catch, code_is;
      cbn [isAxiosError code String.eqb Ascii.eqb Bool.eqb].
    replace (attempt <? retries) with true by (symmetry; apply Z.ltb_lt; lia).
    rewrite run_bind, run_sleep; cbn [run store trace].
    rewrite <- app_assoc; eexists; eexists; reflexivity.
Qed.

Lemma fetchJson_from_recovers (k : nat) :
  forall remaining attempt lastError st s d,
    attempt + Z.of_nat (k + remaining) = retries ->
    (forall i, (i < k)%nat ->
       transient (w_transport w (attempts (trace st) + i)
                    (request_of url config timeoutMs)) = true) ->
    w_transport w (attempts (trace st) + k) (request_of url config timeoutMs)
    = Responded s d ->
    s < 400 ->
    exists st',
      run rt w (fetchJson_from rt (k + S remaining) attempt lastError url config
                  timeoutMs retries) st
      = (inr d, st')
      /\ store st' = store st
      /\ attempts (trace st') = (attempts (trace st) + S k)%nat
      /\ List.length (sleeps (trace st'))
         = (List.length (sleeps (trace st)) + k)%nat.
Proof.
  induction k as [| k IH]; intros remaining attempt lastError st s d Hleft Htr Hw Hs.
  - cbn [Nat.add]; rewrite Nat.add_0_r in Hw.
    rewrite fetchJson_from_step, run_bind, run_fetchJson_attempt, Hw.
    cbn [caught]; unfold validateStatus.
    replace (s <? 500) with true by (symmetry; apply Z.ltb_lt; lia).
    replace (400 <=? s) with false by (symmetry; apply Z.leb_gt; lia).
    eexists; split; [reflexivity |]; cbn [store trace].
    split; [reflexivity |].
    unfold sleeps; rewrite attempts_app, flat_map_app, length_app; cbn.
    split; lia.
  - cbn [Nat.add]; rewrite fetchJson_from_step, run_bind.
    destruct (fetchJson_attempt_transient attempt st) as [error [ms Hrun]].
    + lia.
    + specialize (Htr O (Nat.lt_0_succ k)); rewrite Nat.add_0_r in Htr; exact Htr.
    + rewrite Hrun.
      set (st1 := mkSt _ _).
      assert (Hatt : attempts (trace st1) = S (attempts (trace st))).
      { subst st1; cbn [trace]; rewrite attempts_app; cbn; lia. }
      destruct (IH remaining (attempt + 1) (Some error) st1 s d)
        as [st' [Hrun' [Hstore [Hcount Hwaits]]]].
      * lia.
      * intros i Hi; rewrite Hatt.
        replace (S (attempts (trace st)) + i)%nat
          with (attempts (trace st) + S i)%nat by lia.
        apply Htr; lia.
      * rewrite Hatt.
        replace (S (attempts (trace st)) + k)%nat
          with (attempts (trace st) + S k)%nat by lia.
        exact Hw.
      * exact Hs.
      * exists st'; split; [exact Hrun' |].
        split; [rewrite Hstore; reflexivity |].
        rewrite Hcount, Hwaits, Hatt.
        subst st1; unfold sleeps; cbn [trace].
        rewrite flat_map_app, length_app; cbn.
        split; lia.
Qed.

End Retries.

(** X3.  Connection resets use up the attempts: when every attempt ends
    in [ECONNRESET], [fetchJson] makes exactly [retries] attempts, waits
    [2000 * attempt] milliseconds after each of them but the last, and
    throws the message that names the number of attempts. *)
Theorem fetchJson_reset_exhausts (rt : Runtime) (w : World) (st : St)
  (url : string) (config : AxiosConfig) (timeoutMs : Z) (n : nat) :
  (forall i, (i <= n)%nat ->
     exists r m,
       w_transport w (attempts (trace st) + i) (request_of url config timeoutMs)
       = AxiosFailure (Some "ECONNRESET") r m) ->
  run rt w (fetchJson rt url config timeoutMs (S n)) st
  = (inl (Error ("连接被服务器重置，已重试" ++ dec (Z.of_nat (S n))
                 ++ "次。可能原因：图片URL域名被阻止（建议使用postimg.cc等图床）")),
     mkSt (store st)
       (trace st
        ++ retry_events (request_of url config timeoutMs) 2000 1 (S n))).
Proof.
  intros Hw; unfold fetchJson.
  apply fetchJson_from_reset; [lia | exact Hw].
Qed.

(** X4.  Server errors use up the attempts: when every attempt is
    answered with a status of 500 or more, [fetchJson] makes exactly
    [retries] attempts, waits [1000 * attempt] milliseconds after each of
    them but the last, and throws [HTTP <status>: <body>] for the answer to
    the last attempt. *)
Theorem fetchJson_server_error_exhausts (rt : Runtime) (w : World) (st : St)
  (url : string) (config : AxiosConfig) (timeoutMs : Z) (n : nat) :
  (forall i, (i <= n)%nat ->
     exists s d,
       w_transport w (attempts (trace st) + i) (request_of url config timeoutMs)
       = Responded s d /\ 500 <= s) ->
  exists s d,
    w_transport w (attempts (trace st) + n) (request_of url config timeoutMs)
    = Responded s d
    /\ run rt w (fetchJson rt url config timeoutMs (S n)) st
       = (inl (Error ("HTTP " ++ dec s ++ ": " ++ body_text rt d)),
          mkSt (store st)
            (trace st
             ++ retry_events (request_of url config timeoutMs) 1000 1 (S n))).
Proof.
  intros Hw; unfold fetchJson.
  apply fetchJson_from_server_error; [lia | exact Hw].
Qed.

(** X5.  Recovery: when the first [k] attempts, [k] below [retries], end
    in a connection reset or an HTTP status of 400 or more, and the next
    one is answered with a status below 400, [fetchJson] returns the data
    of that answer, after [k + 1] attempts and [k] waits, the store
    unchanged. *)
Theorem fetchJson_recovers (rt : Runtime) (w : World) (st : St)
  (url : string) (config : AxiosConfig) (timeoutMs : Z) (retries k : nat)
  (s : Z) (d : JSON) :
  (k < retries)%nat ->
  (forall i, (i < k)%nat ->
     transient (w_transport w (attempts (trace st) + i)
                  (request_of url config timeoutMs)) = true) ->
  w_transport w (attempts (trace st) + k) (request_of url config timeoutMs)
  = Responded s d ->
  s < 400 ->
  let outcome := run rt w (fetchJson rt url config timeoutMs retries) st in
  fst outcome = inr d
  /\ store (snd outcome) = store st
  /\ attempts (trace (snd outcome)) = (attempts (trace st) + S k)%nat
  /\ List.length (sleeps (trace (snd outcome)))
     = (List.length (sleeps (trace st)) + k)%nat.
Proof.
  intros Hk Htr Hw Hs outcome; subst outcome; unfold fetchJson.
  destruct (fetchJson_from_recovers rt w url config timeoutMs
              (Z.of_nat retries) k (retries - S k) 1 None st s d)
    as [st' [Hrun H]]; try assumption; [lia |].
  replace (k + S (retries - S k))%nat with retries in Hrun by lia.
  rewrite Hrun; cbn [fst snd]; split; [reflexivity | exact H].
Qed.

(** ** The number of HTTP attempts *)

Lemma calls_at_most_weaken (A : Type) (m : Prog A) :
  forall n n', (n <= n')%nat -> calls_at_most m n -> calls_at_most m n'.
Proof.
  induction m as [a | e | X e k IH]; intros n n' Hle H; cbn in *; auto.
  destruct (is_attempt (event_of e)).
  - destruct n as [| n]; [contradiction |].
    destruct n' as [| n']; [lia |].
    intros x; apply (IH x n n'); [lia | apply H].
  - intros x; apply (IH x n n'); [lia | apply H].
Qed.

Lemma calls_at_most_bind (A B : Type) (m : Prog A) (f : A -> Prog B) (b : nat) :
  (forall x, calls_at_most (f x) b) ->
  forall a, calls_at_most m a -> calls_at_most (bind m f) (a + b).
Proof.
  intros Hf; induction m as [x | e | X e k IH]; intros a H; cbn in *.
  - apply (calls_at_most_weaken _ _ b); [lia | apply Hf].
  - exact I.
  - destruct (is_attempt (event_of e)).
    + destruct a as [| a]; [contradiction |].
      intros x; apply IH, H.
    + intros x; apply IH, H.
Qed.

Lemma calls_at_most_try_catch (A : Type) (m : Prog A) (h : Exn -> Prog A)
  (b : nat) :
  (forall e, calls_at_most (h e) b) ->
  forall a, calls_at_most m a -> calls_at_most (try_catch m h) (a + b).
Proof.
  intros Hh; induction m as [x | e | X e k IH]; intros a H; cbn in *.
  - exact I.
  - apply (calls_at_most_weaken _ _ b); [lia | apply Hh].
  - destruct (is_attempt (event_of e)).
    + destruct a as [| a]; [contradiction |].
      intros x; apply IH, H.
    + intros x; apply IH, H.
Qed.

(** A computation whose events are never HTTP attempts makes none. *)
Lemma calls_at_most_emits (A : Type) (P : Event -> Prop) (m : Prog A) (n : nat) :
  (forall ev, P ev -> is_attempt ev = false) ->
  emits P m -> calls_at_most m n.
Proof.
  intros HP H; induction H as [a | e | X e k Hev Hk IH]; cbn; auto.
  rewrite (HP _ Hev); exact IH.
Qed.

Lemma calls_at_most_update (num : string) (patch : Patch) (n : nat) :
  calls_at_most (updateVideoTask num patch) n.
Proof. cbn; auto. Qed.

Lemma run_calls_at_most (rt : Runtime) (w : World) (A : Type) (m : Prog A) :
  forall n st,
    calls_at_most m n ->
    (attempts (trace (snd (run rt w m st))) <= attempts (trace st) + n)%nat.
Proof.
  induction m as [a | e | X e k IH]; intros n st H; cbn [run snd]; try lia.
  destruct (handle rt w e st) as [x st1] eqn:E.
  assert (Htr : trace st1 = (trace st ++ [event_of e])%list).
  { replace st1 with (snd (handle rt w e st)) by (rewrite E; reflexivity).
    apply handle_trace. }
  cbn [calls_at_most] in H.
  destruct (is_attempt (event_of e)) eqn:Ea.
  - destruct n as [| n]; [contradiction |].
    specialize (IH x n st1 (H x)).
    rewrite Htr, attempts_app in IH; unfold attempts at 3 in IH.
    cbn [filter] in IH; rewrite Ea in IH; cbn in IH; lia.
  - specialize (IH x n st1 (H x)).
    rewrite Htr, attempts_app in IH; unfold attempts at 3 in IH.
    cbn [filter] in IH; rewrite Ea in IH; cbn in IH; lia.
Qed.

Lemma fetchJson_catch_calls (rt : Runtime) (timeoutMs retries attempt : Z)
  (error : Exn) :
  calls_at_most (fetchJson_catch rt timeoutMs retries attempt error) 0.
Proof.
  unfold fetchJson_catch.
  repeat match goal with
         | |- context [if ?c then _ else _] => destruct c
         | |- context [match response ?e with _ => _ end] => destruct (response e) as [[? ?] |]
         end; cbn; auto.
Qed.

Ltac calls_split a b :=
  match goal with
  | |- calls_at_most _ ?n =>
      apply (calls_at_most_weaken _ _ (a + b)%nat n); [cbn; lia |]
  end.

Lemma fetchJson_attempt_calls (rt : Runtime) (url : string)
  (config : AxiosConfig) (timeoutMs retries attempt : Z) :
  calls_at_most (fetchJson_attempt rt url config timeoutMs retries attempt) 1.
Proof.
  unfold fetchJson_attempt.
  calls_split 1%nat 0%nat.
  apply calls_at_most_try_catch; [intros e; apply fetchJson_catch_calls |].
  cbn; intros [s d | c r m | e]; cbn; auto.
  destruct (validateStatus s); cbn; auto.
  destruct (400 <=? s); cbn; auto.
Qed.

Lemma fetchJson_from_calls (rt : Runtime) (url : string) (config : AxiosConfig)
  (timeoutMs retries : Z) (remaining : nat) :
  forall attempt lastError,
    calls_at_most (fetchJson_from rt remaining attempt lastError url config
                     timeoutMs retries) remaining.
Proof.
  induction remaining as [| remaining IH]; intros attempt lastError.
  - exact I.
  - rewrite fetchJson_from_step.
    calls_split 1%nat remaining.
    apply calls_at_most_bind; [| apply fetchJson_attempt_calls].
    intros [data | error]; [exact I | apply IH].
Qed.

(** X6.  Whatever the transport answers, one call of [fetchJson] makes at
    most [retries] HTTP attempts and does not write the store. *)
Theorem fetchJson_attempts_bounded (rt : Runtime) (w : World) (st : St)
  (url : string) (config : AxiosConfig) (timeoutMs : Z) (retries : nat) :
  let st' := snd (run rt w (fetchJson rt url config timeoutMs retries) st) in
  (attempts (trace st') <= attempts (trace st) + retries)%nat
  /\ store st' = store st.
Proof.
  intros st'; subst st'; split.
  - apply run_calls_at_most, fetchJson_from_calls.
  - apply run_fetchJson_effect.
Qed.

Lemma downloadVideo_calls (rt : Runtime) (url num saveDir : string) (n : nat) :
  calls_at_most (downloadVideo rt url num saveDir) n.
Proof.
  apply (calls_at_most_emits _ download_event); [| apply downloadVideo_emits].
  intros [] H; try reflexivity; contradiction.
Qed.

Lemma poll_loop_calls (rt : Runtime) (task : VideoTask)
  (key saveDir pollUrl : string) (remaining : nat) :
  forall pollCount,
    calls_at_most (poll_loop rt remaining pollCount task key saveDir pollUrl)
      (3 * remaining).
Proof.
  induction remaining as [| remaining IH]; intros pollCount.
  - exact I.
  - rewrite poll_loop_step.
    calls_split 0%nat (3 + 3 * remaining)%nat.
    apply calls_at_most_bind; [| cbn; auto].
    intros _; apply calls_at_most_bind; [| apply fetchJson_from_calls].
    intros pollData.
    assert (Hnext : forall patch,
               calls_at_most
                 (bind (updateVideoTask (number task) patch)
                    (fun _ => poll_loop rt remaining (pollCount + 1) task key
                                saveDir pollUrl)) (3 * remaining)).
    { intros patch.
      calls_split 0%nat (3 * remaining)%nat.
      apply calls_at_most_bind; [intros _; apply IH |].
      apply calls_at_most_update. }
    destruct (negb (strict_eq_num (prop (Some pollData) "code") 200));
      [apply Hnext |].
    cbv zeta.
    destruct (strict_eq_num _ 1).
    + calls_split 0%nat 0%nat.
      apply calls_at_most_bind; [| apply calls_at_most_update].
      intros _.
      destruct (negb (truthy _)); [exact I |].
      calls_split 0%nat 0%nat.
      apply calls_at_most_bind; [| apply downloadVideo_calls].
      intros saved.
      calls_split 0%nat 0%nat.
      apply calls_at_most_bind; [intros _; exact I |].
      apply calls_at_most_update.
    + destruct (truthy _); [exact I | apply Hnext].
Qed.

Lemma processVideoTask_calls (rt : Runtime) (task : VideoTask)
  (key saveDir : string) :
  calls_at_most (processVideoTask rt task key saveDir)
    (default_retries + default_retries * maxPollTimes).
Proof.
  unfold processVideoTask.
  calls_split 0%nat (default_retries + 3 * maxPollTimes + 0)%nat.
  apply calls_at_most_bind; [intros _ | apply calls_at_most_update].
  apply calls_at_most_try_catch.
  - intros e; apply calls_at_most_update.
  - unfold processVideoTask_try.
    apply calls_at_most_bind; [| apply fetchJson_from_calls].
    intros generateResponse.
    destruct (negb (truthy _)); [exact I |].
    calls_split 0%nat (3 * maxPollTimes)%nat.
    apply calls_at_most_bind; [intros _; apply poll_loop_calls |].
    apply calls_at_most_update.
Qed.

(** X7.  Whatever the provider answers, one run of [processVideoTask]
    makes at most 363 HTTP attempts to the provider: three for the submit
    call and three for each of the 120 polls. *)
Theorem processVideoTask_requests_bounded (rt : Runtime) (w : World)
  (task : VideoTask) (key saveDir : string) (st : St) :
  (attempts (trace (snd (run rt w (processVideoTask rt task key saveDir) st)))
   <= attempts (trace st) + 363)%nat.
Proof.
  apply (run_calls_at_most rt w _ _ (default_retries + default_retries * maxPollTimes)).
  apply processVideoTask_calls.
Qed.

(** ** The failures a pipeline records *)

Lemma run_processVideoTask_catch (rt : Runtime) (w : World) (task : VideoTask)
  (error : Exn) (st : St) (t : VideoTask) :
  record_of (number task) st = Some t ->
  let out := run rt w (processVideoTask_catch task error) st in
  fst out = inr tt
  /\ trace (snd out)
     = (trace st ++ [EvUpdate (number task) (failed_patch (error_text error))])%list
  /\ exists t',
       record_of (number task) (snd out) = Some t'
       /\ status t' = "失败"
       /\ errorMsg t' = Some (error_text error)
       /\ progress t' = progress t.
Proof.
  intros Hrec out; subst out; unfold processVideoTask_catch.
  fold (error_text error); fold (failed_patch (error_text error)).
  pose proof (record_after_update rt w (number task)
                (failed_patch (error_text error)) st t eq_refl Hrec) as Hrec'.
  rewrite run_updateVideoTask in *; cbn [fst snd trace] in *.
  split; [reflexivity |]; split; [reflexivity |].
  eexists; split; [exact Hrec' |].
  split; [reflexivity |]; split; reflexivity.
Qed.

Section Pipeline.

Variable rt : Runtime.
Variable w : World.
Variable task : VideoTask.
Variables key saveDir : string.

(** The pipeline up to a poll: the submit call is answered with a task
    id and the first [N] polls with a response that is still pending, each
    at its first attempt.  What is left is the poll loop from poll [N + 1]
    on, inside the [try]. *)
Lemma processVideoTask_reaches_poll (st : St) (t0 : VideoTask) (N : nat)
  (s0 : Z) (resp : JSON) :
  record_of (number task) st = Some t0 ->
  w_transport w (attempts (trace st)) (submit_request rt task key)
  = Responded s0 resp ->
  s0 < 400 ->
  truthy (prop (prop (Some resp) "data") "taskId") = true ->
  (N < maxPollTimes)%nat ->
  (forall i, (i < N)%nat ->
     exists si di,
       w_transport w (attempts (trace st) + 1 + i)
         (poll_request (pollUrl_of rt resp) key)
       = Responded si di
       /\ si < 400 /\ still_pending di = true) ->
  exists st4 t4,
    run rt w (processVideoTask rt task key saveDir) st
    = match run rt w (poll_loop rt (S (maxPollTimes - S N)) (Z.of_nat N) task
                        key saveDir (pollUrl_of rt resp)) st4 with
      | (inl e, st') => run rt w (processVideoTask_catch task e) st'
      | (inr a, st') => (inr a, st')
      end
    /\ record_of (number task) st4 = Some t4
    /\ attempts (trace st4) = (attempts (trace st) + 1 + N)%nat.
Proof.
  intros Hrec Hsubmit Hs0 Hid HN Hpend.
  set (a0 := attempts (trace st)) in *.
  unfold processVideoTask.
  rewrite run_bind.
  pose proof (record_after_update rt w (number task)
                (with_progress 5 (with_errorMsg "" (with_status "生成中" no_fields)))
                st t0 eq_refl Hrec) as Hrec1.
  rewrite run_updateVideoTask in *; cbn [snd] in Hrec1.
  set (st1 := mkSt _ (trace st ++ [EvUpdate (number task) _])) in *.
  assert (Hatt1 : attempts (trace st1) = a0).
  { subst st1 a0; cbn [trace]; rewrite attempts_app; cbn; lia. }
  rewrite run_try_catch; unfold processVideoTask_try; rewrite run_bind.
  unfold default_retries.
  rewrite (fetchJson_first_try rt w GENERATE_URL
             (mkAxiosConfig "POST"
                [("Content-Type", "application/json"); auth_header key]
                (Some (payload_of rt task))) 900000 2 st1 s0 resp)
    by (try assumption; rewrite Hatt1; exact Hsubmit).
  set (st2 := mkSt (store st1) _).
  assert (Hatt2 : attempts (trace st2) = S a0).
  { subst st2; cbn [trace]; rewrite attempts_app, Hatt1; cbn; lia. }
  rewrite Hid; cbn [negb].
  rewrite run_bind.
  pose proof (record_after_update rt w (number task)
                (with_progress 15 (with_status "任务已提交，等待处理..." no_fields))
                st2 _ eq_refl Hrec1) as Hrec3.
  rewrite run_updateVideoTask in *; cbn [snd] in Hrec3.
  set (st3 := mkSt _ (trace st2 ++ [EvUpdate (number task) _])) in *.
  assert (Hatt3 : attempts (trace st3) = S a0).
  { subst st3; cbn [trace]; rewrite attempts_app, Hatt2; cbn; lia. }
  cbv zeta; fold (pollUrl_of rt resp).
  destruct (poll_loop_skips_pending rt w task key saveDir (pollUrl_of rt resp) N
              (S (maxPollTimes - S N)) 0 st3 _ Hrec3)
    as [st4 [t4 [Hrun [Hrec4 Hatt4]]]].
  { intros i Hi; destruct (Hpend i Hi) as [si [di H]]; exists si, di.
    rewrite Hatt3; replace (S a0 + i)%nat with (a0 + 1 + i)%nat by lia.
    exact H. }
  replace (N + S (maxPollTimes - S N))%nat with maxPollTimes in Hrun by lia.
  change (0 + Z.of_nat N) with (Z.of_nat N) in Hrun.
  exists st4, t4; split; [rewrite Hrun; reflexivity |].
  split; [exact Hrec4 | lia].
Qed.

End Pipeline.

(** The poll loop entered with at least one iteration left, the poll
    being answered at its first attempt. *)
Lemma poll_loop_first_try (rt : Runtime) (w : World) (task : VideoTask)
  (key saveDir pollUrl : string) (remaining : nat) (pollCount : Z) (st : St)
  (s : Z) (d : JSON) :
  w_transport w (attempts (trace st)) (poll_request pollUrl key)
  = Responded s d ->
  s < 400 ->
  run rt w (poll_loop rt (S remaining) pollCount task key saveDir pollUrl) st
  = run rt w
      (if negb (strict_eq_num (prop (Some d) "code") 200) then
         bind (updateVideoTask (number task)
                 (with_status (polling_status (pollCount + 1)) no_fields))
           (fun _ => poll_loop rt remaining (pollCount + 1) task key
                       saveDir pollUrl)
       else
         let payloadData := nullish_or (prop (Some d) "data") (JObj []) in
         if strict_eq_num (prop (Some payloadData) "successFlag") 1 then
           bind (updateVideoTask (number task) downloading_patch)
             (fun _ =>
                let resultUrls :=
                  nullish_or
                    (prop (prop (Some payloadData) "response") "resultUrls")
                    (JArr []) in
                if negb (truthy (prop (Some resultUrls) "length")) then
                  Throw (Error NO_URL_MESSAGE)
                else
                  let first := js_String rt (prop (Some resultUrls) "0") in
                  bind (downloadVideo rt first (number task) saveDir)
                    (fun saved =>
                       bind (updateVideoTask (number task)
                               (with_errorMsg ""
                                  (with_actualFilename (s_actualFilename saved)
                                     (with_remoteUrl first
                                        (with_localPath (s_localPath saved)
                                           (with_progress 100
                                              (with_status "成功" no_fields)))))))
                         (fun _ => Ret tt)))
         else if truthy (prop (Some payloadData) "errorMessage") then
           Throw (Error (js_String rt (prop (Some payloadData) "errorMessage")))
         else
           bind (updateVideoTask (number task)
                   (with_progress (Z.min 90 (15 + (pollCount + 1) * 2))
                      (with_status (polling_status (pollCount + 1)) no_fields)))
             (fun _ => poll_loop rt remaining (pollCount + 1) task key
                         saveDir pollUrl))
      (mkSt (store st)
         (trace st ++ [EvSleep pollInterval; EvAxios (poll_request pollUrl key)])).
Proof.
  intros Hw Hs.
  rewrite poll_loop_step, run_bind, run_sleep, run_bind.
  unfold default_retries.
  rewrite (fetchJson_first_try rt w pollUrl
             (mkAxiosConfig "GET" [auth_header key] None) 900000 2 _ s d).
  - cbn [store trace]; rewrite <- app_assoc; reflexivity.
  - cbn [trace]; rewrite attempts_app, Nat.add_0_r; exact Hw.
  - exact Hs.
Qed.

(** X8.  A failed submit call is recorded and ends the pipeline: when
    [fetchJson] throws for the submit request, [processVideoTask] returns
    normally, the only thing it does after the failed call is to write the
    failure, and the record has status [失败], the error's message (or its
    string form when the message is empty) as [errorMsg], and the progress
    5 of the first update. *)
Theorem submit_failure_is_recorded (rt : Runtime) (w : World)
  (task : VideoTask) (key saveDir : string) (st : St) (t0 : VideoTask)
  (error : Exn) (st_f : St) :
  record_of (number task) st = Some t0 ->
  run rt w (fetchJson rt GENERATE_URL (submit_config rt task key) 900000
              default_retries)
    (snd (run rt w (updateVideoTask (number task) started_patch) st))
  = (inl error, st_f) ->
  let outcome := run rt w (processVideoTask rt task key saveDir) st in
  fst outcome = inr tt
  /\ trace (snd outcome)
     = (trace st_f
        ++ [EvUpdate (number task) (failed_patch (error_text error))])%list
  /\ exists t',
       record_of (number task) (snd outcome) = Some t'
       /\ status t' = "失败"
       /\ errorMsg t' = Some (error_text error)
       /\ progress t' = Some 5.
Proof.
  intros Hrec Hsubmit outcome; subst outcome.
  pose proof (record_after_update rt w (number task) started_patch st t0
                eq_refl Hrec) as Hrec1.
  pose proof (run_fetchJson_effect rt w GENERATE_URL (submit_config rt task key)
                900000 default_retries
                (snd (run rt w (updateVideoTask (number task) started_patch) st)))
    as [Hstore _].
  rewrite Hsubmit in Hstore; cbn [snd] in Hstore.
  unfold processVideoTask; fold started_patch.
  rewrite run_bind.
  destruct (run rt w (updateVideoTask (number task) started_patch) st)
    as [r st1] eqn:Hupdate.
  rewrite run_updateVideoTask in Hupdate; injection Hupdate as <- Hst1.
  cbn [snd] in *.
  rewrite run_try_catch; unfold processVideoTask_try; rewrite run_bind.
  fold (submit_config rt task key); rewrite Hsubmit.
  assert (Hrec_f : record_of (number task) st_f = Some _)
    by (rewrite (record_of_store _ _ _ Hstore); exact Hrec1).
  destruct (run_processVideoTask_catch rt w task error st_f _ Hrec_f)
    as [Hres [Htr [t' [Hrec' [Hstatus [Hmsg Hprog]]]]]].
  split; [exact Hres |]; split; [exact Htr |].
  exists t'; repeat split; assumption.
Qed.

Section Failures.

Variable rt : Runtime.
Variable w : World.
Variable task : VideoTask.
Variables key saveDir : string.
Variable st : St.
Variable t0 : VideoTask.
Variable N : nat.
Variable s0 : Z.
Variable resp : JSON.
Variable s : Z.
Variable d : JSON.

Hypothesis Hrec : record_of (number task) st = Some t0.
Hypothesis Hsubmit :
  w_transport w (attempts (trace st)) (submit_request rt task key)
  = Responded s0 resp.
Hypothesis Hs0 : s0 < 400.
Hypothesis Hid : truthy (prop (prop (Some resp) "data") "taskId") = true.
Hypothesis HN : (N < maxPollTimes)%nat.
Hypothesis Hpend :
  forall i, (i < N)%nat ->
    exists si di,
      w_transport w (attempts (trace st) + 1 + i)
        (poll_request (pollUrl_of rt resp) key)
      = Responded si di
      /\ si < 400 /\ still_pending di = true.
Hypothesis Hpoll :
  w_transport w (attempts (trace st) + 1 + N)
    (poll_request (pollUrl_of rt resp) key)
  = Responded s d.
Hypothesis Hs : s < 400.

(** The pipeline reduced to what follows the answer [d] of poll [N + 1]. *)
Lemma processVideoTask_at_answer :
  exists st4 t4,
    run rt w (processVideoTask rt task key saveDir) st
    = match run rt w (poll_loop rt (S (maxPollTimes - S N)) (Z.of_nat N) task
                        key saveDir (pollUrl_of rt resp)) st4 with
      | (inl e, st') => run rt w (processVideoTask_catch task e) st'
      | (inr a, st') => (inr a, st')
      end
    /\ record_of (number task) st4 = Some t4
    /\ attempts (trace st4) = (attempts (trace st) + 1 + N)%nat
    /\ w_transport w (attempts (trace st4))
         (poll_request (pollUrl_of rt resp) key) = Responded s d.
Proof.
  destruct (processVideoTask_reaches_poll rt w task key saveDir st t0 N s0 resp
              Hrec Hsubmit Hs0 Hid HN Hpend) as [st4 [t4 [Hrun [Hrec4 Hatt4]]]].
  exists st4, t4; repeat split; try assumption.
  rewrite Hatt4; exact Hpoll.
Qed.

Lemma provider_error_run (m : string) :
  reports_error d m ->
  let outcome := run rt w (processVideoTask rt task key saveDir) st in
  fst outcome = inr tt
  /\ attempts (trace (snd outcome)) = (attempts (trace st) + N + 2)%nat
  /\ exists t',
       record_of (number task) (snd outcome) = Some t'
       /\ status t' = "失败"
       /\ errorMsg t' = Some m.
Proof.
  intros [Hcode [Hflag [Hmsg Hm]]] outcome; subst outcome.
  destruct processVideoTask_at_answer as [st4 [t4 [Hrun [Hrec4 [Hatt4 Hw4]]]]].
  rewrite Hrun, (poll_loop_first_try _ _ _ _ _ _ _ _ _ s d Hw4 Hs).
  rewrite Hcode; cbn [negb]; cbv zeta.
  rewrite Hflag, Hmsg.
  assert (Htruthy : truthy (Some (JStr m)) = true).
  { cbn; apply negb_true_iff, String.eqb_neq; exact Hm. }
  rewrite Htruthy; cbn [js_String run].
  match goal with
  | |- context [run rt w (processVideoTask_catch task ?e) ?st_f] =>
      destruct (run_processVideoTask_catch rt w task e st_f t4 Hrec4)
        as [Hres [Htr [t' [Hrec' [Hstatus [Herr _]]]]]]
  end.
  assert (Htext : error_text (Error m) = m).
  { unfold error_text; cbn [message Error].
    replace (String.eqb m "") with false
      by (symmetry; apply String.eqb_neq; exact Hm).
    reflexivity. }
  rewrite Htext in *.
  split; [exact Hres |]; split.
  - rewrite Htr; cbn [trace].
    rewrite !attempts_app, Hatt4; cbn; lia.
  - exists t'; repeat split; assumption.
Qed.

Lemma success_without_urls_run :
  reports_success_without_urls d ->
  let outcome := run rt w (processVideoTask rt task key saveDir) st in
  fst outcome = inr tt
  /\ (exists before,
        trace (snd outcome)
        = (before
           ++ [EvAxios (poll_request (pollUrl_of rt resp) key);
               EvUpdate (number task) downloading_patch;
               EvUpdate (number task) (failed_patch NO_URL_MESSAGE)])%list)
  /\ exists t',
       record_of (number task) (snd outcome) = Some t'
       /\ status t' = "失败"
       /\ errorMsg t' = Some NO_URL_MESSAGE
       /\ progress t' = Some 95.
Proof.
  intros [Hcode [Hflag Hurls]] outcome; subst outcome.
  destruct processVideoTask_at_answer as [st4 [t4 [Hrun [Hrec4 [Hatt4 Hw4]]]]].
  rewrite Hrun, (poll_loop_first_try _ _ _ _ _ _ _ _ _ s d Hw4 Hs).
  rewrite Hcode; cbn [negb]; cbv zeta.
  rewrite Hflag, Hurls, run_bind.
  set (st_f := mkSt (store st4) _).
  pose proof (record_after_update rt w (number task) downloading_patch st_f t4
                eq_refl Hrec4) as Hrec_u.
  rewrite run_updateVideoTask in *; cbn [snd] in Hrec_u.
  cbn [prop String.eqb Ascii.eqb Bool.eqb List.length Z.of_nat truthy Z.eqb
       negb run].
  match goal with
  | |- context [run rt w (processVideoTask_catch task ?e) ?st_u] =>
      destruct (run_processVideoTask_catch rt w task e st_u _ Hrec_u)
        as [Hres [Htr [t' [Hrec' [Hstatus [Herr Hprog]]]]]]
  end.
  split; [exact Hres |]; split.
  - exists (trace st4 ++ [EvSleep pollInterval])%list.
    rewrite Htr; subst st_f; cbn [trace].
    rewrite <- !app_assoc; reflexivity.
  - exists t'; repeat split; assumption.
Qed.

Lemma download_failure_run (u : string) (msg : string) :
  reports_success d u ->
  (forall st1, exists e,
      fst (run rt w (downloadVideo rt u (number task) saveDir) st1) = inl e
      /\ error_text e = msg) ->
  let outcome := run rt w (processVideoTask rt task key saveDir) st in
  fst outcome = inr tt
  /\ exists t',
       record_of (number task) (snd outcome) = Some t'
       /\ status t' = "失败"
       /\ errorMsg t' = Some msg
       /\ progress t' = Some 95.
Proof.
  intros [Hcode [Hflag [rest Hurls]]] Hdownload outcome; subst outcome.
  destruct processVideoTask_at_answer as [st4 [t4 [Hrun [Hrec4 [Hatt4 Hw4]]]]].
  rewrite Hrun, (poll_loop_first_try _ _ _ _ _ _ _ _ _ s d Hw4 Hs).
  rewrite Hcode; cbn [negb]; cbv zeta.
  rewrite Hflag, Hurls, run_bind.
  set (st_f := mkSt (store st4) _).
  pose proof (record_after_update rt w (number task) downloading_patch st_f t4
                eq_refl Hrec4) as Hrec_u.
  rewrite run_updateVideoTask in *; cbn [snd] in Hrec_u.
  set (st_u := mkSt _ (trace st_f ++ [EvUpdate (number task) downloading_patch])) in *.
  cbn [prop String.eqb Ascii.eqb Bool.eqb hd_error List.length truthy js_String].
  replace (negb (negb (Z.of_nat (S (List.length rest)) =? 0))) with false
    by (symmetry; apply negb_false_iff, negb_true_iff, Z.eqb_neq; lia).
  rewrite run_bind.
  destruct (Hdownload st_u) as [e [Hfail Htext]].
  pose proof (run_downloadVideo_effect rt w u (number task) saveDir st_u)
    as [Hstore_d _].
  destruct (run rt w (downloadVideo rt u (number task) saveDir) st_u)
    as [res st_d].
  cbn [fst snd] in Hfail, Hstore_d; subst res.
  assert (Hrec_d : record_of (number task) st_d = Some _)
    by (rewrite (record_of_store _ _ _ Hstore_d); exact Hrec_u).
  destruct (run_processVideoTask_catch rt w task e st_d _ Hrec_d)
    as [Hres [Htr [t' [Hrec' [Hstatus [Herr Hprog]]]]]].
  rewrite Htext in *.
  split; [exact Hres |].
  exists t'; repeat split; assumption.
Qed.

End Failures.

(** X9.  A provider error ends the pipeline: after a submit call answered
    with a task id and [N] pending polls, a poll answered with [code] 200, a
    [successFlag] other than 1 and a non-empty [errorMessage] makes the
    record [失败] with that message as [errorMsg], and no further request is
    sent. *)
Theorem provider_error_is_recorded (rt : Runtime) (w : World)
  (task : VideoTask) (key saveDir : string) (st : St) (t0 : VideoTask)
  (N : nat) (s0 : Z) (resp : JSON) (s : Z) (d : JSON) (m : string) :
  record_of (number task) st = Some t0 ->
  w_transport w (attempts (trace st)) (submit_request rt task key)
  = Responded s0 resp ->
  s0 < 400 ->
  truthy (prop (prop (Some resp) "data") "taskId") = true ->
  (N < maxPollTimes)%nat ->
  (forall i, (i < N)%nat ->
     exists si di,
       w_transport w (attempts (trace st) + 1 + i)
         (poll_request (pollUrl_of rt resp) key)
       = Responded si di
       /\ si < 400 /\ still_pending di = true) ->
  w_transport w (attempts (trace st) + 1 + N)
    (poll_request (pollUrl_of rt resp) key)
  = Responded s d ->
  s < 400 ->
  reports_error d m ->
  let outcome := run rt w (processVideoTask rt task key saveDir) st in
  fst outcome = inr tt
  /\ attempts (trace (snd outcome)) = (attempts (trace st) + N + 2)%nat
  /\ exists t',
       record_of (number task) (snd outcome) = Some t'
       /\ status t' = "失败"
       /\ errorMsg t' = Some m.
Proof.
  intros Hrec Hsubmit Hs0 Hid HN Hpend Hpoll Hs; revert m.
  exact (provider_error_run rt w task key saveDir st t0 N s0 resp s d
           Hrec Hsubmit Hs0 Hid HN Hpend Hpoll Hs).
Qed.

(** X10.  Success without a video is a failure: a poll answered with
    [code] 200 and [successFlag] 1 but no result URL makes the record
    [失败] with [查询接口未返回视频链接]; the progress 95 written just before
    stays, and between the poll and the failure nothing is done but these
    two store updates, so no download is attempted. *)
Theorem success_without_urls_is_recorded (rt : Runtime) (w : World)
  (task : VideoTask) (key saveDir : string) (st : St) (t0 : VideoTask)
  (N : nat) (s0 : Z) (resp : JSON) (s : Z) (d : JSON) :
  record_of (number task) st = Some t0 ->
  w_transport w (attempts (trace st)) (submit_request rt task key)
  = Responded s0 resp ->
  s0 < 400 ->
  truthy (prop (prop (Some resp) "data") "taskId") = true ->
  (N < maxPollTimes)%nat ->
  (forall i, (i < N)%nat ->
     exists si di,
       w_transport w (attempts (trace st) + 1 + i)
         (poll_request (pollUrl_of rt resp) key)
       = Responded si di
       /\ si < 400 /\ still_pending di = true) ->
  w_transport w (attempts (trace st) + 1 + N)
    (poll_request (pollUrl_of rt resp) key)
  = Responded s d ->
  s < 400 ->
  reports_success_without_urls d ->
  let outcome := run rt w (processVideoTask rt task key saveDir) st in
  fst outcome = inr tt
  /\ (exists before,
        trace (snd outcome)
        = (before
           ++ [EvAxios (poll_request (pollUrl_of rt resp) key);
               EvUpdate (number task) downloading_patch;
               EvUpdate (number task) (failed_patch NO_URL_MESSAGE)])%list)
  /\ exists t',
       record_of (number task) (snd outcome) = Some t'
       /\ status t' = "失败"
       /\ errorMsg t' = Some NO_URL_MESSAGE
       /\ progress t' = Some 95.
Proof.
  intros Hrec Hsubmit Hs0 Hid HN Hpend Hpoll Hs.
  exact (success_without_urls_run rt w task key saveDir st t0 N s0 resp s d
           Hrec Hsubmit Hs0 Hid HN Hpend Hpoll Hs).
Qed.

(** X11.  A failed download is recorded: when the poll reports success
    with a result URL and [downloadVideo] throws, the record ends with
    status [失败], the download error's message as [errorMsg] and the
    progress 95. *)
Theorem download_failure_is_recorded (rt : Runtime) (w : World)
  (task : VideoTask) (key saveDir : string) (st : St) (t0 : VideoTask)
  (N : nat) (s0 : Z) (resp : JSON) (s : Z) (d : JSON) (u msg : string) :
  record_of (number task) st = Some t0 ->
  w_transport w (attempts (trace st)) (submit_request rt task key)
  = Responded s0 resp ->
  s0 < 400 ->
  truthy (prop (prop (Some resp) "data") "taskId") = true ->
  (N < maxPollTimes)%nat ->
  (forall i, (i < N)%nat ->
     exists si di,
       w_transport w (attempts (trace st) + 1 + i)
         (poll_request (pollUrl_of rt resp) key)
       = Responded si di
       /\ si < 400 /\ still_pending di = true) ->
  w_transport w (attempts (trace st) + 1 + N)
    (poll_request (pollUrl_of rt resp) key)
  = Responded s d ->
  s < 400 ->
  reports_success d u ->
  (forall st1, exists e,
      fst (run rt w (downloadVideo rt u (number task) saveDir) st1) = inl e
      /\ error_text e = msg) ->
  let outcome := run rt w (processVideoTask rt task key saveDir) st in
  fst outcome = inr tt
  /\ exists t',
       record_of (number task) (snd outcome) = Some t'
       /\ status t' = "失败"
       /\ errorMsg t' = Some msg
       /\ progress t' = Some 95.
Proof.
  intros Hrec Hsubmit Hs0 Hid HN Hpend Hpoll Hs.
  exact (download_failure_run rt w task key saveDir st t0 N s0 resp s d
           Hrec Hsubmit Hs0 Hid HN Hpend Hpoll Hs u msg).
Qed.

(** ** What a pipeline leaves alone *)

Lemma same_job_refl (t : VideoTask) : same_job t t.
Proof. unfold same_job; repeat split. Qed.

Lemma same_job_trans (a b c : VideoTask) :
  same_job a b -> same_job b c -> same_job a c.
Proof.
  unfold same_job; intros H1 H2.
  repeat match goal with H : _ /\ _ |- _ => destruct H end.
  repeat split; congruence.
Qed.

Lemma changes_within_refl (nums : list string) (data : AppData) :
  changes_within nums data data.
Proof.
  unfold changes_within; repeat split.
  induction (videoTasks data) as [| t rest IH]; constructor; auto.
  split; [apply same_job_refl | reflexivity].
Qed.

Lemma changes_within_trans (nums : list string) (a b c : AppData) :
  changes_within nums a b -> changes_within nums b c -> changes_within nums a c.
Proof.
  unfold changes_within.
  intros [Ha1 [Ha2 [Ha3 Hab]]] [Hb1 [Hb2 [Hb3 Hbc]]].
  repeat split; try congruence.
  revert Hbc; generalize (videoTasks c).
  induction Hab as [| x y l l' [Hjob Hother] _ IH]; intros l'' Hbc;
    inversion Hbc as [| y' z m m' [Hjob' Hother'] Hrest]; subst; constructor.
  - split; [eapply same_job_trans; eassumption |].
    intros Hnum.
    assert (E : y = x) by auto.
    subst y; auto.
  - apply IH; assumption.
Qed.

Lemma same_job_assign (t : VideoTask) (patch : Patch) (now : string) :
  state_patch patch -> same_job t (Object_assign t patch now).
Proof.
  unfold state_patch, same_job, Object_assign; cbn.
  intros H.
  repeat match goal with H : _ /\ _ |- _ => destruct H end.
  repeat match goal with H : _ = None |- _ => rewrite H; clear H end.
  repeat split.
Qed.

Lemma changes_within_mutator (nums : list string) (now num : string)
  (patch : Patch) (data : AppData) :
  In num nums -> state_patch patch ->
  changes_within nums data (updateVideoTask_mutator now num patch data).
Proof.
  intros Hin Hp; unfold updateVideoTask_mutator.
  destruct (find _ (videoTasks data)); [| apply changes_within_refl].
  unfold changes_within; cbn [apiSettings videoSettings keyLibrary videoTasks].
  repeat split.
  induction (videoTasks data) as [| t rest IH]; cbn [mutate_first];
    [constructor |].
  destruct (String.eqb (number t) num) eqn:E.
  - constructor.
    + split; [apply same_job_assign; exact Hp |].
      apply String.eqb_eq in E; subst num; intros Hne; contradiction.
    + clear IH; induction rest as [| x rest IH]; constructor; auto.
      split; [apply same_job_refl | reflexivity].
  - constructor; [| exact IH].
    split; [apply same_job_refl | reflexivity].
Qed.

Lemma handle_changes_within (rt : Runtime) (w : World) (nums : list string)
  (X : Type) (e : Eff X) (st : St) :
  scoped_update nums (event_of e) ->
  changes_within nums (store st) (store (snd (handle rt w e st))).
Proof.
  intros Hev.
  destruct e; cbn [handle snd store]; try apply changes_within_refl.
  cbn [event_of scoped_update] in Hev; destruct Hev as [Hin Hp].
  apply changes_within_mutator; assumption.
Qed.

Lemma grows_by_refl (P : Event -> Prop) (st : St) : grows_by P st st.
Proof. exists []; rewrite app_nil_r; split; [reflexivity | constructor]. Qed.

Lemma grows_by_trans (P : Event -> Prop) (a b c : St) :
  grows_by P a b -> grows_by P b c -> grows_by P a c.
Proof.
  intros [n1 [H1 F1]] [n2 [H2 F2]]; exists (n1 ++ n2)%list; split.
  - rewrite H2, H1, app_assoc; reflexivity.
  - apply Forall_app; split; assumption.
Qed.

Lemma grows_by_handle (rt : Runtime) (w : World) (P : Event -> Prop)
  (X : Type) (e : Eff X) (st : St) :
  P (event_of e) -> grows_by P st (snd (handle rt w e st)).
Proof.
  intros H; exists [event_of e]; split; [apply handle_trace |].
  constructor; [left; exact H | constructor].
Qed.

Lemma grows_by_marks (P : Event -> Prop) (st : St) (marks : list Event) :
  Forall is_mark marks ->
  grows_by P st (mkSt (store st) (trace st ++ marks)).
Proof.
  intros H; exists marks; split; [reflexivity |].
  eapply Forall_impl; [| exact H]; intros ev Hev; right; exact Hev.
Qed.

Lemma emits_always (P : Event -> Prop) (A : Type) (m : Prog A) :
  emits P m -> always P m.
Proof.
  intros H; induction H as [a | e | X e k Hev Hk IH]; cbn; auto.
Qed.

(** ** The events of a pipeline *)

Ltac state_fields := unfold state_patch; cbn; repeat split.

Section PipelineEvents.

Variable rt : Runtime.
Variable task : VideoTask.
Variables key saveDir : string.
Variable P : Event -> Prop.

Hypothesis P_update :
  forall patch, state_patch patch -> P (EvUpdate (number task) patch).
Hypothesis P_sleep : forall ms, P (EvSleep ms).
Hypothesis P_submit : P (EvAxios (submit_request rt task key)).
Hypothesis P_poll :
  forall id, P (EvAxios (poll_request (RECORD_URL ++ "?taskId=" ++ id) key)).
Hypothesis P_download :
  forall url, emits P (downloadVideo rt url (number task) saveDir).

Lemma updateVideoTask_event (patch : Patch) :
  state_patch patch -> emits P (updateVideoTask (number task) patch).
Proof. intros H; apply emits_await, P_update, H. Qed.

Lemma poll_loop_events (id : string) (remaining : nat) :
  forall pollCount,
    emits P (poll_loop rt remaining pollCount task key saveDir
               (RECORD_URL ++ "?taskId=" ++ id)).
Proof.
  induction remaining as [| remaining IH]; intros pollCount;
    [constructor |].
  rewrite poll_loop_step.
  apply emits_bind; [apply emits_await, P_sleep | intros _].
  apply emits_bind.
  { eapply emits_weaken; [| apply fetchJson_emits].
    intros ev [-> | [ms ->]]; [apply P_poll | apply P_sleep]. }
  intros pollData.
  destruct (negb (strict_eq_num (prop (Some pollData) "code") 200)).
  - apply emits_bind;
      [apply updateVideoTask_event; state_fields | intros _; apply IH].
  - cbv zeta; destruct (strict_eq_num _ 1).
    + apply emits_bind; [apply updateVideoTask_event; state_fields | intros _].
      destruct (negb (truthy _)); [constructor |].
      apply emits_bind; [apply P_download | intros saved].
      apply emits_bind; [apply updateVideoTask_event; state_fields |].
      intros _; constructor.
    + destruct (truthy _); [constructor |].
      apply emits_bind;
        [apply updateVideoTask_event; state_fields | intros _; apply IH].
Qed.

Lemma processVideoTask_events :
  emits P (processVideoTask rt task key saveDir).
Proof.
  unfold processVideoTask.
  apply emits_bind; [apply updateVideoTask_event; state_fields | intros _].
  apply emits_try_catch.
  - unfold processVideoTask_try.
    apply emits_bind.
    { eapply emits_weaken; [| apply fetchJson_emits].
      intros ev [-> | [ms ->]]; [apply P_submit | apply P_sleep]. }
    intros generateResponse.
    destruct (negb (truthy _)); [constructor |].
    apply emits_bind; [apply updateVideoTask_event; state_fields | intros _].
    apply poll_loop_events.
  - intros e; unfold processVideoTask_catch.
    apply updateVideoTask_event; state_fields.
Qed.

End PipelineEvents.

Lemma processVideoTask_scoped (rt : Runtime) (task : VideoTask)
  (key saveDir : string) (nums : list string) :
  In (number task) nums ->
  emits (scoped_update nums) (processVideoTask rt task key saveDir).
Proof.
  intros Hnum; apply processVideoTask_events; cbn; auto.
  intros url; eapply emits_weaken; [| apply downloadVideo_emits].
  intros [] Hev; try exact I; contradiction.
Qed.

(** X12.  Whatever happens, [processVideoTask] leaves the settings and
    the key library as they are, keeps the tasks in place with their
    number, prompt and other request fields, and does not change any task
    whose number is not its own. *)
Theorem processVideoTask_changes_only_its_task (rt : Runtime) (w : World)
  (task : VideoTask) (key saveDir : string) (st : St) :
  changes_within [number task] (store st)
    (store (snd (run rt w (processVideoTask rt task key saveDir) st))).
Proof.
  pose proof (emits_always _ _ _
                (processVideoTask_scoped rt task key saveDir [number task]
                   (or_introl eq_refl))) as H.
  revert st H; generalize (processVideoTask rt task key saveDir).
  induction p as [a | e | X e k IH]; intros st H; cbn [run snd];
    try apply changes_within_refl.
  destruct H as [Hev Hk].
  pose proof (handle_changes_within rt w [number task] X e st Hev) as Hstep.
  destruct (handle rt w e st) as [x st1]; cbn [snd] in Hstep.
  apply (changes_within_trans _ _ (store st1)); [exact Hstep |].
  apply IH, Hk.
Qed.

(** X22.  Whatever happens, every HTTP attempt of a pipeline is either
    its submit request (a POST of the task's payload to the generate URL)
    or a GET of the record URL with a [taskId] query, both with the bearer
    key; a retry repeats the same request. *)
Theorem processVideoTask_requests (rt : Runtime) (w : World)
  (task : VideoTask) (key saveDir : string) (st : St) :
  exists new,
    trace (snd (run rt w (processVideoTask rt task key saveDir) st))
    = (trace st ++ new)%list
    /\ Forall (provider_request rt task key) new.
Proof.
  apply run_emits, processVideoTask_events; cbn; auto.
  - intros id; right; exists id; reflexivity.
  - intros url; eapply emits_weaken; [| apply downloadVideo_emits].
    intros [] Hev; try exact I; contradiction.
Qed.

(** ** What a batch preserves *)

Lemma dispatch_always (P : Event -> Prop) (cap : nat) (waiting : list Job) :
  forall running rej tr,
    jobs_always P waiting -> jobs_always P running ->
    pool_always P (fst (dispatch cap waiting running rej tr)).
Proof.
  unfold pool_always, jobs_always.
  induction waiting as [| job waiting' IH]; intros running rej tr Hw Hr.
  - cbn; auto.
  - cbn [dispatch].
    inversion Hw as [| j l Hjob Hrest]; subst.
    destruct (List.length running <? cap)%nat; [| cbn; auto].
    destruct job as [num [a | e | X e k]]; cbn [snd fst]; apply IH; auto.
    apply Forall_app; split; auto.
Qed.

Lemma dispatch_marks (cap : nat) (waiting : list Job) :
  forall running rej tr,
    exists marks,
      snd (dispatch cap waiting running rej tr) = (tr ++ marks)%list
      /\ Forall is_mark marks.
Proof.
  induction waiting as [| job waiting' IH]; intros running rej tr.
  - exists []; cbn; rewrite app_nil_r; split; [reflexivity | constructor].
  - cbn [dispatch].
    destruct (List.length running <? cap)%nat;
      [| exists []; cbn; rewrite app_nil_r; split; [reflexivity | constructor]].
    destruct job as [num [a | e | X e k]]; cbn [snd fst];
      match goal with
      | |- context [dispatch cap waiting' ?r ?j (tr ++ ?front)] =>
          destruct (IH r j (tr ++ front)%list) as [marks [Htr Hmarks]];
          exists (front ++ marks)%list; split;
          [rewrite Htr, app_assoc; reflexivity |
           apply Forall_app; split; [repeat constructor | exact Hmarks]]
      end.
Qed.

Section BatchInvariant.

Variable rt : Runtime.
Variable w : World.
Variable cap : nat.
Variable P : Event -> Prop.
Variable R : St -> St -> Prop.

Hypothesis R_refl : forall st, R st st.
Hypothesis R_trans : forall a b c, R a b -> R b c -> R a c.
Hypothesis R_handle :
  forall (X : Type) (e : Eff X) st,
    P (event_of e) -> R st (snd (handle rt w e st)).
Hypothesis R_marks :
  forall st marks,
    Forall is_mark marks -> R st (mkSt (store st) (trace st ++ marks)).

Lemma run_invariant (A : Type) (m : Prog A) :
  always P m -> forall st, R st (snd (run rt w m st)).
Proof.
  induction m as [a | e | X e k IH]; intros H st; cbn [run snd];
    try apply R_refl.
  destruct H as [Hev Hk].
  pose proof (R_handle X e st Hev) as Hstep.
  destruct (handle rt w e st) as [x st1]; cbn [snd] in Hstep.
  apply (R_trans _ st1); [exact Hstep | apply IH, Hk].
Qed.

(** A job settles and the queue moves up. *)
Lemma settle_invariant (waiting running : list Job) (rej : option Exn)
  (st1 : St) (num : string) :
  jobs_always P waiting -> jobs_always P running ->
  let r := dispatch cap waiting running rej (trace st1 ++ [EvSettle num]) in
  pool_always P (fst r) /\ R st1 (mkSt (store st1) (snd r)).
Proof.
  intros Hw Hr r; subst r; split; [apply dispatch_always; assumption |].
  destruct (dispatch_marks cap waiting running rej (trace st1 ++ [EvSettle num]))
    as [marks [Htr Hmarks]].
  rewrite Htr, <- app_assoc.
  apply R_marks; constructor; [exact I | exact Hmarks].
Qed.

Lemma turn_invariant (i : nat) (pool : Pool) (st : St) :
  pool_always P pool ->
  let r := turn rt w cap i pool st in
  pool_always P (fst r) /\ R st (snd r).
Proof.
  intros [Hq Ha] r; subst r; unfold turn.
  destruct (nth_error (active pool) i) as [[num [a | err | X e k]] |] eqn:Hnth;
    try (split; [split; assumption | apply R_refl]).
  pose proof (Forall_nth_error _ _ _ _ _ Ha Hnth) as Hjob.
  cbn [snd always] in Hjob; destruct Hjob as [Hev Hk].
  pose proof (R_handle X e st Hev) as Hstep.
  destruct (handle rt w e st) as [x st1]; cbn [snd] in Hstep.
  specialize (Hk x).
  destruct (k x) as [a | err | Y e' k'] eqn:Hkx.
  - pose proof (settle_invariant (queue pool) (remove_nth i (active pool))
                  (rejection pool) st1 num Hq
                  (Forall_remove_nth _ _ _ i Ha)) as [Hpool Hsettle].
    destruct (dispatch cap (queue pool) (remove_nth i (active pool))
                (rejection pool) (trace st1 ++ [EvSettle num])) as [pool' tr'].
    cbn [fst snd] in *; split; [exact Hpool |].
    apply (R_trans _ st1); assumption.
  - pose proof (settle_invariant (queue pool) (remove_nth i (active pool))
                  (first_rejection (rejection pool) err) st1 num Hq
                  (Forall_remove_nth _ _ _ i Ha)) as [Hpool Hsettle].
    destruct (dispatch cap (queue pool) (remove_nth i (active pool))
                (first_rejection (rejection pool) err)
                (trace st1 ++ [EvSettle num])) as [pool' tr'].
    cbn [fst snd] in *; split; [exact Hpool |].
    apply (R_trans _ st1); assumption.
  - cbn [fst snd]; split; [| exact Hstep].
    split; cbn [queue active]; [exact Hq |].
    apply Forall_replace_nth; [exact Hk | exact Ha].
Qed.

Lemma drain_invariant (n : nat) :
  forall pool st,
    pool_always P pool -> R st (snd (drain rt w cap n pool st)).
Proof.
  induction n as [| n IH]; intros pool st [Hq Ha]; cbn [drain].
  - apply R_refl.
  - destruct (active pool) as [| [num p] rest] eqn:Hact; [apply R_refl |].
    inversion Ha as [| j l Hjob Hrest]; subst.
    pose proof (run_invariant _ p Hjob st) as Hrun.
    destruct (run rt w p st) as [res st1]; cbn [snd] in Hrun.
    match goal with
    | |- context [dispatch cap (queue pool) rest ?rej ?tr] =>
        pose proof (settle_invariant (queue pool) rest rej st1 num Hq Hrest)
          as [Hpool Hsettle];
        destruct (dispatch cap (queue pool) rest rej tr) as [pool' tr']
    end.
    cbn [fst snd] in Hpool, Hsettle.
    apply (R_trans _ st1); [exact Hrun |].
    apply (R_trans _ (mkSt (store st1) tr')); [exact Hsettle |].
    apply IH; exact Hpool.
Qed.

Lemma run_pool_invariant (schedule : list nat) :
  forall pool st,
    pool_always P pool -> R st (snd (run_pool rt w cap schedule pool st)).
Proof.
  induction schedule as [| choice rest IH]; intros pool st Hok; cbn [run_pool].
  - apply drain_invariant; exact Hok.
  - destruct (active pool) as [| job others] eqn:Hact; [apply R_refl |].
    rewrite <- Hact.
    pose proof (turn_invariant (choice mod List.length (active pool)) pool st Hok)
      as [Hok' Hstep].
    destruct (turn rt w cap (choice mod List.length (active pool)) pool st)
      as [pool' st'].
    cbn [fst snd] in Hok', Hstep.
    apply (R_trans _ st'); [exact Hstep | apply IH; exact Hok'].
Qed.

Lemma promise_all_limit_invariant (jobs : list Job) (st : St) :
  jobs_always P jobs -> R st (snd (promise_all_limit rt w cap jobs st)).
Proof.
  intros Hjobs; unfold promise_all_limit.
  pose proof (dispatch_always P cap jobs [] None (trace st) Hjobs (Forall_nil _))
    as Hpool.
  destruct (dispatch_marks cap jobs [] None (trace st)) as [marks [Htr Hmarks]].
  destruct (dispatch cap jobs [] None (trace st)) as [pool tr].
  cbn [fst snd] in Hpool, Htr; subst tr.
  pose proof (run_pool_invariant (w_schedule w) pool
                (mkSt (store st) (trace st ++ marks)) Hpool) as Hrun.
  destruct (run_pool rt w cap (w_schedule w) pool
              (mkSt (store st) (trace st ++ marks))) as [pool' st'].
  cbn [snd] in *.
  apply (R_trans _ (mkSt (store st) (trace st ++ marks)));
    [apply R_marks; exact Hmarks | exact Hrun].
Qed.

End BatchInvariant.

(** What holds of the read of the store, of the key lookup and of every
    pipeline holds of the batch. *)
Lemma generateVideos_invariant (rt : Runtime) (w : World) (P : Event -> Prop)
  (R : St -> St -> Prop) (numbers : option (list string)) (st : St) :
  (forall st, R st st) ->
  (forall a b c, R a b -> R b c -> R a c) ->
  (forall (X : Type) (e : Eff X) st,
      P (event_of e) -> R st (snd (handle rt w e st))) ->
  (forall st marks,
      Forall is_mark marks -> R st (mkSt (store st) (trace st ++ marks))) ->
  P EvRead -> P (EvEnv "KIE_API_KEY") ->
  (forall task key,
      In task (targets_of numbers (videoTasks (store st))) ->
      emits P (processVideoTask rt task key
                 (resolveSaveDir rt (savePath (videoSettings (store st)))))) ->
  R st (snd (generateVideos rt w numbers st)).
Proof.
  intros R_refl R_trans R_handle R_marks Hread Henv Hjobs.
  unfold generateVideos.
  pose proof (R_handle _ EReadAppData st Hread) as Hstep.
  cbn [handle snd] in Hstep |- *; cbv zeta.
  set (st1 := mkSt (store st) (trace st ++ [event_of EReadAppData])) in *.
  destruct (targets_of numbers (videoTasks (store st))) as [| t rest] eqn:Ht;
    [exact Hstep |].
  assert (Hkey : always P (pickVideoApiKey rt (store st))).
  { unfold pickVideoApiKey, await; cbn [bind always event_of].
    split; [exact Henv | intros envKey].
    destruct (trimmed_nonblank rt envKey); [exact I |].
    destruct (trimmed_nonblank rt _); [exact I |].
    destruct (find _ _); exact I. }
  pose proof (run_invariant rt w P R R_refl R_trans R_handle _ _ Hkey st1)
    as Hpick.
  destruct (run rt w (pickVideoApiKey rt (store st)) st1) as [[err | picked] st2];
    cbn [snd] in Hpick |- *; [apply (R_trans _ st1); assumption |].
  match goal with
  | |- context [promise_all_limit rt w ?cap ?jobs st2] =>
      pose proof (promise_all_limit_invariant rt w cap P R R_refl R_trans
                    R_handle R_marks jobs st2) as Hall;
      destruct (promise_all_limit rt w cap jobs st2) as [[err |] st3]
  end.
  all: cbn [snd] in *.
  all: apply (R_trans _ st1); [exact Hstep |].
  all: apply (R_trans _ st2); [exact Hpick |].
  all: apply Hall; unfold jobs_always; apply Forall_map, Forall_forall.
  all: intros task Hin; cbn [snd]; apply emits_always, Hjobs; exact Hin.
Qed.

(** X13.  Whatever happens, a batch changes nothing but the state of its
    targets: the settings and the key library are the same afterwards, the
    tasks are the same jobs in the same order, and a task whose number is not
    the number of a target is the same record. *)
Theorem generateVideos_changes_only_its_targets (rt : Runtime) (w : World)
  (numbers : option (list string)) (st : St) :
  changes_within
    (map number (targets_of numbers (videoTasks (store st))))
    (store st) (store (snd (generateVideos rt w numbers st))).
Proof.
  set (nums := map number (targets_of numbers (videoTasks (store st)))).
  apply (generateVideos_invariant rt w (scoped_update nums)
           (fun a b => changes_within nums (store a) (store b))).
  - intros a; apply changes_within_refl.
  - intros a b c; apply changes_within_trans.
  - intros X e a; apply handle_changes_within.
  - intros a marks _; apply changes_within_refl.
  - exact I.
  - exact I.
  - intros task key Hin; apply processVideoTask_scoped, in_map; exact Hin.
Qed.

(** ** The download *)

Lemma writes_app (tr new : list Event) :
  writes (tr ++ new) = (writes tr ++ writes new)%list.
Proof. apply flat_map_app. Qed.

Lemma fetches_app (tr new : list Event) :
  fetches (tr ++ new) = (fetches tr ++ fetches new)%list.
Proof. apply flat_map_app. Qed.

(** X14.  When [downloadVideo] returns, it has fetched the URL once and
    written one file, [saveDir] joined with the returned [actualFilename];
    that name is [<number>_<timestamp>_<baseName>], with [.mp4] appended
    unless the base name already ends in it (case ignored), and the
    returned [localPath] is the file's path relative to [<cwd>/public].
    The store is untouched. *)
Theorem downloadVideo_saved_file (rt : Runtime) (w : World)
  (url num saveDir : string) (st : St) (saved : Saved) (st' : St) :
  run rt w (downloadVideo rt url num saveDir) st = (inr saved, st') ->
  exists timestamp baseName new,
    s_actualFilename saved
    = num ++ "_" ++ dec timestamp ++ "_" ++ baseName
      ++ (if endsWith (rt_toLowerCase rt baseName) ".mp4" then "" else ".mp4")
    /\ s_localPath saved
       = rt_posix_join rt
           [rt_relative rt (rt_join rt [rt_cwd rt; "public"])
              (rt_join rt [saveDir; s_actualFilename saved])]
    /\ trace st' = (trace st ++ new)%list
    /\ writes new = [rt_join rt [saveDir; s_actualFilename saved]]
    /\ fetches new = [url]
    /\ store st' = store st.
Proof.
  unfold downloadVideo, ensureDir, settled.
  rewrite !run_bind, run_await; cbn [handle fst snd event_of store trace].
  destruct (w_mkdir w _ saveDir); cbn [run]; [discriminate |].
  destruct (rt_URL_pathname rt url) as [e | pathname]; cbn [run]; [discriminate |].
  cbn [bind].
  destruct (String.eqb pathname "");
    cbn [bind await run handle event_of store trace fst snd];
    match goal with
    | |- context [String.eqb (rt_basename rt ?a) ""] =>
        destruct (String.eqb (rt_basename rt a) "")
    end;
    cbn [bind await run handle event_of store trace fst snd].
  all: match goal with
       | |- context [w_fetch ?w0 ?n ?u] => destruct (w_fetch w0 n u) as [e | http_status]
       end; cbn [bind run]; try discriminate.
  all: match goal with |- context [negb (http_ok ?h)] => destruct (negb (http_ok h)) end; cbn [bind await run handle event_of store trace fst snd]; try discriminate.
  all: match goal with
       | |- context [w_arrayBuffer ?w0 ?n] => destruct (w_arrayBuffer w0 n) as [e | buffer]
       end; cbn [bind await run handle event_of store trace fst snd]; try discriminate.
  all: match goal with
       | |- context [w_writeFile ?w0 ?n ?f ?b] => destruct (w_writeFile w0 n f b) as [e |]
       end; cbn [bind await run handle event_of store trace fst snd]; try discriminate.
  all: repeat match goal with
              | |- context [w_clock ?w0 ?n] =>
                  let t := fresh "t" in set (t := w_clock w0 n); clearbody t
              end.
  all: intros H; injection H as <- <-.
  all: eexists; eexists; eexists; cbn [s_actualFilename s_localPath trace store].
  all: split; [reflexivity |]; split; [reflexivity |].
  all: split; [rewrite <- !app_assoc; reflexivity |].
  all: split; [reflexivity |]; split; reflexivity.
Qed.

(** X15.  A download answered with a status outside 200-299 throws
    [下载视频失败: <status>]: the URL was fetched, no file is written and the
    store is untouched. *)
Theorem downloadVideo_rejects_bad_status (rt : Runtime) (w : World)
  (url num saveDir : string) (st : St) (pathname : string) (s : Z) :
  w_mkdir w (List.length (trace st)) saveDir = None ->
  rt_URL_pathname rt url = inr pathname ->
  (forall n, w_fetch w n url = inr s) ->
  http_ok s = false ->
  let outcome := run rt w (downloadVideo rt url num saveDir) st in
  fst outcome = inl (Error ("下载视频失败: " ++ dec s))
  /\ store (snd outcome) = store st
  /\ exists new,
       trace (snd outcome) = (trace st ++ new)%list
       /\ fetches new = [url]
       /\ writes new = [].
Proof.
  intros Hmkdir Hurl Hfetch Hok outcome; subst outcome.
  unfold downloadVideo, ensureDir, settled.
  rewrite !run_bind, run_await; cbn [handle fst snd event_of store trace].
  rewrite Hmkdir, Hurl; cbn [run bind].
  destruct (String.eqb pathname "");
    cbn [bind await run handle event_of store trace fst snd];
    match goal with
    | |- context [String.eqb (rt_basename rt ?a) ""] =>
        destruct (String.eqb (rt_basename rt a) "")
    end;
    cbn [bind await run handle event_of store trace fst snd];
    rewrite Hfetch; cbn [bind run]; rewrite Hok;
    cbn [negb run fst snd store trace].
  all: split; [reflexivity |]; split; [reflexivity |].
  all: eexists; split; [rewrite <- !app_assoc; reflexivity |].
  all: split; reflexivity.
Qed.

(** X16.  When the save directory cannot be created, or the URL does not
    parse, [downloadVideo] throws that error having done nothing but the
    [mkdir]: nothing is fetched, nothing is written. *)
Theorem downloadVideo_stops_early (rt : Runtime) (w : World)
  (url num saveDir : string) (st : St) (e : Exn) :
  w_mkdir w (List.length (trace st)) saveDir = Some e
  \/ (w_mkdir w (List.length (trace st)) saveDir = None
      /\ rt_URL_pathname rt url = inl e) ->
  run rt w (downloadVideo rt url num saveDir) st
  = (inl e, mkSt (store st) (trace st ++ [EvMkdir saveDir])).
Proof.
  intros H.
  unfold downloadVideo, ensureDir, settled.
  rewrite !run_bind, run_await; cbn [handle fst snd event_of store trace].
  destruct H as [Hmkdir | [Hmkdir Hurl]]; rewrite Hmkdir; cbn [run];
    [reflexivity |].
  rewrite Hurl; reflexivity.
Qed.

(** ** The request body *)

(** X17.  The request body carries [seeds] only when the task's [seeds]
    is a non-empty text that [parseInt] reads as a number, and then it
    carries that number; a text that does not parse is dropped, the request
    is still built. *)
Theorem payload_seeds (rt : Runtime) (task : VideoTask) :
  prop (Some (payload_of rt task)) "seeds"
  = match seeds task with
    | Some text =>
        if String.eqb text "" then None
        else option_map JNum (rt_parseInt rt text)
    | None => None
    end.
Proof.
  unfold payload_of, str_truthy; cbn [prop lookup String.eqb Ascii.eqb Bool.eqb].
  destruct (watermark task) as [wm |]; [destruct (String.eqb wm "") |];
    cbn [negb app lookup String.eqb Ascii.eqb Bool.eqb];
    (destruct (callbackUrl task) as [cb |]; [destruct (String.eqb cb "") |];
     cbn [negb app lookup String.eqb Ascii.eqb Bool.eqb];
     (destruct (seeds task) as [text |]; [destruct (String.eqb text "") |];
      cbn [negb app lookup assign]; try reflexivity;
      destruct (rt_parseInt rt text); reflexivity)).
Qed.

(** ** The batch call and its route *)

Lemma targets_of_same_numbers (ns ns' : list string) (tasks : list VideoTask) :
  (forall x, In x ns <-> In x ns') ->
  targets_of (Some ns) tasks = targets_of (Some ns') tasks.
Proof.
  intros Hsame; unfold targets_of.
  destruct ns as [| n ns]; destruct ns' as [| n' ns'];
    cbn [List.length Nat.eqb negb]; try reflexivity.
  - exfalso; apply (proj2 (Hsame n')); left; reflexivity.
  - exfalso; apply (proj1 (Hsame n)); left; reflexivity.
  - f_equal; apply filter_ext; intros t.
    apply eq_true_iff_eq; rewrite !includes_In; apply Hsame.
Qed.

(** X18.  Only the set of requested numbers matters: two requests whose
    lists hold the same numbers, in any order and with any repetition,
    run the same batch; the targets are taken in the order of the store. *)
Theorem generateVideos_numbers_as_a_set (rt : Runtime) (w : World)
  (ns ns' : list string) (st : St) :
  (forall x, In x ns <-> In x ns') ->
  generateVideos rt w (Some ns) st = generateVideos rt w (Some ns') st.
Proof.
  intros Hsame; unfold generateVideos.
  cbn [handle]; cbv zeta.
  rewrite (targets_of_same_numbers ns ns' _ Hsame); reflexivity.
Qed.

(** ** The task board *)

Lemma polling_status_not_running (pollCount : Z) :
  includes RUNNING_STATUSES (polling_status pollCount) = false.
Proof. reflexivity. Qed.

(** X20.  The board does not count a task in the poll loop as running:
    when every task has a status [生成中... (轮询 n)], or is waiting, or is
    finished, [refetchInterval] returns [false] and the list is no longer
    refreshed. *)
Theorem refetchInterval_stops_while_polling (tasks : list VideoTask) :
  Forall polling_or_idle tasks ->
  refetchInterval (Some tasks) = None.
Proof.
  intros H; unfold refetchInterval.
  replace (existsb _ tasks) with false; [reflexivity |].
  symmetry; induction H as [| t rest Ht _ IH]; cbn [existsb]; [reflexivity |].
  rewrite IH, orb_false_r.
  destruct Ht as [[pollCount ->] | [-> | Hterm]];
    [apply polling_status_not_running | reflexivity |].
  unfold is_terminal in Hterm; apply orb_prop in Hterm.
  destruct Hterm as [E | E]; apply String.eqb_eq in E; rewrite E; reflexivity.
Qed.

Lemma shown_total_bounds (tasks : list VideoTask) :
  Forall (fun t => 0 <= shown_progress t <= 100) tasks ->
  forall acc,
    acc <= fold_left (fun acc task => acc + shown_progress task) tasks acc
    <= acc + 100 * Z.of_nat (List.length tasks).
Proof.
  induction 1 as [| t rest Ht _ IH]; intros acc; cbn [fold_left List.length].
  - lia.
  - specialize (IH (acc + shown_progress t)); lia.
Qed.

(** X21.  The overall progress the board shows is between 0 and 100
    when every stored progress is, a succeeded task counting as 100
    whatever its stored progress; it is 100 when there are tasks and all
    have succeeded. *)
Theorem overallProgress_range (tasks : list VideoTask) :
  Forall (fun t => status t = "成功" \/ 0 <= assign 0 (progress t) <= 100) tasks ->
  0 <= overallProgress tasks <= 100
  /\ (tasks <> [] -> Forall (fun t => status t = "成功") tasks ->
      overallProgress tasks = 100).
Proof.
  intros H.
  assert (Hshown : Forall (fun t => 0 <= shown_progress t <= 100) tasks).
  { eapply Forall_impl; [| exact H].
    intros t Ht; unfold shown_progress.
    destruct (String.eqb (status t) "成功") eqn:E; [lia |].
    destruct Ht as [Ht | Ht]; [| exact Ht].
    rewrite Ht in E; discriminate. }
  unfold overallProgress, Math_round_div.
  destruct tasks as [| t rest]; [cbn; split; [lia | intros Hne; contradiction] |].
  cbn [List.length Nat.eqb].
  set (n := Z.of_nat (S (List.length rest))).
  assert (Hn : 0 < n) by (subst n; lia).
  pose proof (shown_total_bounds _ Hshown 0) as Hb; cbn [Z.add] in Hb.
  change (Z.of_nat (List.length (t :: rest))) with n in Hb.
  set (total := fold_left _ _ 0) in *.
  split.
  - clearbody total n; split.
    + apply Z.div_pos; lia.
    + apply Z.lt_succ_r, Z.div_lt_upper_bound; [lia |].
      lia.
  - intros _ Hall.
    assert (Htotal : forall l acc,
               Forall (fun t => status t = "成功") l ->
               fold_left (fun acc task => acc + shown_progress task) l acc
               = acc + 100 * Z.of_nat (List.length l)).
    { induction l as [| x l IHl]; intros acc Hl; cbn [fold_left List.length];
        [lia |].
      inversion Hl as [| y l' Hx Hrest]; subst.
      rewrite IHl by assumption.
      unfold shown_progress; rewrite Hx, String.eqb_refl, Nat2Z.inj_succ; lia. }
    subst total; rewrite (Htotal _ 0 Hall).
    change (Z.of_nat (List.length (t :: rest))) with n.
    replace (2 * (0 + 100 * n) + n) with (n + 100 * (2 * n)) by lia.
    rewrite Z.div_add by lia.
    rewrite Z.div_small by lia; reflexivity.
Qed.

(* ================================================================== *)
(** * The batch as a whole *)

(** ** The stages of a pipeline *)

Lemma tracks_bind (A B S : Type) (step : S -> Event -> option S)
  (m : Prog A) (f : A -> Prog B) (Q R T : S -> Prop) :
  (forall a s', Q s' -> tracks step (f a) s' R T) ->
  forall s, tracks step m s Q T -> tracks step (bind m f) s R T.
Proof.
  intros Hf; induction m as [a | e | X e k IH]; intros s H; cbn in *.
  - apply Hf, H.
  - exact H.
  - destruct (step s (event_of e)); [| contradiction].
    intros x; apply IH, H.
Qed.

Lemma tracks_try_catch (A S : Type) (step : S -> Event -> option S)
  (m : Prog A) (h : Exn -> Prog A) (Q R T : S -> Prop) :
  (forall e s', Q s' -> tracks step (h e) s' R T) ->
  forall s, tracks step m s R Q -> tracks step (try_catch m h) s R T.
Proof.
  intros Hh; induction m as [a | e | X e k IH]; intros s H; cbn in *.
  - exact H.
  - apply Hh, H.
  - destruct (step s (event_of e)); [| contradiction].
    intros x; apply IH, H.
Qed.

(** Effects that leave the state where it is. *)
Lemma tracks_quiet (A S : Type) (step : S -> Event -> option S)
  (P : Event -> Prop) (m : Prog A) (s : S) (R T : S -> Prop) :
  (forall ev, P ev -> step s ev = Some s) ->
  R s -> T s -> emits P m -> tracks step m s R T.
Proof.
  intros HP HR HT H; induction H as [a | e | X e k Hev Hk IH]; cbn; auto.
  rewrite (HP _ Hev); exact IH.
Qed.

Lemma tracks_await (X S : Type) (step : S -> Event -> option S) (e : Eff X)
  (s s' : S) (R T : S -> Prop) :
  step s (event_of e) = Some s' -> R s' -> tracks step (await e) s R T.
Proof. intros Hstep HR; cbn; rewrite Hstep; intros _; exact HR. Qed.

Section Stages.

Variable rt : Runtime.
Variable task : VideoTask.
Variables key saveDir : string.

(** An update of the task with a status that neither opens nor closes. *)
Lemma tracks_progress_update (patch : Patch) (s : string) :
  p_number patch = None ->
  p_status patch = Some s ->
  is_opening s = false -> is_terminal s = false ->
  tracks (phase_step (number task)) (updateVideoTask (number task) patch)
    InFlight at_work at_work.
Proof.
  intros Hn Hs Hopen Hterm; apply (tracks_await _ _ _ _ _ InFlight);
    [| reflexivity].
  cbn [event_of phase_step].
  rewrite String.eqb_refl, Hn, Hs, Hopen, Hterm; reflexivity.
Qed.

Lemma tracks_closing_update (patch : Patch) (s : string) :
  p_number patch = None ->
  p_status patch = Some s ->
  is_opening s = false -> is_terminal s = true ->
  tracks (phase_step (number task)) (updateVideoTask (number task) patch)
    InFlight at_end at_work.
Proof.
  intros Hn Hs Hopen Hterm; apply (tracks_await _ _ _ _ _ Closed);
    [| reflexivity].
  cbn [event_of phase_step].
  rewrite String.eqb_refl, Hn, Hs, Hopen, Hterm; reflexivity.
Qed.

Lemma tracks_fetchJson (url : string) (config : AxiosConfig) (timeoutMs : Z)
  (retries : nat) :
  tracks (phase_step (number task))
    (fetchJson rt url config timeoutMs retries) InFlight at_work at_work.
Proof.
  apply (tracks_quiet _ _ (phase_step (number task))
           (fetch_event (mkRequest url (c_method config)
                           (default_headers ++ c_headers config)
                           (c_data config) timeoutMs)));
    [| reflexivity | reflexivity | apply fetchJson_emits].
  intros ev [-> | [ms ->]]; reflexivity.
Qed.

Lemma tracks_downloadVideo (url : string) :
  tracks (phase_step (number task))
    (downloadVideo rt url (number task) saveDir) InFlight at_work at_work.
Proof.
  apply (tracks_quiet _ _ (phase_step (number task)) download_event);
    [| reflexivity | reflexivity | apply downloadVideo_emits].
  intros ev; destruct ev; cbn; intros H; try contradiction; reflexivity.
Qed.

Lemma polling_status_not_opening (pollCount : Z) :
  is_opening (polling_status pollCount) = false.
Proof. reflexivity. Qed.

Lemma poll_loop_stages (pollUrl : string) (remaining : nat) :
  forall pollCount,
    tracks (phase_step (number task))
      (poll_loop rt remaining pollCount task key saveDir pollUrl)
      InFlight at_end at_work.
Proof.
  induction remaining as [| n IH]; intros pollCount; [reflexivity |].
  rewrite poll_loop_step.
  apply (tracks_bind _ _ _ _ _ _ at_work);
    [| apply (tracks_await _ _ _ _ _ InFlight); reflexivity].
  intros _ ph ->.
  apply (tracks_bind _ _ _ _ _ _ at_work); [| apply tracks_fetchJson].
  intros pollData ph ->.
  destruct (negb (strict_eq_num (prop (Some pollData) "code") 200)).
  { apply (tracks_bind _ _ _ _ _ _ at_work);
      [intros _ ph ->; apply IH |].
    eapply tracks_progress_update;
      [reflexivity | reflexivity | apply polling_status_not_opening
       | apply polling_status_not_terminal]. }
  cbv zeta.
  destruct (strict_eq_num _ 1).
  { apply (tracks_bind _ _ _ _ _ _ at_work);
      [| eapply tracks_progress_update; reflexivity].
    intros _ ph ->.
    destruct (negb (truthy _)); [reflexivity |].
    apply (tracks_bind _ _ _ _ _ _ at_work); [| apply tracks_downloadVideo].
    intros saved ph ->.
    apply (tracks_bind _ _ _ _ _ _ at_end);
      [intros _ ph ->; reflexivity |].
    eapply tracks_closing_update; reflexivity. }
  destruct (truthy _); [reflexivity |].
  apply (tracks_bind _ _ _ _ _ _ at_work);
    [intros _ ph ->; apply IH |].
  eapply tracks_progress_update;
    [reflexivity | reflexivity | apply polling_status_not_opening
     | apply polling_status_not_terminal].
Qed.

(** A pipeline opens its task, works on it, and closes it, in that order
    and on every path; it returns when it has closed it. *)
Lemma processVideoTask_follows :
  follows (number task) NotOpened (processVideoTask rt task key saveDir).
Proof.
  unfold follows, processVideoTask.
  apply (tracks_bind _ _ _ _ _ _ at_work).
  2:{ apply (tracks_await _ _ _ _ _ InFlight); [| reflexivity].
      cbn [event_of phase_step].
      rewrite String.eqb_refl; reflexivity. }
  intros _ ph ->.
  apply (tracks_try_catch _ _ _ _ _ at_work).
  - intros e ph ->; unfold processVideoTask_catch.
    eapply tracks_closing_update; reflexivity.
  - unfold processVideoTask_try.
    apply (tracks_bind _ _ _ _ _ _ at_work); [| apply tracks_fetchJson].
    intros generateResponse ph ->.
    destruct (negb (truthy _)); [reflexivity |].
    apply (tracks_bind _ _ _ _ _ _ at_work);
      [| eapply tracks_progress_update; reflexivity].
    intros _ ph ->; cbv zeta; apply poll_loop_stages.
Qed.

End Stages.

(** ** What the limiter preserves, job by job *)

Lemma nth_error_parts (T : Type) (l : list T) :
  forall i x,
    nth_error l i = Some x ->
    exists l1 l2,
      l = (l1 ++ x :: l2)%list
      /\ remove_nth i l = (l1 ++ l2)%list
      /\ forall y, replace_nth i y l = (l1 ++ y :: l2)%list.
Proof.
  induction l as [| a l IH]; intros [| i] x H; try discriminate.
  - injection H as ->; exists [], l; repeat split.
  - destruct (IH i x H) as [l1 [l2 [E [Hrm Hrp]]]].
    exists (a :: l1), l2; cbn [remove_nth replace_nth].
    rewrite Hrm, E; repeat split.
    intros y; rewrite <- E, Hrp; reflexivity.
Qed.

Lemma St_eta (st : St) : mkSt (store st) (trace st) = st.
Proof. destruct st; reflexivity. Qed.

Section PoolInvariant.

Variable rt : Runtime.
Variable w : World.
Variable cap : nat.
Hypothesis cap_positive : (1 <= cap)%nat.

(** A property of the queue, the jobs in flight and the machine. *)
Variable Inv : list Job -> list Job -> St -> Prop.

(** It survives the start of the job at the head of the queue, one step
    of a job in flight, and the settlement of a job that has returned. *)
Hypothesis Inv_start :
  forall job waiting running st,
    (List.length running < cap)%nat ->
    Inv (job :: waiting) running st ->
    Inv waiting (running ++ [job])
      (mkSt (store st) (trace st ++ [EvStart (fst job)])).
Hypothesis Inv_step :
  forall waiting before after num (X : Type) (e : Eff X) k st,
    Inv waiting (before ++ (num, Do e k) :: after) st ->
    Inv waiting (before ++ (num, k (fst (handle rt w e st))) :: after)
      (snd (handle rt w e st)).
Hypothesis Inv_settle :
  forall waiting before after num v st,
    Inv waiting (before ++ (num, Ret v) :: after) st ->
    Inv waiting (before ++ after)
      (mkSt (store st) (trace st ++ [EvSettle num])).

Lemma dispatch_keeps (waiting : list Job) :
  forall running s tr,
    Forall job_ok waiting ->
    Inv waiting running (mkSt s tr) ->
    let r := dispatch cap waiting running None tr in
    Inv (queue (fst r)) (active (fst r)) (mkSt s (snd r)).
Proof.
  induction waiting as [| [num p] waiting' IH]; intros running s tr Hw H r;
    subst r; cbn [dispatch]; [exact H |].
  inversion Hw as [| j l Hjob Hrest]; subst.
  destruct (List.length running <? cap)%nat eqn:Hfree; [| exact H].
  apply Nat.ltb_lt in Hfree.
  pose proof (Inv_start _ _ _ _ Hfree H) as Hstarted.
  cbn [fst snd store trace] in Hstarted |- *.
  destruct p as [v | err | X e k].
  - apply IH; [exact Hrest |].
    pose proof (Inv_settle waiting' running [] num v _ Hstarted) as Hsettled.
    cbn [store trace] in Hsettled.
    rewrite app_nil_r, <- app_assoc in Hsettled; exact Hsettled.
  - contradiction.
  - apply IH; assumption.
Qed.

(** The whole of a job in flight, run in one go. *)
Lemma run_keeps (waiting before after : list Job) (num : string)
  (p : Prog unit) :
  never_throws p ->
  forall st,
    Inv waiting (before ++ (num, p) :: after) st ->
    Inv waiting (before ++ after)
      (mkSt (store (snd (run rt w p st)))
            (trace (snd (run rt w p st)) ++ [EvSettle num])).
Proof.
  induction p as [v | err | X e k IH]; intros Hnever st H; cbn [run snd].
  - apply Inv_settle with (v := v); exact H.
  - contradiction.
  - pose proof (Inv_step _ _ _ _ _ e k st H) as Hstep.
    destruct (handle rt w e st) as [x st1]; cbn [fst snd] in Hstep.
    apply IH; [apply Hnever | exact Hstep].
Qed.

Lemma turn_keeps (i : nat) (pool : Pool) (st : St) :
  pool_ok cap pool ->
  Inv (queue pool) (active pool) st ->
  let r := turn rt w cap i pool st in
  Inv (queue (fst r)) (active (fst r)) (snd r).
Proof.
  intros Hok H r; subst r; unfold turn.
  destruct (nth_error (active pool) i) as [[num [v | err | X e k]] |] eqn:Hnth;
    try exact H.
  pose proof Hok as [Hlen [Heager [Hq [Ha Hrej]]]].
  pose proof (Forall_nth_error _ _ _ _ _ Ha Hnth) as Hjob.
  unfold job_ok in Hjob; cbn [snd never_throws] in Hjob.
  destruct (nth_error_parts _ _ _ _ Hnth) as [before [after [E [Hrm Hrp]]]].
  rewrite E in H.
  pose proof (Inv_step _ _ _ _ _ e k st H) as Hstep.
  destruct (handle rt w e st) as [x st1]; cbn [fst snd] in Hstep.
  specialize (Hjob x).
  destruct (k x) as [v | err | Y e' k'] eqn:Hk.
  - rewrite Hrej, Hrm.
    pose proof (Inv_settle _ _ _ _ _ _ Hstep) as Hsettled.
    pose proof (dispatch_keeps (queue pool) (before ++ after) (store st1)
                  (trace st1 ++ [EvSettle num]) Hq Hsettled) as Hkept.
    destruct (dispatch cap (queue pool) (before ++ after) None
                (trace st1 ++ [EvSettle num])) as [pool' tr'].
    exact Hkept.
  - contradiction.
  - cbn [fst snd queue active]; rewrite Hrp; exact Hstep.
Qed.

Lemma drain_keeps (n : nat) :
  forall pool st,
    pool_ok cap pool ->
    Inv (queue pool) (active pool) st ->
    let r := drain rt w cap n pool st in
    Inv (queue (fst r)) (active (fst r)) (snd r).
Proof.
  induction n as [| n IH]; intros pool st Hok H r; subst r; cbn [drain];
    [exact H |].
  destruct (active pool) as [| [num p] rest] eqn:Hact;
    [cbn [fst snd]; rewrite Hact; exact H |].
  pose proof Hok as [Hlen [Heager [Hq [Ha Hrej]]]].
  assert (Hnth : nth_error (active pool) 0 = Some (num, p))
    by (rewrite Hact; reflexivity).
  pose proof (Forall_nth_error _ _ _ _ _ Ha Hnth) as Hjob.
  pose proof (run_keeps (queue pool) [] rest num p Hjob st H) as Hrun.
  destruct (run_never_throws rt w _ p Hjob st) as [a Hres].
  destruct (run_effects rt w _ p st) as [front [Htr Hfront]].
  pose proof (settle_advances cap cap_positive pool st
                (snd (run rt w p st)) 0 num p front Hok Hnth Htr Hfront)
    as [_ Hok'].
  destruct (run rt w p st) as [res st1]; cbn [fst snd app] in *.
  subst res; rewrite Hrej.
  rewrite Hact in Hok'; cbn [remove_nth] in Hok'.
  pose proof (dispatch_keeps (queue pool) rest (store st1)
                (trace st1 ++ [EvSettle num]) Hq Hrun) as Hkept.
  destruct (dispatch cap (queue pool) rest None
              (trace st1 ++ [EvSettle num])) as [pool' tr'].
  cbn [fst snd] in Hok', Hkept.
  apply IH; assumption.
Qed.

Lemma run_pool_keeps (schedule : list nat) :
  forall pool st,
    pool_ok cap pool ->
    Inv (queue pool) (active pool) st ->
    let r := run_pool rt w cap schedule pool st in
    Inv (queue (fst r)) (active (fst r)) (snd r).
Proof.
  induction schedule as [| choice rest IH]; intros pool st Hok H r; subst r;
    cbn [run_pool].
  - apply drain_keeps; assumption.
  - destruct (active pool) as [| job others] eqn:Hact;
      [cbn [fst snd]; rewrite Hact; exact H |].
    rewrite <- Hact in *.
    pose proof (turn_advances rt w cap cap_positive
                  (choice mod List.length (active pool)) pool st Hok)
      as [_ Hok'].
    pose proof (turn_keeps (choice mod List.length (active pool)) pool st
                  Hok H) as Hkept.
    destruct (turn rt w cap (choice mod List.length (active pool)) pool st)
      as [pool' st'].
    apply IH; assumption.
Qed.

(** What holds of the jobs handed to the limiter, none of them started,
    holds of no job at all when the call returns. *)
Lemma promise_all_limit_keeps (jobs : list Job) (st : St) :
  Forall job_ok jobs ->
  Inv jobs [] st ->
  Inv [] [] (snd (promise_all_limit rt w cap jobs st)).
Proof.
  intros Hjobs H; unfold promise_all_limit.
  pose proof (dispatch_ok cap jobs [] (trace st) (Nat.le_0_l cap) Hjobs
                (Forall_nil _)) as Hok.
  rewrite <- (St_eta st) in H.
  pose proof (dispatch_keeps jobs [] (store st) (trace st) Hjobs H) as Hkept.
  destruct (dispatch cap jobs [] None (trace st)) as [pool tr].
  cbn [fst snd] in Hok, Hkept.
  pose proof (run_pool_advances rt w cap cap_positive (w_schedule w) pool
                (mkSt (store st) tr) Hok) as [_ [Hok2 Hempty]].
  pose proof (run_pool_keeps (w_schedule w) pool (mkSt (store st) tr) Hok Hkept)
    as Hend.
  destruct (run_pool rt w cap (w_schedule w) pool (mkSt (store st) tr))
    as [pool' st'].
  cbn [fst snd] in *.
  destruct Hok2 as [_ [Heager _]].
  rewrite Hempty in Heager, Hend; cbn [List.length] in Heager.
  destruct Heager as [Hq | Hcap]; [| lia].
  rewrite Hq in Hend; exact Hend.
Qed.

End PoolInvariant.

(** The same for a property of the jobs not yet settled that does not
    depend on their order, nor on which of them have started. *)
Section JobsInvariant.

Variable rt : Runtime.
Variable w : World.
Variable cap : nat.
Hypothesis cap_positive : (1 <= cap)%nat.

Variable F : list Job -> St -> Prop.

Hypothesis F_perm :
  forall jobs jobs' st, Permutation jobs jobs' -> F jobs st -> F jobs' st.
Hypothesis F_mark :
  forall jobs st ev,
    is_mark ev -> F jobs st -> F jobs (mkSt (store st) (trace st ++ [ev])).
Hypothesis F_step :
  forall jobs num (X : Type) (e : Eff X) k st,
    F ((num, Do e k) :: jobs) st ->
    F ((num, k (fst (handle rt w e st))) :: jobs) (snd (handle rt w e st)).
Hypothesis F_settle :
  forall jobs num v st, F ((num, Ret v) :: jobs) st -> F jobs st.

Lemma promise_all_limit_settles (jobs : list Job) (st : St) :
  Forall job_ok jobs ->
  F jobs st ->
  F [] (snd (promise_all_limit rt w cap jobs st)).
Proof.
  intros Hjobs H.
  apply (promise_all_limit_keeps rt w cap cap_positive
           (fun waiting running st => F (waiting ++ running) st));
    [| | | exact Hjobs | rewrite app_nil_r; exact H].
  - intros job waiting running st0 _ H0.
    apply F_mark; [exact I |].
    apply (F_perm ((job :: waiting) ++ running)); [| exact H0].
    cbn [app]; rewrite (app_assoc waiting running [job]).
    apply Permutation_cons_append.
  - intros waiting before after num X e k st0 H0.
    apply (F_perm ((num, k (fst (handle rt w e st0)))
                   :: waiting ++ before ++ after));
      [rewrite !app_assoc; apply Permutation_middle |].
    apply F_step.
    apply (F_perm (waiting ++ before ++ (num, Do e k) :: after)); [| exact H0].
    rewrite !app_assoc; symmetry; apply Permutation_middle.
  - intros waiting before after num v st0 H0.
    apply F_mark; [exact I |].
    apply (F_settle _ num v).
    apply (F_perm (waiting ++ before ++ (num, Ret v) :: after)); [| exact H0].
    rewrite !app_assoc; symmetry; apply Permutation_middle.
Qed.

End JobsInvariant.

(** ** Counting the updates of a batch *)

Lemma weight_app (wt : Event -> nat) (tr new : list Event) :
  weight wt (tr ++ new) = (weight wt tr + weight wt new)%nat.
Proof. unfold weight; rewrite map_app, list_sum_app; reflexivity. Qed.

Lemma jobs_debt_cons (wt : Event -> nat) (job : Job) (jobs : list Job) :
  jobs_debt wt (job :: jobs) = (debt wt (snd job) + jobs_debt wt jobs)%nat.
Proof. reflexivity. Qed.

Lemma jobs_debt_app (wt : Event -> nat) (jobs jobs' : list Job) :
  jobs_debt wt (jobs ++ jobs')
  = (jobs_debt wt jobs + jobs_debt wt jobs')%nat.
Proof. unfold jobs_debt; rewrite map_app, list_sum_app; reflexivity. Qed.

Lemma jobs_debt_perm (wt : Event -> nat) (jobs jobs' : list Job) :
  Permutation jobs jobs' -> jobs_debt wt jobs = jobs_debt wt jobs'.
Proof.
  intros H; induction H as [| job l l' H IH | a b l | l l' l'' H1 IH1 H2 IH2];
    rewrite ?jobs_debt_cons; lia.
Qed.

Lemma record_of_same_store (num : string) (st st' : St) :
  store st' = store st -> record_of num st' = record_of num st.
Proof. unfold record_of; intros ->; reflexivity. Qed.

Lemma find_mutate_first_other (test test' : VideoTask -> bool)
  (f : VideoTask -> VideoTask) (tasks : list VideoTask) :
  (forall t, test t = true -> test' t = false /\ test' (f t) = false) ->
  find test' (mutate_first test f tasks) = find test' tasks.
Proof.
  intros H; induction tasks as [| x rest IH]; [reflexivity |].
  cbn [mutate_first].
  destruct (test x) eqn:E; cbn [find].
  - destruct (H x E) as [-> ->]; reflexivity.
  - rewrite IH; reflexivity.
Qed.

(** An update addressed to another number leaves the record of [num] as
    it is. *)
Lemma record_of_other_update (rt : Runtime) (w : World) (num n : string)
  (patch : Patch) (st : St) :
  p_number patch = None ->
  String.eqb n num = false ->
  record_of num (snd (handle rt w (EUpdateVideoTask n patch) st))
  = record_of num st.
Proof.
  intros Hp Hneq; cbn [handle snd]; unfold record_of; cbn [store].
  unfold updateVideoTask_mutator.
  destruct (find _ (videoTasks (store st))); [| reflexivity].
  cbn [videoTasks]; apply find_mutate_first_other.
  intros t Ht; apply String.eqb_eq in Ht.
  cbn [Object_assign number]; rewrite Hp; cbn [assign]; rewrite Ht.
  split; exact Hneq.
Qed.

Lemma record_of_target (st : St) (t : VideoTask) :
  In t (videoTasks (store st)) ->
  exists t', record_of (number t) st = Some t'.
Proof.
  intros Hin; unfold record_of.
  destruct (find _ _) as [t' |] eqn:E; [exists t'; reflexivity |].
  pose proof (find_none _ _ E t Hin) as Hno; cbn in Hno.
  rewrite String.eqb_refl in Hno; discriminate.
Qed.

(** *** The stages and the counts *)

Lemma follows_never_throws (num : string) (p : Prog unit) :
  forall ph, follows num ph p -> never_throws p.
Proof.
  unfold follows; induction p as [v | err | X e k IH]; intros ph H; cbn in *;
    auto.
  destruct (phase_step num ph (event_of e)); [| contradiction].
  intros x; apply (IH x p), H.
Qed.

Lemma follows_step (num : string) (ph : Phase) (X : Type) (e : Eff X)
  (k : X -> Prog unit) :
  follows num ph (Do e k) ->
  exists ph',
    phase_step num ph (event_of e) = Some ph'
    /\ forall x, follows num ph' (k x).
Proof.
  unfold follows; cbn [tracks].
  destruct (phase_step num ph (event_of e)) as [ph' |]; [| contradiction].
  intros H; exists ph'; split; [reflexivity | exact H].
Qed.

Lemma phase_step_own (num : string) (ph ph' : Phase) (n : string)
  (patch : Patch) :
  phase_step num ph (EvUpdate n patch) = Some ph' ->
  n = num /\ p_number patch = None.
Proof.
  cbn [phase_step]; destruct (String.eqb n num) eqn:E; [| discriminate].
  apply String.eqb_eq in E.
  destruct (p_number patch); [discriminate | auto].
Qed.

Lemma phase_step_quiet (num : string) (ph ph' : Phase) (ev : Event) :
  is_update ev = false -> phase_step num ph ev = Some ph' -> ph' = ph.
Proof.
  destruct ev, ph; cbn; intros Hq H; try discriminate; injection H as <-;
    reflexivity.
Qed.

(** Work is done between the opening update and the terminal one. *)
Lemma phase_step_work (num : string) (ph ph' : Phase) (ev : Event) :
  is_work ev = true -> phase_step num ph ev = Some ph' -> ph = InFlight.
Proof.
  destruct ev, ph; cbn; intros Hq H; try discriminate; reflexivity.
Qed.

Lemma status_mark_quiet (g : string -> bool) (ev : Event) :
  is_update ev = false -> status_mark g ev = [].
Proof. destruct ev; cbn; intros H; try discriminate; reflexivity. Qed.

Lemma is_opening_not_terminal (s : string) :
  is_opening s = true -> is_terminal s = false.
Proof. intros H; apply String.eqb_eq in H; subst s; reflexivity. Qed.

Section Measures.

Variable measure : list string -> nat.
Hypothesis measure_nil : measure [] = 0%nat.

Lemma phase_step_weights (num : string) (ph ph' : Phase) (ev : Event) :
  phase_step num ph ev = Some ph' ->
  (mark_weight measure is_opening ev + opening_share measure num ph')%nat
  = opening_share measure num ph
  /\ (mark_weight measure is_terminal ev + closing_share measure num ph')%nat
     = closing_share measure num ph.
Proof.
  unfold opening_share, closing_share, mark_weight.
  destruct (is_update ev) eqn:Hupd.
  2:{ intros H; rewrite (phase_step_quiet _ _ _ _ Hupd H).
      rewrite !(status_mark_quiet _ _ Hupd), measure_nil; split; lia. }
  destruct ev as [| n patch | | | | | | | | | |]; try discriminate.
  intros H; destruct (phase_step_own _ _ _ _ _ H) as [-> Hp].
  cbn [phase_step status_mark] in *.
  rewrite String.eqb_refl, Hp in H.
  destruct (p_status patch) as [s |];
    [| injection H as <-; rewrite measure_nil; split; lia].
  destruct (is_opening s) eqn:Ho.
  - rewrite (is_opening_not_terminal s Ho).
    destruct ph; try discriminate.
    injection H as <-; cbn; rewrite measure_nil; split; lia.
  - destruct ph; try discriminate.
    destruct (is_terminal s); injection H as <-; cbn;
      rewrite ?measure_nil; split; lia.
Qed.

(** What a pipeline at stage [ph] still counts for. *)
Lemma follows_debt (num : string) (p : Prog unit) :
  forall ph,
    follows num ph p ->
    (uniform (mark_weight measure is_opening) p
     /\ debt (mark_weight measure is_opening) p
        = opening_share measure num ph)
    /\ (uniform (mark_weight measure is_terminal) p
        /\ debt (mark_weight measure is_terminal) p
           = closing_share measure num ph).
Proof.
  induction p as [v | err | X e k IH]; intros ph H.
  - unfold follows in H; cbn in H; subst ph; cbn; auto.
  - contradiction.
  - destruct (follows_step _ _ _ _ _ H) as [ph' [Hstep Hk]].
    destruct (phase_step_weights _ _ _ _ Hstep) as [Ho Hc].
    assert (Hall := fun x => IH x ph' (Hk x)).
    cbn [uniform debt]; repeat split.
    + apply Hall.
    + rewrite (proj2 (proj1 (Hall x))),
        (proj2 (proj1 (Hall (default_answer e)))); reflexivity.
    + rewrite (proj2 (proj1 (Hall (default_answer e)))); exact Ho.
    + apply Hall.
    + rewrite (proj2 (proj2 (Hall x))),
        (proj2 (proj2 (Hall (default_answer e)))); reflexivity.
    + rewrite (proj2 (proj2 (Hall (default_answer e)))); exact Hc.
Qed.

End Measures.

(** *** Accounting: what has been counted and what is still to come *)

Lemma uniform_never_throws (A : Type) (wt : Event -> nat) (m : Prog A) :
  uniform wt m -> never_throws m.
Proof.
  induction m as [a | e | X e k IH]; cbn; auto.
  intros H x; apply IH, H.
Qed.

Section Accounting.

Variable rt : Runtime.
Variable w : World.
Variable cap : nat.
Hypothesis cap_positive : (1 <= cap)%nat.
Variable wt : Event -> nat.
Hypothesis wt_marks : forall ev, is_mark ev -> wt ev = 0%nat.

Lemma promise_all_limit_weight (jobs : list Job) (st : St) :
  Forall (fun job => uniform wt (snd job)) jobs ->
  weight wt (trace (snd (promise_all_limit rt w cap jobs st)))
  = (weight wt (trace st) + jobs_debt wt jobs)%nat.
Proof.
  intros Hjobs.
  pose (F := fun (l : list Job) (s : St) =>
               Forall (fun job => uniform wt (snd job)) l
               /\ (weight wt (trace s) + jobs_debt wt l)%nat
                  = (weight wt (trace st) + jobs_debt wt jobs)%nat).
  assert (Hend : F [] (snd (promise_all_limit rt w cap jobs st))).
  { apply (promise_all_limit_settles rt w cap cap_positive F).
    - intros l l' s Hperm [Hu Hsum]; split.
      + eapply Permutation_Forall; eassumption.
      + rewrite <- (jobs_debt_perm wt l l' Hperm); exact Hsum.
    - intros l s ev Hev [Hu Hsum]; split; [exact Hu |].
      cbn [trace]; rewrite weight_app; unfold weight at 2; cbn.
      rewrite (wt_marks ev Hev); lia.
    - intros l num X e k s [Hu Hsum].
      inversion Hu as [| j l0 Hjob Hrest]; subst.
      cbn [snd uniform] in Hjob.
      destruct (Hjob (fst (handle rt w e s))) as [Hx Hsame].
      split; [constructor; assumption |].
      rewrite handle_trace, weight_app, jobs_debt_cons in *.
      cbn [snd debt] in *; unfold weight at 2; cbn.
      rewrite Hsame; lia.
    - intros l num v s [Hu Hsum].
      inversion Hu; subst; split; [assumption |].
      rewrite jobs_debt_cons in Hsum; cbn in Hsum; exact Hsum.
    - eapply Forall_impl; [| exact Hjobs].
      intros job Hu; apply (uniform_never_throws _ wt), Hu.
    - split; [exact Hjobs | reflexivity]. }
  destruct Hend as [_ Hsum]; cbn in Hsum; lia.
Qed.

End Accounting.

(** *** The record a pipeline leaves behind *)

Lemma phase_step_no_status (num : string) (ph ph' : Phase) (n : string)
  (patch : Patch) :
  p_status patch = None ->
  phase_step num ph (EvUpdate n patch) = Some ph' -> ph' = ph.
Proof.
  cbn [phase_step]; intros ->.
  destruct (String.eqb n num); [| discriminate].
  destruct (p_number patch); [discriminate |].
  intros H; injection H as <-; reflexivity.
Qed.

Lemma phase_step_working (num : string) (ph ph' : Phase) (n s : string)
  (patch : Patch) :
  p_status patch = Some s -> is_terminal s = false ->
  phase_step num ph (EvUpdate n patch) = Some ph' -> ph' = InFlight.
Proof.
  cbn [phase_step]; intros -> Hs.
  destruct (String.eqb n num); [| discriminate].
  destruct (p_number patch); [discriminate |].
  destruct ph; destruct (is_opening s); rewrite ?Hs; intros H;
    try discriminate; injection H as <-; reflexivity.
Qed.

Lemma record_of_own_update (rt : Runtime) (w : World) (num : string)
  (patch : Patch) (st : St) (t : VideoTask) :
  p_number patch = None ->
  record_of num st = Some t ->
  exists t',
    record_of num (snd (handle rt w (EUpdateVideoTask num patch) st)) = Some t'
    /\ status t' = assign (status t) (p_status patch).
Proof.
  intros Hp Hrec; eexists; split.
  - exact (record_after_update rt w num patch st t Hp Hrec).
  - reflexivity.
Qed.

Section Records.

Variable rt : Runtime.
Variable w : World.
Variable cap : nat.
Hypothesis cap_positive : (1 <= cap)%nat.
Variable num : string.

Lemma settled_or_pending_step (jobs : list Job) (n : string) (X : Type)
  (e : Eff X) (k : X -> Prog unit) (st : St) :
  settled_or_pending num ((n, Do e k) :: jobs) st ->
  settled_or_pending num ((n, k (fst (handle rt w e st))) :: jobs)
    (snd (handle rt w e st)).
Proof.
  intros [Hfollow [[t Ht] Hcase]].
  inversion Hfollow as [| j l0 [ph Hph] Hrest]; subst.
  cbn [fst snd] in Hph.
  destruct (follows_step _ _ _ _ _ Hph) as [ph' [Hstep Hk]].
  split; [constructor; [exists ph'; apply Hk | exact Hrest] |].
  (* the pipeline that is still to close, when it is not the one stepping *)
  assert (Hothers :
            forall job ph0,
              In job jobs -> fst job = num -> ph0 <> Closed ->
              follows num ph0 (snd job) ->
              exists job' ph1,
                In job' ((n, k (fst (handle rt w e st))) :: jobs)
                /\ fst job' = num /\ ph1 <> Closed
                /\ follows num ph1 (snd job')).
  { intros job ph0 Hin Hfst Hopen Hf; exists job, ph0.
    split; [right; exact Hin | auto]. }
  destruct (is_update (event_of e)) eqn:Hupd.
  - destruct e; try discriminate.
    cbn [event_of] in Hstep.
    destruct (phase_step_own _ _ _ _ _ Hstep) as [-> Hp].
    destruct (String.eqb n num) eqn:Hn.
    + apply String.eqb_eq in Hn; subst n.
      destruct (record_of_own_update rt w num patch st t Hp Ht)
        as [t' [Ht' Hstatus]].
      split; [exists t'; exact Ht' |].
      destruct (p_status patch) as [s |] eqn:Hs; cbn [assign] in Hstatus.
      * destruct (is_terminal s) eqn:Hterm.
        { left; exists t'; split; [exact Ht' |].
          rewrite Hstatus; exact Hterm. }
        right; exists (num, k (fst (handle rt w (EUpdateVideoTask num patch) st))).
        exists ph'; split; [left; reflexivity |].
        split; [reflexivity |].
        rewrite (phase_step_working _ _ _ _ _ _ Hs Hterm Hstep).
        split; [discriminate |].
        rewrite <- (phase_step_working _ _ _ _ _ _ Hs Hterm Hstep); apply Hk.
      * destruct Hcase as [[t0 [Ht0 Hterm]] | [job [ph0 [Hin [Hfst [Hopen Hf]]]]]].
        { left; exists t'; split; [exact Ht' |].
          rewrite Hstatus; rewrite Ht in Ht0; injection Ht0 as <-; exact Hterm. }
        right; destruct Hin as [<- | Hin]; [| eapply Hothers; eassumption].
        cbn [fst snd] in Hf.
        destruct (follows_step _ _ _ _ _ Hf) as [ph1 [Hstep1 Hk1]].
        cbn [event_of] in Hstep1.
        rewrite (phase_step_no_status _ _ _ _ _ Hs Hstep1) in Hk1.
        eexists; exists ph0; split; [left; reflexivity |].
        split; [reflexivity | split; [exact Hopen | apply Hk1]].
    + rewrite (record_of_other_update rt w num n patch st Hp Hn).
      split; [exists t; exact Ht |].
      destruct Hcase as [Hdone | [job [ph0 [Hin [Hfst [Hopen Hf]]]]]];
        [left; exact Hdone | right].
      destruct Hin as [<- | Hin]; [| eapply Hothers; eassumption].
      cbn [fst] in Hfst; subst n; rewrite String.eqb_refl in Hn; discriminate.
  - rewrite (record_of_same_store num st _ (handle_store_quiet rt w X e st Hupd)).
    split; [exists t; exact Ht |].
    destruct Hcase as [Hdone | [job [ph0 [Hin [Hfst [Hopen Hf]]]]]];
      [left; exact Hdone | right].
    destruct Hin as [<- | Hin]; [| eapply Hothers; eassumption].
    cbn [fst snd] in Hfst, Hf; subst n.
    destruct (follows_step _ _ _ _ _ Hf) as [ph1 [Hstep1 Hk1]].
    rewrite (phase_step_quiet _ _ _ _ Hupd Hstep1) in Hk1.
    eexists; exists ph0; split; [left; reflexivity |].
    split; [reflexivity | split; [exact Hopen | apply Hk1]].
Qed.

(** When the call returns, the record of every number that had a pipeline
    among the jobs is terminal. *)
Lemma promise_all_limit_closes (jobs : list Job) (st : St) (t : VideoTask)
  (p : Prog unit) :
  jobs_follow jobs ->
  record_of num st = Some t ->
  In (num, p) jobs ->
  follows num NotOpened p ->
  exists t',
    record_of num (snd (promise_all_limit rt w cap jobs st)) = Some t'
    /\ is_terminal (status t') = true.
Proof.
  intros Hjobs Ht Hin Hp.
  assert (Hend : settled_or_pending num []
                   (snd (promise_all_limit rt w cap jobs st))).
  { apply (promise_all_limit_settles rt w cap cap_positive
             (settled_or_pending num)).
    - intros l l' s Hperm [Hfollow [Hexists Hcase]].
      split; [eapply Permutation_Forall; eassumption |].
      split; [exact Hexists |].
      destruct Hcase as [Hdone | [job [ph [Hjob Hrest]]]];
        [left; exact Hdone | right].
      exists job, ph; split; [| exact Hrest].
      eapply Permutation_in; eassumption.
    - intros l s ev _ H; exact H.
    - apply settled_or_pending_step.
    - intros l n v s [Hfollow [Hexists Hcase]].
      inversion Hfollow; subst.
      split; [assumption | split; [exact Hexists |]].
      destruct Hcase as [Hdone | [job [ph [Hjob [Hfst [Hopen Hf]]]]]];
        [left; exact Hdone | right].
      destruct Hjob as [<- | Hjob].
      + unfold follows in Hf; cbn in Hf; contradiction.
      + exists job, ph; auto.
    - eapply Forall_impl; [| exact Hjobs].
      intros job [ph Hf]; apply (follows_never_throws _ _ _ Hf).
    - split; [exact Hjobs | split; [exists t; exact Ht |]].
      right; exists (num, p), NotOpened; repeat split; auto; discriminate. }
  destruct Hend as [_ [_ [Hdone | [job [ph [[] _]]]]]]; exact Hdone.
Qed.

End Records.

(** *** An effect every path of a job performs *)

Section Reach.

Variable rt : Runtime.
Variable w : World.
Variable cap : nat.
Hypothesis cap_positive : (1 <= cap)%nat.
Variable g : Event -> Prop.

Lemma promise_all_limit_reaches (jobs : list Job) (st : St) :
  Forall job_ok jobs ->
  Exists (fun job => surely g (snd job)) jobs ->
  exists new,
    trace (snd (promise_all_limit rt w cap jobs st)) = (trace st ++ new)%list
    /\ Exists g new.
Proof.
  intros Hjobs Hsure.
  pose (F := fun (l : list Job) (s : St) =>
               exists new,
                 trace s = (trace st ++ new)%list
                 /\ (Exists g new
                     \/ Exists (fun job => surely g (snd job)) l)).
  assert (Hend : F [] (snd (promise_all_limit rt w cap jobs st))).
  { apply (promise_all_limit_settles rt w cap cap_positive F).
    - intros l l' s Hperm [new [Htr Hcase]]; exists new; split; [exact Htr |].
      destruct Hcase as [Hseen | Hjob]; [left; exact Hseen | right].
      eapply Permutation_Exists; eassumption.
    - intros l s ev _ [new [Htr Hcase]].
      exists (new ++ [ev])%list; cbn [trace]; split;
        [rewrite Htr, app_assoc; reflexivity |].
      destruct Hcase as [Hseen | Hjob]; [left | right; exact Hjob].
      apply Exists_app; left; exact Hseen.
    - intros l n X e k s [new [Htr Hcase]].
      exists (new ++ [event_of e])%list; split;
        [rewrite handle_trace, Htr, app_assoc; reflexivity |].
      destruct Hcase as [Hseen | Hjob];
        [left; apply Exists_app; left; exact Hseen |].
      apply Exists_cons in Hjob; destruct Hjob as [Hhead | Htail];
        [| right; apply Exists_cons; right; exact Htail].
      cbn [snd surely] in Hhead; destruct Hhead as [Hnow | Hlater].
      + left; apply Exists_app; right; apply Exists_cons; left; exact Hnow.
      + right; apply Exists_cons; left; apply Hlater.
    - intros l n v s [new [Htr Hcase]]; exists new; split; [exact Htr |].
      destruct Hcase as [Hseen | Hjob]; [left; exact Hseen | right].
      apply Exists_cons in Hjob; destruct Hjob as [[] | Htail]; exact Htail.
    - exact Hjobs.
    - exists []; rewrite app_nil_r; split; [reflexivity | right; exact Hsure]. }
  destruct Hend as [new [Htr [Hseen | Hjob]]];
    [exists new; auto | inversion Hjob].
Qed.

End Reach.

(** *** The pipelines at work at any one moment *)

Lemma opened_app (tr new : list Event) :
  opened (tr ++ new) = (opened tr ++ opened new)%list.
Proof. apply flat_map_app. Qed.

Lemma closed_app (tr new : list Event) :
  closed (tr ++ new) = (closed tr ++ closed new)%list.
Proof. apply flat_map_app. Qed.

Lemma opened_snoc (tr : list Event) (ev : Event) :
  List.length (opened (tr ++ [ev])) = (List.length (opened tr) + opens ev)%nat.
Proof.
  rewrite opened_app, length_app; unfold opened at 2; cbn [flat_map].
  rewrite app_nil_r; reflexivity.
Qed.

Lemma closed_snoc (tr : list Event) (ev : Event) :
  List.length (closed (tr ++ [ev])) = (List.length (closed tr) + closes ev)%nat.
Proof.
  rewrite closed_app, length_app; unfold closed at 2; cbn [flat_map].
  rewrite app_nil_r; reflexivity.
Qed.

Lemma pipelines_within_nil (cap : nat) : pipelines_within cap [].
Proof. intros n; rewrite firstn_nil; cbn; lia. Qed.

Lemma pipelines_within_now (cap : nat) (tr : list Event) :
  pipelines_within cap tr ->
  (List.length (opened tr) <= List.length (closed tr) + cap)%nat.
Proof. intros H; specialize (H (List.length tr)); rewrite firstn_all in H; exact H. Qed.

Lemma pipelines_within_snoc (cap : nat) (tr : list Event) (ev : Event) :
  pipelines_within cap tr ->
  (List.length (opened (tr ++ [ev]))
   <= List.length (closed (tr ++ [ev])) + cap)%nat ->
  pipelines_within cap (tr ++ [ev]).
Proof.
  intros H Hnow n.
  destruct (Nat.le_gt_cases n (List.length tr)) as [Hle | Hgt].
  - rewrite firstn_app.
    replace (n - List.length tr)%nat with 0%nat by lia.
    cbn [firstn]; rewrite app_nil_r; apply H.
  - rewrite firstn_all2; [exact Hnow |].
    rewrite length_app; cbn; lia.
Qed.

Lemma work_while_open_nil : work_while_open [].
Proof. intros [| n] ev H; discriminate. Qed.

Lemma work_while_open_snoc (tr : list Event) (ev : Event) :
  work_while_open tr ->
  (is_work ev = true ->
   (List.length (closed tr) < List.length (opened tr))%nat) ->
  work_while_open (tr ++ [ev]).
Proof.
  intros H Hnow n ev' Hnth Hwork.
  destruct (Nat.lt_ge_cases n (List.length tr)) as [Hlt | Hge].
  - rewrite nth_error_app1 in Hnth by exact Hlt.
    rewrite firstn_app.
    replace (n - List.length tr)%nat with 0%nat by lia.
    cbn [firstn]; rewrite app_nil_r; apply (H n ev'); assumption.
  - rewrite nth_error_app2 in Hnth by exact Hge.
    destruct (n - List.length tr)%nat as [| m] eqn:Hn; cbn in Hnth;
      [| destruct m; discriminate].
    injection Hnth as <-.
    replace n with (List.length tr) by lia.
    rewrite firstn_app, firstn_all, Nat.sub_diag; cbn [firstn].
    rewrite app_nil_r; apply Hnow, Hwork.
Qed.

Lemma jobs_fresh_follow (jobs : list Job) : jobs_fresh jobs -> jobs_follow jobs.
Proof.
  apply Forall_impl; intros job H; exists NotOpened; exact H.
Qed.

Lemma jobs_follow_ok (jobs : list Job) : jobs_follow jobs -> Forall job_ok jobs.
Proof.
  apply Forall_impl; intros job [ph H]; apply (follows_never_throws _ _ _ H).
Qed.

Lemma follows_debts (num : string) (ph : Phase) (p : Prog unit) :
  follows num ph p ->
  debt opens p = (if opening_due ph then 1 else 0)%nat
  /\ debt closes p = (if closing_due ph then 1 else 0)%nat.
Proof.
  intros H.
  destruct (follows_debt (@List.length string) eq_refl num p ph H)
    as [[_ Ho] [_ Hc]].
  split; assumption.
Qed.

(** A pipeline that has opened has still to close; the others count for
    nothing or for both. *)
Lemma jobs_debt_bounds (jobs : list Job) :
  jobs_follow jobs ->
  (jobs_debt opens jobs <= jobs_debt closes jobs
   /\ jobs_debt closes jobs <= jobs_debt opens jobs + List.length jobs)%nat.
Proof.
  induction 1 as [| job jobs [ph Hjob] Hrest IH]; [cbn; lia |].
  rewrite !jobs_debt_cons; cbn [List.length].
  destruct (follows_debts _ _ _ Hjob) as [-> ->].
  destruct ph; cbn; lia.
Qed.

Section Flight.

Variable rt : Runtime.
Variable w : World.
Variable cap : nat.
Hypothesis cap_positive : (1 <= cap)%nat.
Variable base : list Event.

Lemma in_bounds_grows (waiting running : list Job) (st : St)
  (new : list Event) (ev : Event) :
  jobs_fresh waiting ->
  jobs_follow running ->
  (List.length running <= cap)%nat ->
  trace st = (base ++ new ++ [ev])%list ->
  pipelines_within cap new ->
  work_while_open new ->
  (is_work ev = true ->
   (List.length (closed new) < List.length (opened new))%nat) ->
  (List.length (opened new) + opens ev + jobs_debt opens running)%nat
  = (List.length (closed new) + closes ev + jobs_debt closes running)%nat ->
  in_bounds cap base waiting running st.
Proof.
  intros Hfresh Hfollow Hlen Htr Hwithin Hwork Hnow Hbal.
  split; [exact Hfresh | split; [exact Hfollow | split; [exact Hlen |]]].
  exists (new ++ [ev])%list; split; [exact Htr |].
  pose proof (jobs_debt_bounds running Hfollow) as [Hlo Hhi].
  split; [| split].
  - apply pipelines_within_snoc; [exact Hwithin |].
    rewrite opened_snoc, closed_snoc; lia.
  - apply work_while_open_snoc; assumption.
  - rewrite opened_snoc, closed_snoc; exact Hbal.
Qed.

Lemma promise_all_limit_pipelines (jobs : list Job) (st : St) :
  trace st = base ->
  jobs_fresh jobs ->
  exists new,
    trace (snd (promise_all_limit rt w cap jobs st)) = (base ++ new)%list
    /\ pipelines_within cap new
    /\ work_while_open new
    /\ List.length (opened new) = List.length (closed new).
Proof.
  intros Hbase Hjobs.
  assert (Hend : in_bounds cap base [] []
                   (snd (promise_all_limit rt w cap jobs st))).
  { apply (promise_all_limit_keeps rt w cap cap_positive (in_bounds cap base)).
    - intros [num p] waiting running s Hfree
        [Hfresh [Hfollow [Hlen [new [Htr [Hwithin [Hwork Hbal]]]]]]].
      inversion Hfresh as [| j l Hjob Hrest]; subst j l.
      cbn [fst snd] in Hjob |- *.
      destruct (follows_debts _ _ _ Hjob) as [Ho Hc]; cbn in Ho, Hc.
      apply (in_bounds_grows _ _ _ new (EvStart num)); auto;
        try discriminate.
      + apply Forall_app; split; [exact Hfollow |].
        constructor; [exists NotOpened; exact Hjob | constructor].
      + rewrite length_app; cbn; lia.
      + cbn [trace]; rewrite Htr, app_assoc; reflexivity.
      + rewrite !jobs_debt_app, !jobs_debt_cons; cbn [snd].
        rewrite Ho, Hc; cbn; lia.
    - intros waiting before after num X e k s
        [Hfresh [Hfollow [Hlen [new [Htr [Hwithin [Hwork Hbal]]]]]]].
      apply Forall_app in Hfollow as [Hbefore Hafter].
      inversion Hafter as [| j l [ph Hjob] Hrest]; subst j l.
      cbn [fst snd] in Hjob.
      destruct (follows_step _ _ _ _ _ Hjob) as [ph' [Hstep Hk]].
      destruct (phase_step_weights (@List.length string) eq_refl _ _ _ _ Hstep)
        as [Ho Hc].
      destruct (follows_debts _ _ _ Hjob) as [Ho1 Hc1].
      destruct (follows_debts _ _ _ (Hk (fst (handle rt w e s)))) as [Ho2 Hc2].
      rewrite !jobs_debt_app, !jobs_debt_cons in Hbal; cbn [snd] in Hbal.
      rewrite length_app in Hlen; cbn [List.length] in Hlen.
      apply (in_bounds_grows _ _ _ new (event_of e)); auto.
      + apply Forall_app; split; [exact Hbefore |].
        constructor; [exists ph'; apply Hk | exact Hrest].
      + rewrite length_app; cbn [List.length]; exact Hlen.
      + rewrite handle_trace, Htr, app_assoc; reflexivity.
      + intros Hdoing.
        pose proof (phase_step_work _ _ _ _ Hdoing Hstep) as Hph.
        subst ph; cbn [opening_due closing_due] in Ho1, Hc1.
        pose proof (jobs_debt_bounds _ Hbefore) as [Hb _].
        pose proof (jobs_debt_bounds _ Hrest) as [Ha _].
        lia.
      + rewrite !jobs_debt_app, !jobs_debt_cons; cbn [snd].
        unfold opening_share, closing_share in Ho, Hc.
        fold opens in Ho; fold closes in Hc.
        cbn [List.length] in Ho, Hc; lia.
    - intros waiting before after num v s
        [Hfresh [Hfollow [Hlen [new [Htr [Hwithin [Hwork Hbal]]]]]]].
      apply Forall_app in Hfollow as [Hbefore Hafter].
      inversion Hafter as [| j l Hjob Hrest]; subst j l.
      rewrite !jobs_debt_app, !jobs_debt_cons in Hbal; cbn in Hbal.
      rewrite length_app in Hlen; cbn [List.length] in Hlen.
      apply (in_bounds_grows _ _ _ new (EvSettle num)); auto;
        try discriminate.
      + apply Forall_app; split; assumption.
      + rewrite length_app; lia.
      + cbn [trace]; rewrite Htr, app_assoc; reflexivity.
      + rewrite !jobs_debt_app; cbn; lia.
    - apply jobs_follow_ok, jobs_fresh_follow, Hjobs.
    - split; [exact Hjobs | split; [constructor | split; [cbn; lia |]]].
      exists []; rewrite app_nil_r.
      split; [exact Hbase | split; [apply pipelines_within_nil |]].
      split; [apply work_while_open_nil | reflexivity]. }
  destruct Hend as [_ [_ [_ [new [Htr [Hwithin [Hwork Hbal]]]]]]].
  exists new; cbn in Hbal.
  split; [exact Htr | split; [exact Hwithin | split; [exact Hwork | lia]]].
Qed.

End Flight.

(** ** The pipelines of a batch *)

Lemma surely_bind (A B : Type) (g : Event -> Prop) (m : Prog A)
  (f : A -> Prog B) :
  surely g m -> surely g (bind m f).
Proof.
  induction m as [a | e | X e k IH]; cbn; try contradiction.
  intros [H | H]; [left; exact H | right; intros x; apply IH, H].
Qed.

Lemma surely_try_catch (A : Type) (g : Event -> Prop) (m : Prog A)
  (h : Exn -> Prog A) :
  surely g m -> surely g (try_catch m h).
Proof.
  induction m as [a | e | X e k IH]; cbn; try contradiction.
  intros [H | H]; [left; exact H | right; intros x; apply IH, H].
Qed.

(** Every pipeline sends its submit request. *)
Lemma processVideoTask_submits (rt : Runtime) (task : VideoTask)
  (key saveDir : string) :
  surely (fun ev => ev = EvAxios (submit_request rt task key))
    (processVideoTask rt task key saveDir).
Proof.
  unfold processVideoTask, updateVideoTask, await; cbn [bind surely].
  right; intros _.
  apply surely_try_catch; unfold processVideoTask_try; apply surely_bind.
  left; reflexivity.
Qed.

Lemma processVideoTask_pipeline_events (rt : Runtime) (task : VideoTask)
  (key saveDir : string) :
  emits (pipeline_event rt task key) (processVideoTask rt task key saveDir).
Proof.
  apply processVideoTask_events; cbn; auto.
  - intros id; right; exists id; reflexivity.
  - intros url; eapply emits_weaken; [| apply downloadVideo_emits].
    intros [] Hev; try exact I; contradiction.
Qed.

Lemma pipelines_fresh (rt : Runtime) (key saveDir : string)
  (targets : list VideoTask) :
  jobs_fresh (pipelines rt key saveDir targets).
Proof.
  unfold jobs_fresh, pipelines; apply Forall_map, Forall_forall.
  intros task _; apply processVideoTask_follows.
Qed.

Lemma count_occ_weight (g : string -> bool) (num : string) (tr : list Event) :
  count_occ string_dec (flat_map (status_mark g) tr) num
  = weight (mark_weight (fun l => count_occ string_dec l num) g) tr.
Proof.
  induction tr as [| ev tr IH]; [reflexivity |].
  cbn [flat_map]; rewrite count_occ_app, IH; reflexivity.
Qed.

Lemma count_occ_numbers (num : string) (targets : list VideoTask) :
  list_sum (map (fun t => count_occ string_dec [number t] num) targets)
  = count_occ string_dec (map number targets) num.
Proof.
  induction targets as [| t rest IH]; [reflexivity |].
  cbn [map count_occ]; rewrite <- IH.
  destruct (string_dec (number t) num); reflexivity.
Qed.

Section Batch.

Variable rt : Runtime.
Variable w : World.
Variable cap : nat.
Hypothesis cap_positive : (1 <= cap)%nat.
Variables key saveDir : string.
Variable targets : list VideoTask.

(** Every target's pipeline opens once and closes once, whatever the
    order in which the jobs are completed. *)
Lemma pipelines_counted (g : string -> bool) (st : St) (new : list Event) :
  g = is_opening \/ g = is_terminal ->
  trace (snd (promise_all_limit rt w cap
                (pipelines rt key saveDir targets) st))
  = (trace st ++ new)%list ->
  Permutation (flat_map (status_mark g) new) (map number targets).
Proof.
  intros Hg Htr; apply (Permutation_count_occ string_dec); intros num.
  set (jobs := pipelines rt key saveDir targets) in *.
  set (measure := fun l : list string => count_occ string_dec l num).
  rewrite count_occ_weight; fold measure.
  assert (Hjobs : forall t,
             (uniform (mark_weight measure is_opening)
                (processVideoTask rt t key saveDir)
              /\ debt (mark_weight measure is_opening)
                   (processVideoTask rt t key saveDir) = measure [number t])
             /\ (uniform (mark_weight measure is_terminal)
                   (processVideoTask rt t key saveDir)
                 /\ debt (mark_weight measure is_terminal)
                      (processVideoTask rt t key saveDir)
                    = measure [number t]))
    by (intros t; apply (follows_debt measure eq_refl (number t) _ NotOpened),
          processVideoTask_follows).
  assert (Hweigh : forall wt,
             (forall ev, is_mark ev -> wt ev = 0%nat) ->
             (forall t, uniform wt (processVideoTask rt t key saveDir)
                        /\ debt wt (processVideoTask rt t key saveDir)
                           = measure [number t]) ->
             weight wt new = count_occ string_dec (map number targets) num).
  { intros wt Hmarks Hwt.
    pose proof (promise_all_limit_weight rt w cap cap_positive wt Hmarks
                  jobs st) as Hsum.
    rewrite Htr, weight_app in Hsum.
    rewrite <- count_occ_numbers.
    assert (Hdebt : jobs_debt wt jobs
                    = list_sum (map (fun t => measure [number t]) targets)).
    { subst jobs; unfold jobs_debt, pipelines; rewrite map_map; cbn [snd].
      f_equal; apply map_ext; intros t; apply Hwt. }
    rewrite Hdebt in Hsum.
    assert (Hu : Forall (fun job => uniform wt (snd job)) jobs)
      by (subst jobs; unfold pipelines; apply Forall_map, Forall_forall;
          intros t _; apply Hwt).
    specialize (Hsum Hu); unfold measure in *; lia. }
  destruct Hg as [-> | ->]; apply Hweigh.
  - intros [] Hev; try contradiction; reflexivity.
  - intros t; apply Hjobs.
  - intros [] Hev; try contradiction; reflexivity.
  - intros t; apply Hjobs.
Qed.

(** What a batch of pipelines does, for every completion order: the jobs
    start in the order of the targets, never more than [cap] at a time;
    every target's pipeline opens once, sends its submit request, and
    closes once; no more than [cap] are open at any moment, and work is
    only done while one is; nothing else happens; and the record every
    target's number designates is left in a terminal status. *)
Lemma pipelines_batch (st : St) :
  (forall t, In t targets -> In t (videoTasks (store st))) ->
  let r := promise_all_limit rt w cap (pipelines rt key saveDir targets) st in
  fst r = None
  /\ exists new,
       trace (snd r) = (trace st ++ new)%list
       /\ (started new = map number targets
           /\ within_cap cap 0 new
           /\ in_flight_after 0 new = 0%nat
           /\ List.length (settled_jobs new) = List.length targets)
       /\ (Permutation (opened new) (map number targets)
           /\ Permutation (closed new) (map number targets)
           /\ pipelines_within cap new
           /\ work_while_open new)
       /\ (forall t,
              In t targets -> In (EvAxios (submit_request rt t key)) new)
       /\ Forall (fun ev =>
                    is_mark ev
                    \/ exists t, In t targets /\ pipeline_event rt t key ev)
            new
       /\ (forall t,
              In t targets ->
              exists t',
                record_of (number t) (snd r) = Some t'
                /\ is_terminal (status t') = true).
Proof.
  intros Hstore r; subst r.
  pose proof (pipelines_fresh rt key saveDir targets) as Hfresh.
  set (jobs := pipelines rt key saveDir targets) in *.
  pose proof (jobs_fresh_follow _ Hfresh) as Hfollow.
  pose proof (jobs_follow_ok _ Hfollow) as Hok.
  destruct (promise_all_limit_runs_all rt w cap cap_positive jobs st Hok)
    as [Hnone [new [Htr [Hstarted [Hcap [Hflight Hsettled]]]]]].
  assert (Hnumbers : map fst jobs = map number targets)
    by (subst jobs; unfold pipelines; rewrite map_map; reflexivity).
  split; [exact Hnone |].
  exists new; split; [exact Htr |].
  split.
  { rewrite Hsettled, Hstarted, Hnumbers, length_map; auto. }
  split.
  { split; [apply pipelines_counted with (st := st); auto |].
    split; [apply pipelines_counted with (st := st); auto |].
    destruct (promise_all_limit_pipelines rt w cap cap_positive (trace st)
                jobs st eq_refl Hfresh) as [new' [Htr' [Hwithin [Hwork _]]]].
    rewrite Htr in Htr'; apply app_inv_head in Htr'; subst new'.
    split; assumption. }
  split.
  { intros t Hin.
    destruct (promise_all_limit_reaches rt w cap cap_positive
                (fun ev => ev = EvAxios (submit_request rt t key)) jobs st Hok)
      as [new' [Htr' Hseen]].
    - apply Exists_exists.
      exists (number t, processVideoTask rt t key saveDir); split.
      + subst jobs; unfold pipelines.
        exact (in_map (fun task =>
                         (number task, processVideoTask rt task key saveDir))
                 targets t Hin).
      + apply processVideoTask_submits.
    - rewrite Htr in Htr'; apply app_inv_head in Htr'; subst new'.
      apply Exists_exists in Hseen; destruct Hseen as [ev [Hev ->]].
      exact Hev. }
  split.
  { set (P := fun ev => exists t, In t targets /\ pipeline_event rt t key ev).
    destruct (promise_all_limit_invariant rt w cap P (grows_by P)
                (grows_by_refl P) (grows_by_trans P)
                (fun X e st0 => grows_by_handle rt w P X e st0)
                (grows_by_marks P) jobs st)
      as [new' [Htr' Hall]].
    - subst jobs; unfold jobs_always, pipelines.
      apply Forall_map, Forall_forall; intros t Hin; cbn [snd].
      apply emits_always.
      eapply emits_weaken; [| apply processVideoTask_pipeline_events].
      intros ev Hev; exists t; split; assumption.
    - rewrite Htr in Htr'; apply app_inv_head in Htr'; subst new'.
      eapply Forall_impl; [| exact Hall].
      intros ev [Hev | Hev]; [right; exact Hev | left; exact Hev]. }
  intros t Hin.
  destruct (record_of_target st t (Hstore t Hin)) as [t0 Ht0].
  apply (promise_all_limit_closes rt w cap cap_positive (number t) jobs st t0
           (processVideoTask rt t key saveDir)); auto.
  - subst jobs; unfold pipelines.
    exact (in_map (fun task =>
                         (number task, processVideoTask rt task key saveDir))
                 targets t Hin).
  - apply processVideoTask_follows.
Qed.

End Batch.

(** ** The three ways of a batch *)

Lemma targets_in_store (numbers : option (list string))
  (tasks : list VideoTask) (t : VideoTask) :
  In t (targets_of numbers tasks) -> In t tasks.
Proof. intros H; apply targets_of_spec in H; tauto. Qed.

Lemma generateVideos_idle (rt : Runtime) (w : World)
  (numbers : option (list string)) (st : St) :
  targets_of numbers (videoTasks (store st)) = [] ->
  generateVideos rt w numbers st
  = (inr (mkOutcome false (Some NOTHING_TO_DO)),
     mkSt (store st) (trace st ++ [EvRead])).
Proof.
  intros Hnone; unfold generateVideos; cbn [handle event_of].
  rewrite Hnone; reflexivity.
Qed.

Lemma generateVideos_aborts (rt : Runtime) (w : World)
  (numbers : option (list string)) (st : St) (e : Exn) :
  targets_of numbers (videoTasks (store st)) <> [] ->
  fst (run rt w (pickVideoApiKey rt (store st)) st) = inl e ->
  generateVideos rt w numbers st
  = (inl e, mkSt (store st) (trace st ++ [EvRead; EvEnv "KIE_API_KEY"])).
Proof.
  intros Hsome Hpick; unfold generateVideos; cbn [handle event_of].
  destruct (targets_of numbers (videoTasks (store st))) as [| t ts];
    [contradiction |].
  rewrite run_pickVideoApiKey in Hpick |- *; cbn [fst] in Hpick.
  rewrite Hpick; cbn [store trace]; rewrite <- app_assoc; reflexivity.
Qed.

Lemma generateVideos_processes (rt : Runtime) (w : World)
  (numbers : option (list string)) (st : St) (picked : PickedKey) :
  let data := store st in
  let targets := targets_of numbers (videoTasks data) in
  let saveDir := resolveSaveDir rt (savePath (videoSettings data)) in
  let cap := Z.to_nat (concurrency (apiSettings data)) in
  targets <> [] ->
  fst (run rt w (pickVideoApiKey rt data) st) = inr picked ->
  generateVideos rt w numbers st
  = (inr (mkOutcome true None),
     snd (promise_all_limit rt w cap
            (pipelines rt (apiKey picked) saveDir targets)
            (mkSt (store st) (trace st ++ [EvRead; EvEnv "KIE_API_KEY"])))).
Proof.
  intros data targets saveDir cap Hsome Hpick.
  unfold generateVideos; cbn [handle event_of]; fold data targets.
  destruct targets as [| t ts] eqn:Htargets; [contradiction |].
  rewrite run_pickVideoApiKey in Hpick |- *; cbn [fst] in Hpick.
  rewrite Hpick; cbn [store trace]; rewrite <- app_assoc; cbn [app].
  fold saveDir cap.
  change (map _ (t :: ts)) with (pipelines rt (apiKey picked) saveDir (t :: ts)).
  pose proof (pipelines_batch rt w cap (concurrency_positive (apiSettings data))
                (apiKey picked) saveDir (t :: ts)
                (mkSt (store st) (trace st ++ [EvRead; EvEnv "KIE_API_KEY"])))
    as Hbatch.
  cbn zeta in Hbatch.
  destruct Hbatch as [Hnone _].
  { intros t0 Hin; cbn [store]; fold data.
    apply (targets_in_store numbers); fold targets.
    rewrite Htargets; exact Hin. }
  destruct (promise_all_limit _ _ _ _ _) as [rej st3]; cbn [fst snd] in *.
  subst rej; reflexivity.
Qed.

(** ** Tasks with distinct numbers *)





(** ** Selection and bounded concurrency *)

(** C1.  The targets of a call are the tasks of the collection whose number
    is among the requested ones (all tasks when the list is absent or
    empty) and whose status is [等待中] or [失败].  With no target the call
    returns the no-op result after reading the store and nothing else: no
    credential lookup, no HTTP attempt, no store update.  With targets and
    no credential the call aborts after the lookup, and no pipeline has
    run.  Otherwise the call reports success, and what has happened since
    the lookup is the run of [processVideoTask] on the targets: the jobs
    started are the targets in their order, every target's pipeline has
    written its opening status [生成中] once and no other number has been
    opened, every target's submit request has been sent, and every effect
    is an effect of the pipeline of some target (an update of the state of
    a record numbered like it, its submit request or a poll with the same
    key, a wait, a step of a download) or a mark of the limiter. *)
Theorem generateVideos_selection (rt : Runtime) (w : World)
  (numbers : option (list string)) (st : St) :
  let tasks := videoTasks (store st) in
  let targets := targets_of numbers tasks in
  let outcome := generateVideos rt w numbers st in
  (forall t,
      In t targets
      <-> In t tasks /\ requested numbers t
          /\ (status t = "等待中" \/ status t = "失败"))
  /\ (targets = [] ->
      outcome = (inr (mkOutcome false (Some NOTHING_TO_DO)),
                 mkSt (store st) (trace st ++ [EvRead])))
  /\ (forall e,
        targets <> [] ->
        fst (run rt w (pickVideoApiKey rt (store st)) st) = inl e ->
        outcome = (inl e,
                   mkSt (store st)
                     (trace st ++ [EvRead; EvEnv "KIE_API_KEY"])))
  /\ (forall picked,
        targets <> [] ->
        fst (run rt w (pickVideoApiKey rt (store st)) st) = inr picked ->
        fst outcome = inr (mkOutcome true None)
        /\ exists new,
             trace (snd outcome)
             = (trace st ++ [EvRead; EvEnv "KIE_API_KEY"] ++ new)%list
             /\ started new = map number targets
             /\ Permutation (opened new) (map number targets)
             /\ (forall t,
                   In t targets ->
                   In (EvAxios (submit_request rt t (apiKey picked))) new)
             /\ Forall (fun ev =>
                          is_mark ev
                          \/ exists t,
                               In t targets
                               /\ pipeline_event rt t (apiKey picked) ev)
                  new).
Proof.
  intros tasks targets outcome; subst outcome.
  split; [intros t; apply targets_of_spec |].
  split; [apply generateVideos_idle |].
  split; [intros e; apply generateVideos_aborts |].
  intros picked Hsome Hpick.
  rewrite (generateVideos_processes rt w numbers st picked Hsome Hpick).
  cbn [fst snd]; split; [reflexivity |].
  destruct (pipelines_batch rt w _ (concurrency_positive (apiSettings (store st)))
              (apiKey picked)
              (resolveSaveDir rt (savePath (videoSettings (store st))))
              targets
              (mkSt (store st) (trace st ++ [EvRead; EvEnv "KIE_API_KEY"])))
    as [_ [new [Htr [[Hstarted _] [[Hopened _] [Hsubmit [Hevents _]]]]]]].
  { intros t Hin; apply (targets_in_store numbers); exact Hin. }
  exists new; cbn [trace] in Htr; rewrite <- app_assoc in Htr.
  repeat split; assumption.
Qed.






(** ** The route handler *)

Lemma array_includes_strings (ns : list string) (x : string) :
  array_includes (map JStr ns) x = includes ns x.
Proof.
  unfold array_includes, includes; induction ns as [| n ns IH]; [reflexivity |].
  cbn [map existsb]; rewrite IH, (String.eqb_sym n x); reflexivity.
Qed.

(** On a payload of the declared type the filter is the one of
    [targets_of]. *)
Lemma filtered_by_typed (en : Engine) (numbers : option (list string))
  (tasks : list VideoTask) :
  exists filtered,
    filtered_by en (as_json numbers) tasks = inr filtered
    /\ filter eligible filtered = targets_of numbers tasks.
Proof.
  unfold filtered_by, targets_of.
  destruct numbers as [[| n ns] |]; cbn [as_json];
    try (eexists; split; reflexivity).
  exists (filter (fun item => includes (n :: ns) (number item)) tasks).
  split; [| reflexivity].
  cbn [prop map List.length]; rewrite String.eqb_refl.
  replace (truthy (Some (JNum (Z.of_nat (S (List.length (map JStr ns)))))))
    with true by (cbn [truthy]; symmetry; apply negb_true_iff, Z.eqb_neq; lia).
  f_equal; apply filter_ext; intros item.
  apply (array_includes_strings (n :: ns)).
Qed.

Lemma generateVideos_unchecked_typed (en : Engine) (rt : Runtime) (w : World)
  (numbers : option (list string)) (st : St) :
  generateVideos_unchecked en rt w (as_json numbers) st
  = generateVideos rt w numbers st.
Proof.
  unfold generateVideos_unchecked, generateVideos; cbn [handle].
  destruct (filtered_by_typed en numbers (videoTasks (store st)))
    as [filtered [-> ->]].
  reflexivity.
Qed.

(** The batch on given targets: the no-op result, the abort without a
    key, or success. *)
Lemma generateVideos_unchecked_cases (en : Engine) (rt : Runtime) (w : World)
  (numbers : option JSON) (st : St) (filtered : list VideoTask) :
  filtered_by en numbers (videoTasks (store st)) = inr filtered ->
  let outcome := generateVideos_unchecked en rt w numbers st in
  match filter eligible filtered,
        fst (run rt w (pickVideoApiKey rt (store st)) st) with
  | [], _ =>
      outcome = (inr (mkOutcome false (Some NOTHING_TO_DO)),
                 mkSt (store st) (trace st ++ [EvRead]))
  | _ :: _, inl e =>
      outcome = (inl e,
                 mkSt (store st) (trace st ++ [EvRead; EvEnv "KIE_API_KEY"]))
  | _ :: _, inr _ => fst outcome = inr (mkOutcome true None)
  end.
Proof.
  intros Hfiltered outcome; subst outcome.
  unfold generateVideos_unchecked; cbn [handle event_of].
  rewrite Hfiltered; cbv zeta.
  destruct (filter eligible filtered) as [| t ts] eqn:Htargets;
    [reflexivity |].
  rewrite !run_pickVideoApiKey; cbn [fst].
  set (picking := if trimmed_nonblank rt (w_env w "KIE_API_KEY") then _ else _).
  destruct picking as [e | picked].
  - cbn [store trace]; rewrite <- app_assoc; reflexivity.
  - match goal with
    | |- context [promise_all_limit rt w ?cap ?jobs ?st2] =>
        pose proof (promise_all_limit_runs_all rt w cap
                      (concurrency_positive (apiSettings (store st))) jobs st2
                      (pipelines_ok rt _ _ (t :: ts))) as [Hnone _];
        destruct (promise_all_limit rt w cap jobs st2) as [rej st3]
    end.
    cbn [fst] in Hnone |- *; subst rej; reflexivity.
Qed.

(** X19.  What the route answers.  A body [null] is answered with 500 and
    the engine's message for the failed read of [numbers], nothing having
    been read or written.  For any other body, with [numbers] whatever the
    body carries under that name: when the filter by [numbers] throws (an
    object with a truthy [length], and tasks to filter), 500 with that
    error's message and an unchanged store; with no eligible task among
    the filtered ones, 200 with [success: false] and [没有需要生成的视频任务]
    and an unchanged store; with eligible tasks and no API key, 500 with
    [success: false] and [未配置 KIE.AI 的 API 密钥] and an unchanged store;
    with eligible tasks and a key, 200 with [success: true].  A body that
    cannot be read counts as [{}].  When [numbers] is absent or an array of
    strings the answer is that of [generateVideos] on it. *)
Theorem POST_answers (en : Engine) (rt : Runtime) (w : World)
  (request_json : Exn + JSON) (st : St) :
  let body := body_of request_json in
  let numbers := prop (Some body) "numbers" in
  let key := fst (run rt w (pickVideoApiKey rt (store st)) st) in
  let answer := POST en rt w request_json st in
  (body = JNull ->
   answer
   = (mkResponse 500
        (mkOutcome false
           (Some (message_or_default
                    (TypeError (en_read_of_null en "numbers"))))),
      st))
  /\ (body <> JNull ->
      match filtered_by en numbers (videoTasks (store st)) with
      | inl error =>
          fst answer
          = mkResponse 500 (mkOutcome false (Some (message_or_default error)))
          /\ store (snd answer) = store st
      | inr filtered =>
          match filter eligible filtered, key with
          | [], _ =>
              fst answer
              = mkResponse 200 (mkOutcome false (Some NOTHING_TO_DO))
              /\ store (snd answer) = store st
          | _ :: _, inl _ =>
              fst answer
              = mkResponse 500 (mkOutcome false (Some NO_KEY_MESSAGE))
              /\ store (snd answer) = store st
          | _ :: _, inr _ =>
              fst answer = mkResponse 200 (mkOutcome true None)
          end
      end)
  /\ (forall typed,
        body <> JNull ->
        numbers = as_json typed ->
        answer = answered (generateVideos rt w typed st)).
Proof.
  intros body numbers key answer; subst answer key numbers.
  unfold POST; fold body; cbv zeta.
  split; [intros ->; reflexivity |].
  assert (Hbody : body <> JNull ->
                  match body with
                  | JNull =>
                      (inl (TypeError (en_read_of_null en "numbers")), st)
                  | _ =>
                      generateVideos_unchecked en rt w
                        (prop (Some body) "numbers") st
                  end
                  = generateVideos_unchecked en rt w
                      (prop (Some body) "numbers") st)
    by (destruct body; [contradiction | reflexivity ..]).
  split.
  - intros Hnot; rewrite (Hbody Hnot).
    destruct (filtered_by en (prop (Some body) "numbers")
                (videoTasks (store st))) as [error | filtered] eqn:Hfiltered.
    + unfold generateVideos_unchecked; cbn [handle].
      rewrite Hfiltered; split; reflexivity.
    + pose proof (generateVideos_unchecked_cases en rt w _ st filtered
                    Hfiltered) as Hcases.
      cbv zeta in Hcases.
      destruct (filter eligible filtered) as [| t ts].
      * rewrite Hcases; split; reflexivity.
      * rewrite run_pickVideoApiKey in Hcases |- *; cbn [fst] in Hcases |- *.
        destruct (trimmed_nonblank rt (w_env w "KIE_API_KEY"));
          [| destruct (trimmed_nonblank rt
                         (vs_apiKey (videoSettings (store st))));
             [| destruct (find _ _)]].
        4: rewrite Hcases; split; reflexivity.
        all: destruct (generateVideos_unchecked _ _ _ _ _) as [r st'];
          cbn [fst] in Hcases; subst r; reflexivity.
  - intros typed Hnot Htyped; rewrite (Hbody Hnot), Htyped.
    rewrite generateVideos_unchecked_typed; reflexivity.
Qed.

(* ================================================================== *)
(** * The statements on concrete runs *)

(** Two pipelines under a cap of two, the operations of the second one
    completing first: both tasks end in [成功], the task that was already
    done is not touched, the pipelines were started in queue order and
    settled in the other order. *)
Example interleaved_batch :
  let w := Sample.world Sample.prompt_provider
             [1; 0; 1; 1; 1; 0; 1; 1; 1; 1; 1; 1; 1; 1; 1]%nat in
  let outcome := generateVideos Sample.runtime w None Sample.waiting_store in
  fst outcome = inr (mkOutcome true None)
  /\ map status (videoTasks (store (snd outcome))) = ["成功"; "成功"; "成功"]
  /\ map progress (videoTasks (store (snd outcome)))
     = [Some 100; None; Some 100]
  /\ started (trace (snd outcome)) = ["1"; "3"]
  /\ settled_jobs (trace (snd outcome)) = ["3"; "1"].
Proof. vm_compute; repeat split; reflexivity. Qed.

Import Sample.

Lemma updateVideoTask_frame_witness :
  videoTasks
    (store (snd (run runtime quiet
                   (updateVideoTask "3" (failed_patch "boom")) waiting_store)))
  = [task "1" "等待中"; task "2" "成功";
     Object_assign (task "3" "失败") (failed_patch "boom") "1700000000000"].
Proof.
  apply (proj1 (proj2 (proj2 (proj2 (proj2 (proj2
           (updateVideoTask_frame runtime quiet "3" (failed_patch "boom")
              waiting_store))))))
           [task "1" "等待中"; task "2" "成功"] (task "3" "失败") []).
  - reflexivity.
  - intros item [<- | [<- | []]]; cbn; discriminate.
  - reflexivity.
Defined.

Lemma fetchJson_retries_client_error_witness :
  400 <= 404 < 500
  /\ attempts
       (trace (snd (run runtime (world (fun _ _ => Responded 404 (JStr "no")) [])
                      (fetchJson runtime RECORD_URL
                         (mkAxiosConfig "GET" [] None) 900000 3)
                      idle_store)))
     = 3%nat.
Proof.
  split; [lia |].
  rewrite (fetchJson_retries_client_error runtime
             (world (fun _ _ => Responded 404 (JStr "no")) []) idle_store
             RECORD_URL (mkAxiosConfig "GET" [] None) 900000 404 (JStr "no"));
    [reflexivity | lia | reflexivity].
Defined.

Lemma pickVideoApiKey_priority_witness :
  fst (generateVideos runtime quiet None keyless_store)
  = inl (Error "未配置 KIE.AI 的 API 密钥")
  /\ store (snd (generateVideos runtime quiet None keyless_store))
     = store keyless_store.
Proof.
  pose proof (proj2 (proj2 (proj2
                (pickVideoApiKey_priority runtime quiet None keyless_store))))
    as H.
  cbv zeta in H.
  destruct H as [_ [Hstore Habort]].
  - exact I.
  - exact I.
  - intros item [].
  - split; [apply Habort; discriminate | exact Hstore].
Defined.


Lemma progress_never_decreases_witness :
  exists new values,
    trace (snd (run runtime quiet
                  (processVideoTask runtime (task "1" "等待中") "secret"
                     "/app/public/generated_videos")
                  waiting_store)) = new
    /\ progress_writes new = map Some (5 :: values)
    /\ Sorted Z.le (5 :: values).
Proof.
  destruct (proj1 (progress_never_decreases runtime quiet (task "1" "等待中")
                     "secret" "/app/public/generated_videos" waiting_store))
    as [new [values [Htrace [Hwrites [Hsorted _]]]]].
  exists new, values; split; [exact Htrace | split; assumption].
Defined.

Lemma missing_taskId_fails_witness :
  exists t',
    record_of "1"
      (snd (run runtime refusing
              (processVideoTask runtime (task "1" "等待中") "secret" "/tmp/out")
              waiting_store)) = Some t'
    /\ status t' = "失败"
    /\ errorMsg t'
       = Some (NO_TASKID_PREFIX
               ++ slice0 500 (rt_JSON_stringify runtime submit_without_id)).
Proof.
  eapply (proj1 (proj2
            (missing_taskId_fails runtime refusing (task "1" "等待中") "secret"
               "/tmp/out" waiting_store (task "1" "等待中") submit_without_id
               _ _ _ _))).
  Unshelve.
  - exact (snd (run runtime refusing
                  (fetchJson runtime GENERATE_URL
                     (mkAxiosConfig "POST"
                        [("Content-Type", "application/json");
                         auth_header "secret"]
                        (Some (payload_of runtime (task "1" "等待中"))))
                     900000 default_retries)
                  (snd (run runtime refusing
                          (updateVideoTask "1" started_patch) waiting_store)))).
  - reflexivity.
  - reflexivity.
  - reflexivity.
Defined.

Lemma poll_timeout_fails_witness :
  fst (run runtime quiet
         (processVideoTask runtime (task "1" "等待中") "secret" "/tmp/out")
         waiting_store) = inr tt
  /\ exists t',
       record_of "1"
         (snd (run runtime quiet
                 (processVideoTask runtime (task "1" "等待中") "secret" "/tmp/out")
                 waiting_store)) = Some t'
       /\ status t' = "失败" /\ errorMsg t' = Some TIMEOUT_MESSAGE.
Proof.
  assert (H := poll_timeout_fails runtime quiet (task "1" "等待中") "secret"
                 "/tmp/out" waiting_store (task "1" "等待中")).
  cbv zeta in H.
  destruct H as [Hres [Hrec _]].
  - reflexivity.
  - intros st1; exists submit_ok; split; [| reflexivity].
    unfold default_retries.
    rewrite (fetchJson_first_try runtime quiet GENERATE_URL _ 900000 2 st1
               200 submit_ok); [reflexivity | reflexivity | lia].
  - intros pollUrl st1; exists poll_pending; split; [| reflexivity].
    unfold default_retries.
    rewrite (fetchJson_first_try runtime quiet pollUrl _ 900000 2 st1
               200 poll_pending); [reflexivity | reflexivity | lia].
  - split; [exact Hres | exact Hrec].
Defined.

Lemma success_is_recorded_witness :
  exists st_d saved t',
    fst (run runtime (world (ready_after 2) [])
           (downloadVideo runtime "https://cdn.example/v/a.mp4" "1" "/app/public/out")
           st_d) = inr saved
    /\ record_of "1"
         (snd (run runtime (world (ready_after 2) [])
                 (processVideoTask runtime (task "1" "等待中") "secret"
                    "/app/public/out")
                 waiting_store)) = Some t'
    /\ success_record t' saved "https://cdn.example/v/a.mp4".
Proof.
  assert (H := proj2 (success_is_recorded runtime (world (ready_after 2) [])
                        (task "1" "等待中") "secret" "/app/public/out")
                 waiting_store (task "1" "等待中") 2%nat 200 submit_ok 200
                 poll_success "https://cdn.example/v/a.mp4").
  cbv zeta in H.
  destruct H as [_ Hrec].
  - reflexivity.
  - reflexivity.
  - lia.
  - reflexivity.
  - unfold maxPollTimes; lia.
  - intros i Hi; exists 200, poll_pending.
    destruct i as [| [| i]]; [| | lia];
      (split; [reflexivity | split; [lia | reflexivity]]).
  - reflexivity.
  - lia.
  - split; [reflexivity | split; [reflexivity | exists []; reflexivity]].
  - intros st1; eexists; reflexivity.
  - exact Hrec.
Defined.

(** ** The further properties on concrete runs *)

Import Faults.

Lemma fetchJson_timeout_not_retried_witness :
  attempts
    (trace (snd (run runtime (world timing_out [])
                   (fetchJson runtime GENERATE_URL (mkAxiosConfig "POST" [] None)
                      900000 3)
                   idle_store)))
  = 1%nat.
Proof.
  rewrite (fetchJson_timeout_not_retried runtime (world timing_out []) idle_store
             GENERATE_URL (mkAxiosConfig "POST" [] None) 900000 2 None
             "timeout of 900000ms exceeded");
    reflexivity.
Defined.

Lemma fetchJson_network_failure_not_retried_witness :
  fst (run runtime (world unreachable [])
         (fetchJson runtime GENERATE_URL (mkAxiosConfig "POST" [] None)
            900000 3)
         idle_store)
  = inl (Error "网络请求失败 (ENOTFOUND): getaddrinfo ENOTFOUND api.kie.ai").
Proof.
  rewrite (fetchJson_network_failure_not_retried runtime (world unreachable [])
             idle_store GENERATE_URL (mkAxiosConfig "POST" [] None) 900000 2
             (Some "ENOTFOUND") "getaddrinfo ENOTFOUND api.kie.ai");
    [reflexivity | discriminate | discriminate | reflexivity].
Defined.

Lemma fetchJson_reset_exhausts_witness :
  sleeps
    (trace (snd (run runtime (world resetting [])
                   (fetchJson runtime GENERATE_URL (mkAxiosConfig "POST" [] None)
                      900000 3)
                   idle_store)))
  = [2000; 4000].
Proof.
  rewrite (fetchJson_reset_exhausts runtime (world resetting []) idle_store
             GENERATE_URL (mkAxiosConfig "POST" [] None) 900000 2);
    [reflexivity |].
  intros i _; exists None, "socket hang up"; reflexivity.
Defined.

Lemma fetchJson_server_error_exhausts_witness :
  exists s d,
    run runtime (world overloaded [])
      (fetchJson runtime GENERATE_URL (mkAxiosConfig "POST" [] None) 900000 3)
      idle_store
    = (inl (Error ("HTTP " ++ dec s ++ ": " ++ body_text runtime d)),
       mkSt (store idle_store)
         (trace idle_store
          ++ retry_events
               (request_of GENERATE_URL (mkAxiosConfig "POST" [] None) 900000)
               1000 1 3)).
Proof.
  destruct (fetchJson_server_error_exhausts runtime (world overloaded [])
              idle_store GENERATE_URL (mkAxiosConfig "POST" [] None) 900000 2)
    as [s [d [_ Hrun]]].
  - intros i _; exists 503, (JStr "busy"); split; [reflexivity | lia].
  - exists s, d; exact Hrun.
Defined.

Lemma fetchJson_recovers_witness :
  fst (run runtime (world flaky [])
         (fetchJson runtime RECORD_URL (mkAxiosConfig "GET" [] None) 900000 3)
         idle_store)
  = inr poll_pending.
Proof.
  apply (fetchJson_recovers runtime (world flaky []) idle_store RECORD_URL
           (mkAxiosConfig "GET" [] None) 900000 3 2 200 poll_pending).
  - lia.
  - intros [| [| i]] Hi; [reflexivity | reflexivity | lia].
  - reflexivity.
  - lia.
Defined.

Lemma submit_failure_is_recorded_witness :
  exists t',
    record_of "1"
      (snd (run runtime (world timing_out [])
              (processVideoTask runtime (task "1" "等待中") "secret" "/tmp/out")
              waiting_store)) = Some t'
    /\ status t' = "失败"
    /\ errorMsg t' = Some "请求超时 (900000ms)"
    /\ progress t' = Some 5.
Proof.
  eapply (proj2 (proj2
            (submit_failure_is_recorded runtime (world timing_out [])
               (task "1" "等待中") "secret" "/tmp/out" waiting_store
               (task "1" "等待中") (Error "请求超时 (900000ms)") _ _ _))).
  Unshelve.
  - exact (snd (run runtime (world timing_out [])
                  (fetchJson runtime GENERATE_URL
                     (submit_config runtime (task "1" "等待中") "secret")
                     900000 default_retries)
                  (snd (run runtime (world timing_out [])
                          (updateVideoTask "1" started_patch) waiting_store)))).
  - reflexivity.
  - reflexivity.
Defined.

Lemma provider_error_is_recorded_witness :
  exists t',
    record_of "1"
      (snd (run runtime (world (ends_with 2 poll_error) [])
              (processVideoTask runtime (task "1" "等待中") "secret" "/tmp/out")
              waiting_store)) = Some t'
    /\ status t' = "失败"
    /\ errorMsg t' = Some "content policy violation".
Proof.
  assert (H := provider_error_is_recorded runtime
                 (world (ends_with 2 poll_error) []) (task "1" "等待中")
                 "secret" "/tmp/out" waiting_store (task "1" "等待中") 2%nat
                 200 submit_ok 200 poll_error "content policy violation").
  cbv zeta in H.
  destruct H as [_ [_ Hrec]].
  - reflexivity.
  - reflexivity.
  - lia.
  - reflexivity.
  - unfold maxPollTimes; lia.
  - intros i Hi; exists 200, poll_pending.
    destruct i as [| [| i]]; [| | lia];
      (split; [reflexivity | split; [lia | reflexivity]]).
  - reflexivity.
  - lia.
  - repeat split; discriminate.
  - exact Hrec.
Defined.

Lemma success_without_urls_is_recorded_witness :
  exists t',
    record_of "1"
      (snd (run runtime (world (ends_with 1 poll_success_without_urls) [])
              (processVideoTask runtime (task "1" "等待中") "secret" "/tmp/out")
              waiting_store)) = Some t'
    /\ status t' = "失败"
    /\ errorMsg t' = Some NO_URL_MESSAGE
    /\ progress t' = Some 95.
Proof.
  assert (H := success_without_urls_is_recorded runtime
                 (world (ends_with 1 poll_success_without_urls) [])
                 (task "1" "等待中") "secret" "/tmp/out" waiting_store
                 (task "1" "等待中") 1%nat 200 submit_ok 200
                 poll_success_without_urls).
  cbv zeta in H.
  destruct H as [_ [_ Hrec]].
  - reflexivity.
  - reflexivity.
  - lia.
  - reflexivity.
  - unfold maxPollTimes; lia.
  - intros i Hi; exists 200, poll_pending.
    destruct i as [| i]; [| lia].
    split; [reflexivity | split; [lia | reflexivity]].
  - reflexivity.
  - lia.
  - repeat split.
  - exact Hrec.
Defined.

Lemma download_failure_is_recorded_witness :
  exists t',
    record_of "1"
      (snd (run runtime (hosting (ready_after 0) 404)
              (processVideoTask runtime (task "1" "等待中") "secret"
                 "/app/public/out")
              waiting_store)) = Some t'
    /\ status t' = "失败"
    /\ errorMsg t' = Some "下载视频失败: 404"
    /\ progress t' = Some 95.
Proof.
  assert (H := download_failure_is_recorded runtime
                 (hosting (ready_after 0) 404) (task "1" "等待中") "secret"
                 "/app/public/out" waiting_store (task "1" "等待中") 0%nat
                 200 submit_ok 200 poll_success video_url
                 "下载视频失败: 404").
  cbv zeta in H.
  destruct H as [_ Hrec].
  - reflexivity.
  - reflexivity.
  - lia.
  - reflexivity.
  - unfold maxPollTimes; lia.
  - intros i Hi; lia.
  - reflexivity.
  - lia.
  - split; [reflexivity | split; [reflexivity | exists []; reflexivity]].
  - intros st1; eexists; split; reflexivity.
  - exact Hrec.
Defined.

Lemma downloadVideo_saved_file_witness :
  writes
    (trace (snd (run runtime quiet
                   (downloadVideo runtime video_url "7" "/app/public/out")
                   idle_store)))
  = ["/app/public/out/7_1700000000001_a.mp4"].
Proof.
  destruct (downloadVideo_saved_file runtime quiet video_url "7"
              "/app/public/out" idle_store
              (mkSaved "out/7_1700000000001_a.mp4" "7_1700000000001_a.mp4")
              (snd (run runtime quiet
                      (downloadVideo runtime video_url "7" "/app/public/out")
                      idle_store)))
    as [timestamp [baseName [new [_ [_ [Htrace [Hwrites _]]]]]]].
  - reflexivity.
  - rewrite Htrace, writes_app, Hwrites; reflexivity.
Defined.

Lemma downloadVideo_rejects_bad_status_witness :
  fst (run runtime (hosting never_ready 403)
         (downloadVideo runtime video_url "7" "/app/public/out") idle_store)
  = inl (Error "下载视频失败: 403").
Proof.
  apply (downloadVideo_rejects_bad_status runtime (hosting never_ready 403)
           video_url "7" "/app/public/out" idle_store "/v/a.mp4" 403);
    reflexivity.
Defined.

Lemma downloadVideo_stops_early_witness :
  fetches
    (trace (snd (run runtime read_only_disk
                   (downloadVideo runtime video_url "7" "/app/public/out")
                   idle_store)))
  = [].
Proof.
  rewrite (downloadVideo_stops_early runtime read_only_disk video_url "7"
             "/app/public/out" idle_store
             (mkExn false "Error" "EACCES: permission denied, mkdir"
                (Some "EACCES") None));
    [reflexivity | left; reflexivity].
Defined.

Lemma generateVideos_numbers_as_a_set_witness :
  generateVideos runtime quiet (Some ["3"; "1"; "3"]) waiting_store
  = generateVideos runtime quiet (Some ["1"; "3"]) waiting_store.
Proof.
  apply generateVideos_numbers_as_a_set.
  intros x; cbn [In]; tauto.
Defined.

Lemma refetchInterval_stops_while_polling_witness :
  refetchInterval
    (Some [task "1" (polling_status 7); task "2" "成功"; task "3" "等待中"])
  = None.
Proof.
  apply refetchInterval_stops_while_polling.
  constructor; [left; exists 7; reflexivity |].
  constructor; [right; right; reflexivity |].
  constructor; [right; left; reflexivity | constructor].
Defined.

Lemma overallProgress_range_witness :
  0 <= overallProgress [task "1" "成功"; task "2" "等待中"] <= 100.
Proof.
  apply (overallProgress_range [task "1" "成功"; task "2" "等待中"]).
  constructor; [left; reflexivity |].
  constructor; [right; cbn; lia | constructor].
Defined.

(** ** The batch on concrete runs *)

Import Batches.


Lemma generateVideos_selection_witness :
  targets_of None (videoTasks (store waiting_store))
  = [task "1" "等待中"; task "3" "失败"]
  /\ exists new,
       trace (snd (generateVideos runtime (prompt_world [1; 0; 1]%nat) None
                     waiting_store))
       = ([EvRead; EvEnv "KIE_API_KEY"] ++ new)%list
       /\ started new = ["1"; "3"]
       /\ Permutation (opened new) ["1"; "3"]
       /\ In (EvAxios (submit_request runtime (task "1" "等待中") "secret")) new
       /\ In (EvAxios (submit_request runtime (task "3" "失败") "secret")) new.
Proof.
  split; [reflexivity |].
  destruct (proj2 (proj2 (proj2
              (generateVideos_selection runtime (prompt_world [1; 0; 1]%nat) None
                 waiting_store)))
              (mkPickedKey "secret" "main"))
    as [_ [new [Htr [Hstarted [Hopened [Hsubmit _]]]]]];
    [discriminate | reflexivity |].
  exists new; split; [exact Htr |].
  split; [exact Hstarted | split; [exact Hopened |]].
  split; apply Hsubmit; [left | right; left]; reflexivity.
Defined.

